(** * Deep-research agent: session controller, source extraction, web search

    A shallow embedding of the TypeScript sources of the
    [deepresearch-agent] package:

    - [core/session.ts]      (report validator, slug derivation, session controller)
    - [core/system-prompt.ts] (required headings)
    - [tools/extract-source.ts] (classification and extraction pipeline)
    - [tools/web-search.ts]  (provider aggregation)

    JavaScript strings are sequences of UTF-16 code units and are modelled
    as [list N].  A [number] that comes from outside is a [Num.JsNumber]
    (not-a-number, an infinity or a finite value); counters that start
    at zero and are only incremented are integers.  Optional fields
    ([string | undefined]) are [option]s.
    Thrown errors are values of an error type; [async] functions are
    modelled by explicit state passing, with their [await] points made
    visible where a property depends on them. *)

From Stdlib Require Import ZArith NArith List Bool Lia Ascii String.
From Stdlib Require QArith.
From stdpp Require Import base option list gmap.

#[local] Set Warnings "-register-all,-abstract-large-number".

Local Open Scope N_scope.

(* ===================================================================== *)
(** * JavaScript strings *)
(* ===================================================================== *)

Module Js.

Abbreviation jstring := (list N).

(** An ASCII literal as a sequence of code units. *)
Fixpoint js (s : string) : jstring :=
  match s with
  | EmptyString => []
  | String a r => N_of_ascii a :: js r
  end.

Arguments js : simpl never.

(** [LineTerminator]: LF, CR, LS, PS. *)
Definition isLineTerminator (c : N) : bool :=
  (c =? 10) || (c =? 13) || (c =? 8232) || (c =? 8233).

(** The class [\s] (and the characters [trim] strips): [WhiteSpace]
    and [LineTerminator]. *)
Definition isWhiteSpace (c : N) : bool :=
  (c =? 9) || (c =? 10) || (c =? 11) || (c =? 12) || (c =? 13) || (c =? 32)
  || (c =? 160) || (c =? 5760) || ((8192 <=? c) && (c <=? 8202))
  || (c =? 8232) || (c =? 8233) || (c =? 8239) || (c =? 8287)
  || (c =? 12288) || (c =? 65279).

Definition isDigit (c : N) : bool := (48 <=? c) && (c <=? 57).
Definition isLowerAlpha (c : N) : bool := (97 <=? c) && (c <=? 122).
Definition isUpperAlpha (c : N) : bool := (65 <=? c) && (c <=? 90).

(** [toLowerCase], on ASCII text: the letters [A] to [Z] are mapped and
    every other unit is left as it is.  The platform's function also
    maps letters outside ASCII (U+212A to [k], U+0130 to two units).
    The package lower-cases host names and path names of parsed URLs,
    which are ASCII, and header values, where a letter outside ASCII
    stays outside ASCII and only ASCII patterns are looked for; flag [i]
    of a pattern without flag [u] relates the ASCII letters only.  A
    statement about the lower-casing of any other text takes the text to
    be ASCII ([isAscii]). *)
Definition lowerUnit (c : N) : N := if isUpperAlpha c then c + 32 else c.
Definition toLowerCase (s : jstring) : jstring := map lowerUnit s.

Definition isAscii (s : jstring) : bool := forallb (fun c => c <? 128) s.

Fixpoint dropWhile (p : N -> bool) (s : jstring) : jstring :=
  match s with
  | [] => []
  | c :: t => if p c then dropWhile p t else s
  end.

Fixpoint takeWhile (p : N -> bool) (s : jstring) : jstring :=
  match s with
  | [] => []
  | c :: t => if p c then c :: takeWhile p t else []
  end.

Definition trimStart (s : jstring) : jstring := dropWhile isWhiteSpace s.
Definition trimEnd (s : jstring) : jstring :=
  rev (dropWhile isWhiteSpace (rev s)).
Definition trim (s : jstring) : jstring := trimEnd (trimStart s).

Definition eqb (a b : jstring) : bool := bool_decide (a = b).

(** [s.startsWith(p)], returning what follows the prefix. *)
Fixpoint stripPrefix (p s : jstring) : option jstring :=
  match p, s with
  | [], _ => Some s
  | _ :: _, [] => None
  | a :: p', b :: s' => if a =? b then stripPrefix p' s' else None
  end.

Definition startsWith (s p : jstring) : bool :=
  match stripPrefix p s with Some _ => true | None => false end.

Definition endsWith (s p : jstring) : bool := startsWith (rev s) (rev p).

(** A search: a pattern that is tried at every position of the input,
    from the first to the one after the last unit. *)
Fixpoint anywhere (here : jstring -> bool) (s : jstring) : bool :=
  here s ||
  match s with
  | [] => false
  | _ :: t => anywhere here t
  end.

(** [s.includes(p)]. *)
Definition includes (s p : jstring) : bool :=
  anywhere (fun r => startsWith r p) s.

(** [s.slice(0, e)] on a sequence of length [length s]: a negative end
    counts from the end. *)
Definition slice0 {A} (l : list A) (e : Z) : list A :=
  if (e <? 0)%Z then take (Z.to_nat (Z.of_nat (length l) + e)) l
  else take (Z.to_nat e) l.

(** Truthiness of a string and of an optional string. *)
Definition nonEmpty (s : jstring) : bool :=
  match s with [] => false | _ => true end.

Definition truthy (o : option jstring) : bool :=
  match o with Some s => nonEmpty s | None => false end.

(** [a || b] on optional strings. *)
Definition orElse (a b : option jstring) : option jstring :=
  if truthy a then a else b.

(** [s.split(sep)] for a one-unit separator. *)
Fixpoint splitOn (sep : N) (s : jstring) : list jstring :=
  match s with
  | [] => [[]]
  | c :: t =>
      if c =? sep then [] :: splitOn sep t
      else match splitOn sep t with
           | [] => [[c]]
           | l :: ls => (c :: l) :: ls
           end
  end.

(** [parts.join(sep)]. *)
Fixpoint join (sep : jstring) (parts : list jstring) : jstring :=
  match parts with
  | [] => []
  | [p] => p
  | p :: ps => p ++ sep ++ join sep ps
  end.

(** [s.replace(/P+/g, rep)] for a character class [P]: every maximal
    run of units in the class is replaced by [rep]. *)
Fixpoint replaceRunsFrom (p : N -> bool) (rep : jstring) (inRun : bool)
         (s : jstring) : jstring :=
  match s with
  | [] => []
  | c :: t =>
      if p c then
        (if inRun then [] else rep) ++ replaceRunsFrom p rep true t
      else c :: replaceRunsFrom p rep false t
  end.

Definition replaceRuns (p : N -> bool) (rep s : jstring) : jstring :=
  replaceRunsFrom p rep false s.

End Js.

Import Js.

(* ===================================================================== *)
(** * JavaScript numbers *)
(* ===================================================================== *)

Module Num.

(** A [number]: not-a-number, one of the two infinities, or a finite
    value.  Finite values are rationals: every finite double is one,
    and the operations this package applies to a number it is given
    ([Math.max], [<], [>=], [Number.isNaN]) are exact on them. *)
Inductive JsNumber :=
| NaN
| Infinity (negative : bool)
| Finite (q : QArith_base.Q).

(** An integer as a number. *)
Definition ofZ (z : Z) : JsNumber := Finite (QArith_base.inject_Z z).

(** [Number.isNaN(x)]. *)
Definition isNaN (x : JsNumber) : bool :=
  match x with NaN => true | _ => false end.

(** [x < y]: false when either is not a number. *)
Definition lt (x y : JsNumber) : bool :=
  match x, y with
  | NaN, _ | _, NaN => false
  | _, Infinity true => false
  | Infinity true, _ => true
  | Infinity false, _ => false
  | Finite _, Infinity false => true
  | Finite a, Finite b => negb (QArith_base.Qle_bool b a)
  end.

(** [x >= y]: false when either is not a number. *)
Definition ge (x y : JsNumber) : bool :=
  negb (isNaN x) && negb (isNaN y) && negb (lt x y).

(** [Math.max(x, y)]: not a number when either is not, and otherwise
    the larger of the two. *)
Definition max (x y : JsNumber) : JsNumber :=
  if isNaN x || isNaN y then NaN
  else if lt y x then x else y.

End Num.

Arguments Num.lt : simpl never.
Arguments Num.ge : simpl never.
Arguments Num.max : simpl never.
Arguments Num.ofZ : simpl never.

(* ===================================================================== *)
(** * Parsed URLs *)
(* ===================================================================== *)

(** The fields of a WHATWG [URL] object this package reads.  Parsing is
    done by the platform; [href] is what [toString()] returns. *)
Record URL := mkURL {
  href : jstring;
  hostname : jstring;
  pathname : jstring;
}.

(* ===================================================================== *)
(** * Slug derivation (core/session.ts) *)
(* ===================================================================== *)

Module Slug.

(** The class [[^/?#]]. *)
Definition idUnit (c : N) : bool :=
  negb ((c =? 47) || (c =? 63) || (c =? 35)).

(** [pathname.match(/^\/abs\/([^/?#]+)/)], group 1. *)
Definition absMatch (path : jstring) : option jstring :=
  match stripPrefix (js "/abs/") path with
  | Some rest =>
      let id := takeWhile idUnit rest in
      if nonEmpty id then Some id else None
  | None => None
  end.

(** [pathname.match(/^\/pdf\/([^/?#]+?)(?:\.pdf)?$/)], group 1: the
    lazy group stops at the first point from which an optional [.pdf]
    reaches the end of the input. *)
Definition pdfMatch (path : jstring) : option jstring :=
  match stripPrefix (js "/pdf/") path with
  | Some rest =>
      if nonEmpty rest && forallb idUnit rest then
        if endsWith rest (js ".pdf") && (4 <? length rest)%nat
        then Some (take (length rest - 4) rest)
        else Some rest
      else None
  | None => None
  end.

Definition parseArxivId (seedUrl : URL) : option jstring :=
  if negb (endsWith (hostname seedUrl) (js "arxiv.org")) then None
  else
    match absMatch (pathname seedUrl) with
    | Some id => Some id
    | None =>
        match pdfMatch (pathname seedUrl) with
        | Some id => Some id
        | None => None
        end
    end.

(** The class [[^a-z0-9]]. *)
Definition notSlugUnit (c : N) : bool := negb (isLowerAlpha c || isDigit c).
Definition isHyphen (c : N) : bool := c =? 45.

Definition sanitizeSlug (value : jstring) : jstring :=
  let lowered := toLowerCase value in
  let hyphenated := replaceRuns notSlugUnit (js "-") lowered in
  (* .replace(/^-+|-+$/g, "") *)
  let stripped := rev (dropWhile isHyphen (rev (dropWhile isHyphen hyphenated))) in
  replaceRuns isHyphen (js "-") stripped.

Definition createPaperSlug (seedUrl : URL) : jstring :=
  let generic :=
    let pathFragment :=
      join (js "-")
        (List.filter nonEmpty (splitOn 47 (pathname seedUrl))) in
    let rawSlug := hostname seedUrl ++ js "-" ++ pathFragment in
    let slug := sanitizeSlug rawSlug in
    if (0 <? length slug)%nat then slice0 slug 80 else js "paper" in
  match parseArxivId seedUrl with
  | Some arxivId =>
      if nonEmpty arxivId then
        let s := sanitizeSlug (js "arxiv-" ++ arxivId) in
        if nonEmpty s then s else js "arxiv-paper"
      else generic
  | None => generic
  end.

(** The path shapes [/abs/<id>] and [/pdf/<id>[.pdf]]: [ArxivPath p id]
    holds when [p] has one of them with identifier [id].  An identifier
    is a non-empty run of units other than [/], [?] and [#]; after
    [/abs/<id>] the path may go on with a further segment. *)
Inductive ArxivPath : jstring -> jstring -> Prop :=
| abs_path id rest :
    id <> [] -> forallb idUnit id = true ->
    (rest = [] \/ exists c t, rest = c :: t /\ idUnit c = false) ->
    ArxivPath (js "/abs/" ++ id ++ rest) id
| pdf_path_suffixed id :
    id <> [] -> forallb idUnit id = true ->
    ArxivPath (js "/pdf/" ++ id ++ js ".pdf") id
| pdf_path_plain id :
    id <> [] -> forallb idUnit id = true ->
    (forall id', id' <> [] -> id <> id' ++ js ".pdf") ->
    ArxivPath (js "/pdf/" ++ id) id.

(** A sanitized slug: lower-case letters, digits and single hyphens,
    with no hyphen at either end. *)
Definition slugUnit (c : N) : bool := isLowerAlpha c || isDigit c || isHyphen c.

Definition isSlugAlnum (c : N) : bool := isLowerAlpha c || isDigit c.

Definition wellFormedSlug (s : jstring) : Prop :=
  forallb slugUnit s = true /\
  includes s (js "--") = false /\
  startsWith s (js "-") = false /\
  endsWith s (js "-") = false.

End Slug.

(* ===================================================================== *)
(** * Report validator (core/session.ts, core/system-prompt.ts) *)
(* ===================================================================== *)

Module Report.

Definition REQUIRED_REPORT_HEADINGS : list jstring :=
  [ js "# Paper";
    js "## 1. Key Problems and Challenges";
    js "## 2. How This Paper Solves Them";
    js "## 3. Related Work and Key Differences";
    js "## 4. Future Directions";
    js "## References" ].

Definition REQUIRED_QUESTION_HEADINGS : list jstring :=
  [ js "## 1. Key Problems and Challenges";
    js "## 2. How This Paper Solves Them";
    js "## 3. Related Work and Key Differences";
    js "## 4. Future Directions" ].

Record ReportValidation := mkValidation {
  hasAllRequiredHeadings : bool;
  missingHeadings : list jstring;
  answeredRequiredQuestions : bool;
  hasRelatedWorkComparison : bool;
  hasReferenceUrls : bool;
  isComplete : bool;
}.

(** White space that does not end a line. *)
Definition isInlineSpace (c : N) : bool :=
  isWhiteSpace c && negb (isLineTerminator c).

(** The pattern [heading\s*$] (flag [m]) tried at one position: the
    literal text, then white space up to the end of the input or up to
    a line terminator. *)
Definition headingAt (heading s : jstring) : bool :=
  match stripPrefix heading s with
  | Some after =>
      match dropWhile isInlineSpace after with
      | [] => true
      | c :: _ => isLineTerminator c
      end
  | None => false
  end.

(** The search for [^heading\s*$] (flag [m]): [^] holds at the start of
    the input and after every line terminator. *)
Fixpoint headingFrom (heading : jstring) (atLineStart : bool) (s : jstring) : bool :=
  (atLineStart && headingAt heading s) ||
  match s with
  | [] => false
  | c :: t => headingFrom heading (isLineTerminator c) t
  end.

(** [new RegExp(`^${escapeRegExp(heading)}\\s*$`, "m").test(markdown)]:
    the escaped heading matches itself, literally. *)
Definition hasHeading (markdown heading : jstring) : bool :=
  headingFrom heading true markdown.

(** [replaceAll("\r\n", "\n")]. *)
Fixpoint normalizeNewlines (s : jstring) : jstring :=
  match s with
  | [] => []
  | c :: t =>
      match t with
      | d :: t' =>
          if (c =? 13) && (d =? 10) then 10 :: normalizeNewlines t'
          else c :: normalizeNewlines t
      | [] => [c]
      end
  end.

(** The leading run of [#] and what follows it. *)
Fixpoint hashRun (s : jstring) : nat * jstring :=
  match s with
  | c :: t =>
      if c =? 35 then let '(n, r) := hashRun t in (S n, r) else (O, s)
  | [] => (O, [])
  end.

(** [s.match(/^(#+)\s+/)], the length of group 1. *)
Definition headingMarker (s : jstring) : option nat :=
  match hashRun s with
  | (S n, c :: _) => if isWhiteSpace c then Some (S n) else None
  | _ => None
  end.

(** The lines after the first line that is the heading once trimmed
    ([findIndex]); [None] when there is none (index -1). *)
Fixpoint afterHeading (heading : jstring) (lines : list jstring)
  : option (list jstring) :=
  match lines with
  | [] => None
  | l :: rest =>
      if eqb (trim l) (trim heading) then Some rest
      else afterHeading heading rest
  end.

(** The lines up to the next heading of the same or a shallower level
    (the [for] loop that sets [endIndex]). *)
Fixpoint sectionLines (headingLevel : nat) (lines : list jstring)
  : list jstring :=
  match lines with
  | [] => []
  | l :: rest =>
      match headingMarker (trim l) with
      | Some nextHeadingLevel =>
          if (nextHeadingLevel <=? headingLevel)%nat then []
          else l :: sectionLines headingLevel rest
      | None => l :: sectionLines headingLevel rest
      end
  end.

Definition getSectionBody (markdown heading : jstring) : jstring :=
  let lines := splitOn 10 (normalizeNewlines markdown) in
  match afterHeading heading lines with
  | None => []
  | Some rest =>
      let headingLevel :=
        match headingMarker heading with Some n => n | None => 1%nat end in
      trim (join [10] (sectionLines headingLevel rest))
  end.

(** [/(compare|compared|difference|differ|similar|whereas|unlike|in contrast)/i]:
    without the [u] flag, ignoring case relates the ASCII letters only. *)
Definition comparisonKeywords : list jstring :=
  [ js "compare"; js "compared"; js "difference"; js "differ";
    js "similar"; js "whereas"; js "unlike"; js "in contrast" ].

Definition hasComparisonKeywordIn (text : jstring) : bool :=
  existsb (fun k => includes (toLowerCase text) k) comparisonKeywords.

(** [/\[\d+\]/] tried at one position, and searched. *)
Definition citationAt (s : jstring) : bool :=
  match s with
  | c :: t =>
      (c =? 91)
      && nonEmpty (takeWhile isDigit t)
      && match dropWhile isDigit t with
         | d :: _ => d =? 93
         | [] => false
         end
  | [] => false
  end.

Definition hasBracketCitation (s : jstring) : bool := anywhere citationAt s.

(** [/https?:\/\/\S+/] tried at one position, and searched. *)
Definition urlAt (s : jstring) : bool :=
  match stripPrefix (js "http") s with
  | Some r =>
      (* s? *)
      let r' := match r with
                | c :: r1 => if c =? 115 then r1 else r
                | [] => r
                end in
      match stripPrefix (js "://") r' with
      | Some (c :: _) => negb (isWhiteSpace c)
      | _ => false
      end
  | None => false
  end.

Definition hasUrl (s : jstring) : bool := anywhere urlAt s.

(** The same pattern with flag [i]. *)
Definition hasUrlIgnoringCase (s : jstring) : bool := hasUrl (toLowerCase s).

Definition validateReport (markdown : jstring) : ReportValidation :=
  let missing :=
    List.filter (fun heading => negb (hasHeading markdown heading))
                REQUIRED_REPORT_HEADINGS in
  let answered :=
    forallb (fun heading => (120 <=? length (getSectionBody markdown heading))%nat)
            REQUIRED_QUESTION_HEADINGS in
  let relatedWorkText :=
    getSectionBody markdown (js "## 3. Related Work and Key Differences") in
  let hasComparisonKeyword := hasComparisonKeywordIn relatedWorkText in
  let hasComparisonCitation :=
    hasBracketCitation relatedWorkText || hasUrlIgnoringCase relatedWorkText in
  let hasRelatedWork := hasComparisonKeyword && hasComparisonCitation in
  let referencesText := getSectionBody markdown (js "## References") in
  let hasRefs := hasUrl referencesText in
  let hasAll := (length missing =? 0)%nat in
  {| hasAllRequiredHeadings := hasAll;
     missingHeadings := missing;
     answeredRequiredQuestions := answered;
     hasRelatedWorkComparison := hasRelatedWork;
     hasReferenceUrls := hasRefs;
     isComplete := hasAll && answered && hasRelatedWork && hasRefs |}.

(** ** What the checks look for, said without the search

    [Occurs here s]: the text [s] has a place where [here] holds of what
    starts there. *)
Definition Occurs (here : jstring -> Prop) (s : jstring) : Prop :=
  exists before rest, s = before ++ rest /\ here rest.

(** A line that is the heading followed by nothing but white space: the
    heading starts the text or follows a line terminator, and after it
    and some white space the text ends or a line terminator comes. *)
Definition HeadingLine (markdown heading : jstring) : Prop :=
  exists before spaces rest,
    markdown = before ++ heading ++ spaces ++ rest
    /\ (before = [] \/ exists b c, before = b ++ [c] /\ isLineTerminator c = true)
    /\ forallb isInlineSpace spaces = true
    /\ (rest = [] \/ exists c t, rest = c :: t /\ isLineTerminator c = true).

(** A bracketed number: [[], one digit or more, []]. *)
Definition CitationHere (s : jstring) : Prop :=
  exists digits rest,
    digits <> [] /\ forallb isDigit digits = true /\ s = [91] ++ digits ++ [93] ++ rest.

(** A literal URL: [http://] or [https://] and a unit that is not white
    space. *)
Definition UrlHere (s : jstring) : Prop :=
  exists scheme c rest,
    (scheme = js "http://" \/ scheme = js "https://")
    /\ isWhiteSpace c = false /\ s = scheme ++ c :: rest.

(** One of the comparison keywords, in whatever case. *)
Definition KeywordHere (s : jstring) : Prop :=
  exists keyword rest, In keyword comparisonKeywords /\ toLowerCase s = keyword ++ rest.

(** Two units that are the same letter of the ASCII alphabet, in the
    same case or not, or the same unit: what flag [i] relates. *)
Definition sameLetter (x y : N) : Prop :=
  x = y \/ (isUpperAlpha x = true /\ y = x + 32) \/ (isUpperAlpha y = true /\ x = y + 32).

(** The words that count as a comparison. *)
Definition ComparisonKeyword (keyword : jstring) : Prop :=
  keyword = js "compare" \/ keyword = js "compared" \/ keyword = js "difference"
  \/ keyword = js "differ" \/ keyword = js "similar" \/ keyword = js "whereas"
  \/ keyword = js "unlike" \/ keyword = js "in contrast".

(** One of the comparison keywords, in whatever case, said unit by
    unit. *)
Definition KeywordAnyCase (s : jstring) : Prop :=
  exists keyword word rest,
    ComparisonKeyword keyword /\ s = word ++ rest /\ Forall2 sameLetter word keyword.

(** A literal URL whose scheme is in whatever case. *)
Definition UrlAnyCase (s : jstring) : Prop :=
  exists scheme word c rest,
    (scheme = js "http://" \/ scheme = js "https://")
    /\ Forall2 sameLetter word scheme
    /\ isWhiteSpace c = false /\ s = word ++ c :: rest.

(** ** Sections, said without the functions that find them *)

(** [t] is [s] without the white space at its two ends. *)
Definition Trimmed (s t : jstring) : Prop :=
  exists front back,
    s = front ++ t ++ back
    /\ forallb isWhiteSpace front = true
    /\ forallb isWhiteSpace back = true
    /\ (forall c r, t = c :: r -> isWhiteSpace c = false)
    /\ (forall r c, t = r ++ [c] -> isWhiteSpace c = false).

(** Two texts that are the same once trimmed. *)
Definition SameOnceTrimmed (a b : jstring) : Prop :=
  exists t, Trimmed a t /\ Trimmed b t.

(** The text with every carriage return that a line feed follows left
    out. *)
Inductive WithoutCr : jstring -> jstring -> Prop :=
| cr_none : WithoutCr [] []
| cr_left_out s t : WithoutCr s t -> WithoutCr (13 :: 10 :: s) (10 :: t)
| cr_kept c s t :
    (c <> 13 \/ forall r, s <> 10 :: r) -> WithoutCr s t -> WithoutCr (c :: s) (c :: t).

(** The lines of a text: the text is its lines with a line feed between
    each two, and no line holds a line feed. *)
Inductive LinesOf : jstring -> list jstring -> Prop :=
| last_line l : ~ In 10 l -> LinesOf l [l]
| next_line l s ls : ~ In 10 l -> LinesOf s ls -> LinesOf (l ++ 10 :: s) (l :: ls).

(** Lines put together, with a line feed between each two. *)
Inductive Joined : list jstring -> jstring -> Prop :=
| joined_none : Joined [] []
| joined_last l : Joined [l] l
| joined_next l l' ls s : Joined (l' :: ls) s -> Joined (l :: l' :: ls) (l ++ 10 :: s).

(** A heading of depth [n]: [n] number signs, one at least, and then
    white space. *)
Definition HeadingOfDepth (n : nat) (line : jstring) : Prop :=
  (1 <= n)%nat
  /\ exists w rest, line = repeat 35 n ++ w :: rest /\ isWhiteSpace w = true.

(** The depth of the section a heading opens: the depth of the heading
    as it is given, and one for a text that is no heading. *)
Definition SectionDepth (heading : jstring) (level : nat) : Prop :=
  HeadingOfDepth level heading
  \/ ((forall n, ~ HeadingOfDepth n heading) /\ level = 1%nat).

(** A line that closes a section of depth [level]: once trimmed, a
    heading of that depth or of a shallower one. *)
Definition ClosesSection (level : nat) (line : jstring) : Prop :=
  exists t n, Trimmed line t /\ HeadingOfDepth n t /\ (n <= level)%nat.

(** [body] is the body of the section of [markdown] under [heading]:
    empty when no line is the heading once trimmed; otherwise the lines
    that follow the first such line, up to the first line that closes
    the section or to the end of the text, joined and trimmed. *)
Definition SectionBody (markdown heading body : jstring) : Prop :=
  exists normalized lines,
    WithoutCr markdown normalized
    /\ LinesOf normalized lines
    /\ ((Forall (fun l => ~ SameOnceTrimmed l heading) lines /\ body = [])
        \/ exists before line inside after level joined,
             lines = before ++ line :: inside ++ after
             /\ Forall (fun l => ~ SameOnceTrimmed l heading) before
             /\ SameOnceTrimmed line heading
             /\ SectionDepth heading level
             /\ Forall (fun l => ~ ClosesSection level l) inside
             /\ (after = [] \/ exists l r, after = l :: r /\ ClosesSection level l)
             /\ Joined inside joined
             /\ Trimmed joined body).

(** A text given by its lines, joined by line feeds. *)
Definition text (lines : list string) : jstring := join [10] (map js lines).

Local Open Scope string_scope.

(** A report with the six headings, long enough answers, a comparison
    with a citation, and a reference URL. *)
Definition filler : string :=
  "The paper studies sequence transduction and replaces recurrence by attention; this paragraph is long enough to count as an answer.".

Definition completeReport : jstring :=
  text [ "# Paper";
         "## 1. Key Problems and Challenges"; filler;
         "## 2. How This Paper Solves Them"; filler;
         "## 3. Related Work and Key Differences";
         "In contrast to [3], our method needs no recurrence."; filler;
         "## 4. Future Directions"; filler;
         "## References";
         "[3] https://arxiv.org/abs/1409.0473" ].

(** The same report without its last section. *)
Definition reportWithoutReferences : jstring :=
  text [ "# Paper";
         "## 1. Key Problems and Challenges"; filler;
         "## 2. How This Paper Solves Them"; filler;
         "## 3. Related Work and Key Differences";
         "In contrast to [3], our method needs no recurrence."; filler;
         "## 4. Future Directions"; filler ].

(** The same report with a section of references that holds no URL. *)
Definition reportWithoutUrls : jstring :=
  text [ "# Paper";
         "## 1. Key Problems and Challenges"; filler;
         "## 2. How This Paper Solves Them"; filler;
         "## 3. Related Work and Key Differences";
         "In contrast to [3], our method needs no recurrence."; filler;
         "## 4. Future Directions"; filler;
         "## References";
         "see our website" ].

Local Close Scope string_scope.

End Report.

(* ===================================================================== *)
(** * The network *)
(* ===================================================================== *)

(** What a [fetch] is asked for.  The arXiv record API is queried through
    a [URL] object whose [id_list] parameter is set; every other request
    is a plain URL string. *)
Inductive Request :=
| ReqGet (url : jstring)
| ReqArxivApi (id_list : jstring).

(** The fields of a [Response] this package reads.  [body = None] stands
    for a body whose [text()] rejects. *)
Record Response := mkResponse {
  ok : bool;
  status : N;
  statusText : jstring;
  url : URL;
  contentType : option jstring;
  body : option jstring;
}.

(** A [fetch] either rejects (network failure, cancellation) or resolves
    to a response. *)
Inductive FetchResult :=
| FetchRejected (message : jstring)
| Responded (r : Response).

(** The remote world, as the script of what the coming fetches resolve
    to, with the log of the requests made so far.  A fetch past the end of
    the script rejects. *)
Record Net := mkNet {
  script : list FetchResult;
  requests : list Request;
}.

Definition fetch (net : Net) (req : Request) : FetchResult * Net :=
  match script net with
  | [] => (FetchRejected [], mkNet [] (requests net ++ [req]))
  | r :: rest => (r, mkNet rest (requests net ++ [req]))
  end.

(* ===================================================================== *)
(** * Source extraction pipeline (tools/extract-source.ts) *)
(* ===================================================================== *)

Module SourceExtract.

Definition MAX_ABSTRACT_CHARS : nat := 1500.
Definition MAX_FULL_TEXT_CHARS : nat := 30000.

Inductive SourceType := arxiv | pdf | html | other.

Record ExtractSourceToolDetails := mkDetails {
  title : jstring;
  authors : option (list jstring);
  year : option Z;
  abstract : option jstring;
  fullText : option jstring;
  sourceType : SourceType;
  canonicalUrl : jstring;
  missingFields : list jstring;
}.

Inductive Error :=
| UrlEmpty                                   (* "URL must not be empty." *)
| UrlInvalid (input : jstring)               (* "Invalid URL: ..." *)
| FetchFailed (message : jstring)            (* the rejection of [fetch] *)
| BodyFailed                                 (* the rejection of [text()] *)
| UriMalformed                               (* [decodeURIComponent] throws *)
| ExtractionFailed (st : N) (text : jstring) (* "Source extraction failed: ..." *)
| ArxivFailed (st : N) (text : jstring)      (* "arXiv extraction failed: ..." *)
| ArxivNoEntry.                              (* "No arXiv entry found for that URL." *)

(** The regular-expression scrapers of the module and the platform's URL
    functions.  They are kept abstract: what is proved below holds
    whatever they return.  [guessTitleFromUrl] is [None] when
    [decodeURIComponent] throws; [parseUrl] is [None] when [new URL]
    throws; [arxivEntry] is group 1 of [/<entry>([\s\S]*?)<\/entry>/]. *)
Record Scrapers := mkScrapers {
  parseUrl : jstring -> option URL;
  guessTitleFromUrl : URL -> option jstring;
  extractHtmlTitle : jstring -> option jstring;
  extractMetaContent : jstring -> jstring -> option jstring;
  extractMetaValues : jstring -> jstring -> list jstring;
  stripHtmlToText : jstring -> jstring;
  parseYear : option jstring -> option Z;
  arxivEntry : jstring -> option jstring;
  extractXmlTag : jstring -> jstring -> option jstring;
  arxivAuthors : jstring -> list jstring;
}.

Definition normalizeWhitespace (input : jstring) : jstring :=
  trim (replaceRuns isWhiteSpace (js " ") input).

(** The suffix appended to clipped text, as the source file has it:
    three code units (U+00E2, U+20AC, U+00A6). *)
Definition clipSuffix : jstring := [226; 8364; 166].

Definition clipText (input : jstring) (maxChars : nat) : jstring :=
  if (length input <=? maxChars)%nat then input
  else slice0 input (Z.of_nat maxChars - 1) ++ clipSuffix.

Definition classifySourceType (u : URL) (contentType : option jstring) : SourceType :=
  let normalizedContentType := toLowerCase (default [] contentType) in
  let path := toLowerCase (pathname u) in
  if endsWith (hostname u) (js "arxiv.org") then arxiv
  else if endsWith path (js ".pdf")
          || includes normalizedContentType (js "application/pdf") then pdf
  else if endsWith path (js ".html")
          || endsWith path (js ".htm")
          || includes normalizedContentType (js "text/html")
          || includes normalizedContentType (js "application/xhtml+xml") then html
  else other.

(** Truthiness of an optional number, and [a || b] on optional numbers. *)
Definition truthyNum (o : option Z) : bool :=
  match o with Some n => negb (n =? 0)%Z | None => false end.

Definition orElseNum (a b : option Z) : option Z :=
  if truthyNum a then a else b.

Definition fetchReadableMirror (net : Net) (target : jstring)
  : option jstring * Net :=
  let '(res, net') := fetch net (ReqGet (js "https://r.jina.ai/" ++ target)) in
  match res with
  | FetchRejected _ => (None, net')
  | Responded response =>
      if negb (ok response) then (None, net')
      else
        match body response with
        | None => (None, net')
        | Some raw =>
            let text := normalizeWhitespace raw in
            if (length text =? 0)%nat then (None, net')
            else (Some (clipText text MAX_FULL_TEXT_CHARS), net')
        end
  end.

Definition getMissingFields (details : ExtractSourceToolDetails) : list jstring :=
  let missing := [] in
  let missing :=
    match authors details with
    | Some (_ :: _) => missing
    | _ => missing ++ [js "authors"]
    end in
  let missing :=
    if truthyNum (year details) then missing else missing ++ [js "year"] in
  let missing :=
    if truthy (abstract details) then missing else missing ++ [js "abstract"] in
  let missing :=
    if truthy (fullText details) then missing else missing ++ [js "fullText"] in
  missing.

Definition withMissingFields (d : ExtractSourceToolDetails) : ExtractSourceToolDetails :=
  mkDetails (title d) (authors d) (year d) (abstract d) (fullText d)
            (sourceType d) (canonicalUrl d) (getMissingFields d).

Section WithScrapers.

Variable sc : Scrapers.

Definition extractArxivSource (net : Net) (arxivId : jstring)
  : (Error + ExtractSourceToolDetails) * Net :=
  let '(res, net1) := fetch net (ReqArxivApi arxivId) in
  match res with
  | FetchRejected m => (inl (FetchFailed m), net1)
  | Responded response =>
      if negb (ok response) then
        (inl (ArxivFailed (status response) (statusText response)), net1)
      else
        match body response with
        | None => (inl BodyFailed, net1)
        | Some xml =>
            match arxivEntry sc xml with
            | None => (inl ArxivNoEntry, net1)
            | Some entry =>
                let canonical := js "https://arxiv.org/abs/" ++ arxivId in
                let title :=
                  default [] (orElse (extractXmlTag sc entry (js "title"))
                                     (Some (js "arXiv:" ++ arxivId))) in
                let summary :=
                  default [] (orElse (extractXmlTag sc entry (js "summary")) (Some [])) in
                let abstract := orElse (Some (clipText summary MAX_ABSTRACT_CHARS)) None in
                let published := extractXmlTag sc entry (js "published") in
                let year := parseYear sc published in
                let authors := arxivAuthors sc entry in
                let '(fullText, net2) := fetchReadableMirror net1 canonical in
                (inr (withMissingFields
                        (mkDetails title
                           (if (0 <? length authors)%nat then Some authors else None)
                           year abstract fullText arxiv canonical [])),
                 net2)
            end
        end
  end.

Definition extractGenericSource (net : Net) (inputUrl : URL)
  : (Error + ExtractSourceToolDetails) * Net :=
  let '(res, net1) := fetch net (ReqGet (href inputUrl)) in
  match res with
  | FetchRejected m => (inl (FetchFailed m), net1)
  | Responded response =>
      if negb (ok response) then
        (inl (ExtractionFailed (status response) (statusText response)), net1)
      else
        let canonical := url response in
        let canonicalUrl := href canonical in
        let sourceType := classifySourceType canonical (contentType response) in
        match guessTitleFromUrl sc canonical with
        | None => (inl UriMalformed, net1)
        | Some guessed =>
            (* the branch on the source type: title, authors, year,
               abstract and full text after it, or the error thrown in it *)
            let branch :=
              match sourceType with
              | html | other =>
                  match body response with
                  | None => inl BodyFailed
                  | Some page =>
                      let title :=
                        default guessed
                          (orElse (orElse (extractHtmlTitle sc page)
                                          (extractMetaContent sc page (js "og:title")))
                                  (Some guessed)) in
                      let citationAuthors := extractMetaValues sc page (js "citation_author") in
                      let authors :=
                        if (0 <? length citationAuthors)%nat
                        then Some citationAuthors else None in
                      let year :=
                        orElseNum
                          (orElseNum
                             (parseYear sc (extractMetaContent sc page (js "citation_publication_date")))
                             (parseYear sc (extractMetaContent sc page (js "article:published_time"))))
                          (parseYear sc (extractMetaContent sc page (js "dc.date"))) in
                      let found :=
                        orElse (orElse (extractMetaContent sc page (js "citation_abstract"))
                                       (extractMetaContent sc page (js "description")))
                               (extractMetaContent sc page (js "og:description")) in
                      let abstract :=
                        if truthy found
                        then Some (clipText (default [] found) MAX_ABSTRACT_CHARS)
                        else found in
                      let stripped := stripHtmlToText sc page in
                      let fullText :=
                        if (0 <? length stripped)%nat
                        then Some (clipText stripped MAX_FULL_TEXT_CHARS) else None in
                      inr (title, authors, year, abstract, fullText, net1)
                  end
              | pdf =>
                  let '(fullText, net2) := fetchReadableMirror net1 canonicalUrl in
                  inr (guessed, None, None, None, fullText, net2)
              | arxiv => inr (guessed, None, None, None, None, net1)
              end in
            match branch with
            | inl e => (inl e, net1)
            | inr (title, authors, year, abstract, fullText, net2) =>
                let abstract :=
                  if negb (truthy abstract) && truthy fullText
                  then Some (clipText (default [] fullText) MAX_ABSTRACT_CHARS)
                  else abstract in
                let '(fullText, net3) :=
                  if negb (truthy fullText)
                  then fetchReadableMirror net2 canonicalUrl
                  else (fullText, net2) in
                (inr (withMissingFields
                        (mkDetails title authors year abstract fullText
                                   sourceType canonicalUrl [])),
                 net3)
            end
        end
  end.

(** [createExtractSourceTool().execute]; the text rendering of the
    details ([content]) is left out. *)
Definition execute (net : Net) (paramsUrl : jstring)
  : (Error + ExtractSourceToolDetails) * Net :=
  let normalizedInput := trim paramsUrl in
  if (length normalizedInput =? 0)%nat then (inl UrlEmpty, net)
  else
    match parseUrl sc normalizedInput with
    | None => (inl (UrlInvalid normalizedInput), net)
    | Some u =>
        let arxivId := Slug.parseArxivId u in
        if truthy arxivId
        then extractArxivSource net (default [] arxivId)
        else extractGenericSource net u
    end.

End WithScrapers.

(** ** Observations on the remote world *)

(** A fetch of the readability mirror fails: it rejects, or answers with
    a status that is not ok, or its body cannot be read, or the body is
    empty once its white space is normalized. *)
Definition mirrorFailure (res : FetchResult) : bool :=
  match res with
  | FetchRejected _ => true
  | Responded response =>
      negb (ok response)
      || match body response with
         | None => true
         | Some raw => (length (normalizeWhitespace raw) =? 0)%nat
         end
  end.

(** An extraction on the generic path has to turn to the mirror for its
    full text: the source is not a page, or it is a page whose text,
    once stripped, is empty. *)
Definition turnsToMirror (sc : Scrapers) (response : Response) : Prop :=
  match classifySourceType (url response) (contentType response) with
  | html | other =>
      exists page, body response = Some page /\ stripHtmlToText sc page = []
  | pdf | arxiv => True
  end.

(** How many times an extraction on the generic path may ask the mirror:
    a PDF is sent there first, and once more when that gave nothing;
    every other source only in the end. *)
Definition mirrorAttempts (sourceType : SourceType) : nat :=
  match sourceType with pdf => 2 | _ => 1 end.

(** The mirror asked up to [attempts] times, until it gives a text. *)
Fixpoint askMirror (attempts : nat) (net : Net) (target : jstring)
  : option jstring * Net :=
  match attempts with
  | O => (None, net)
  | S more =>
      let '(text, net') := fetchReadableMirror net target in
      if truthy text then (text, net') else askMirror more net' target
  end.

(** A host of the arXiv repository: [arxiv.org], or a name under it. *)
Definition isArxivHost (host : jstring) : bool :=
  eqb host (js "arxiv.org") || endsWith host (js ".arxiv.org").

(** The same world with the [content-type] header taken off every
    response. *)
Definition withoutContentType (net : Net) : Net :=
  mkNet (map (fun res =>
                match res with
                | FetchRejected m => FetchRejected m
                | Responded r =>
                    Responded (mkResponse (ok r) (status r) (statusText r) (url r)
                                          None (body r))
                end) (script net))
        (requests net).

(** ** Examples *)

(** What the scrapers return on an empty document fetched from a URL
    whose path is [/]: nothing is found and the title is the host name.
    [parseUrl] knows one address. *)
Definition emptyPageUrl : URL :=
  mkURL (js "https://example.com/") (js "example.com") (js "/").

Definition scrapersOnEmptyPage : Scrapers :=
  mkScrapers (fun input => if eqb input (href emptyPageUrl) then Some emptyPageUrl else None)
             (fun u => Some (hostname u))
             (fun _ => None)
             (fun _ _ => None)
             (fun _ _ => [])
             (fun _ => [])
             (fun _ => None)
             (fun _ => None)
             (fun _ _ => None)
             (fun _ => []).

(** An empty HTML page, and the mirror's answer for it. *)
Definition emptyPage : Response :=
  mkResponse true 200 (js "OK") emptyPageUrl (Some (js "text/html; charset=utf-8")) (Some []).

Definition mirrorText : Response :=
  mkResponse true 200 (js "OK")
             (mkURL (js "https://r.jina.ai/https://example.com/") (js "r.jina.ai")
                    (js "/https://example.com/"))
             (Some (js "text/plain"))
             (Some (js "Title: Example  Rendered text of the page.")).

Definition mirrorDown : Response :=
  mkResponse false 503 (js "Service Unavailable")
             (mkURL (js "https://r.jina.ai/https://example.com/") (js "r.jina.ai")
                    (js "/https://example.com/"))
             None (Some (js "upstream error")).

(** [guessTitleFromUrl] on a path without percent escapes, which
    [decodeURIComponent] leaves as it is: the last segment of the path
    that is not empty, its runs of hyphens and underscores turned into
    spaces, and the host name when there is no such segment. *)
Definition guessPlainTitle (u : URL) : jstring :=
  match rev (List.filter nonEmpty (splitOn 47 (pathname u))) with
  | pathPart :: _ => replaceRuns (fun c => (c =? 45) || (c =? 95)) (js " ") pathPart
  | [] => hostname u
  end.

(** Scrapers that find nothing in a document; [parseUrl] knows the
    addresses of [known]. *)
Definition scrapersKnowing (known : list URL) : Scrapers :=
  mkScrapers (fun input => List.find (fun u => eqb input (href u)) known)
             (fun u => Some (guessPlainTitle u))
             (fun _ => None)
             (fun _ _ => None)
             (fun _ _ => [])
             (fun _ => [])
             (fun _ => None)
             (fun _ => None)
             (fun _ _ => None)
             (fun _ => []).

(** A PDF on a host whose name only ends like the repository's. *)
Definition lookalikePdfUrl : URL :=
  mkURL (js "https://notarxiv.org/paper.pdf") (js "notarxiv.org") (js "/paper.pdf").

(** A record of the repository, and one of its listings: the same host,
    and a path that names no record. *)
Definition recordUrl : URL :=
  mkURL (js "https://arxiv.org/abs/1706.03762") (js "arxiv.org") (js "/abs/1706.03762").

Definition listingUrl : URL :=
  mkURL (js "https://arxiv.org/list/cs.AI/recent") (js "arxiv.org")
        (js "/list/cs.AI/recent").

Definition listingPage : Response :=
  mkResponse true 200 (js "OK") listingUrl (Some (js "text/html; charset=utf-8"))
             (Some (js "<html><title>Artificial Intelligence</title></html>")).

(** A PDF on an ordinary host, and two answers of the mirror for it. *)
Definition paperUrl : URL :=
  mkURL (js "https://example.com/paper.pdf") (js "example.com") (js "/paper.pdf").

Definition paperPdf : Response :=
  mkResponse true 200 (js "OK") paperUrl (Some (js "application/pdf")) (Some (js "%PDF-1.7")).

Definition paperMirrorUrl : URL :=
  mkURL (js "https://r.jina.ai/https://example.com/paper.pdf") (js "r.jina.ai")
        (js "/https://example.com/paper.pdf").

Definition paperMirrorDown : Response :=
  mkResponse false 503 (js "Service Unavailable") paperMirrorUrl None
             (Some (js "upstream error")).

Definition paperMirrorText : Response :=
  mkResponse true 200 (js "OK") paperMirrorUrl (Some (js "text/plain"))
             (Some (js "Attention  Is All You Need")).

End SourceExtract.

(* ===================================================================== *)
(** * Web search aggregator (tools/web-search.ts) *)
(* ===================================================================== *)

Module WebSearch.

Record WebSearchResult := mkResult {
  r_title : jstring;
  r_url : jstring;
  r_snippet : jstring;
  r_source : jstring;
}.

Record WebSearchToolDetails := mkSearchDetails {
  query : jstring;
  results : list WebSearchResult;
  providerErrors : option (list jstring);
}.

Record WebSearchToolInput := mkInput {
  in_query : jstring;
  in_limit : option Z;
}.

(** How a provider call ends: it throws (the message of the error, or
    its string form) or returns its results. *)
Inductive ProviderOutcome :=
| ProviderThrew (message : jstring)
| ProviderReturned (found : list WebSearchResult).

Inductive Error :=
| QueryEmpty                        (* "Query must not be empty." *)
| NoResults (message : jstring).    (* "No search results available ..." *)

(** [dedupeResults]: [seen] is the set of URLs met so far. *)
Fixpoint dedupeFrom (seen : list jstring) (l : list WebSearchResult)
  : list WebSearchResult :=
  match l with
  | [] => []
  | result :: rest =>
      if bool_decide (r_url result ∈ seen) then dedupeFrom seen rest
      else result :: dedupeFrom (r_url result :: seen) rest
  end.

Definition dedupeResults (l : list WebSearchResult) : list WebSearchResult :=
  dedupeFrom [] l.

Section WithProviders.

(** The two providers, by query and limit. *)
Variable searchSemanticScholar : jstring -> Z -> ProviderOutcome.
Variable searchArxiv : jstring -> Z -> ProviderOutcome.

(** The first [try]: the results and the provider errors after it. *)
Definition afterPrimary (q : jstring) (limit : Z)
  : list WebSearchResult * list jstring :=
  match searchSemanticScholar q limit with
  | ProviderReturned found => (found, [])
  | ProviderThrew message => ([], [js "semantic-scholar: " ++ message])
  end.

(** The second [try], entered when the primary gave fewer than
    [limit] results. *)
Definition afterSecondary (q : jstring) (limit : Z)
  : list WebSearchResult * list jstring :=
  let '(found, errors) := afterPrimary q limit in
  if (Z.of_nat (length found) <? limit)%Z then
    match searchArxiv q limit with
    | ProviderReturned arxivResults =>
        (slice0 (dedupeResults (found ++ arxivResults)) limit, errors)
    | ProviderThrew message => (found, errors ++ [js "arxiv: " ++ message])
    end
  else (found, errors).

(** [createWebSearchTool().execute]; the text rendering of the results
    ([content]) is left out. *)
Definition execute (params : WebSearchToolInput) : Error + WebSearchToolDetails :=
  let q := trim (in_query params) in
  if (length q =? 0)%nat then inl QueryEmpty
  else
    let limit := default 5%Z (in_limit params) in
    let '(found, errors) := afterSecondary q limit in
    if (length found =? 0)%nat then
      let errorDetail :=
        if (0 <? length errors)%nat
        then js " (" ++ join (js "; ") errors ++ js ")" else [] in
      inl (NoResults (js "No search results available" ++ errorDetail ++ js "."))
    else
      inr (mkSearchDetails q found
             (if (0 <? length errors)%nat then Some errors else None)).

End WithProviders.

(** ** Examples *)

Definition paperA : WebSearchResult :=
  mkResult (js "Attention Is All You Need") (js "http://arxiv.org/abs/1706.03762v7")
           (js "The dominant sequence transduction models ...") (js "arxiv").

Definition paperB : WebSearchResult :=
  mkResult (js "Neural Machine Translation by Jointly Learning to Align and Translate")
           (js "http://arxiv.org/abs/1409.0473v7")
           (js "Neural machine translation is a recently proposed approach ...") (js "arxiv").

(** Another entry of the feed under the URL of [paperA]. *)
Definition paperA' : WebSearchResult :=
  mkResult (js "Attention Is All You Need (v7)") (js "http://arxiv.org/abs/1706.03762v7")
           (js "No abstract available.") (js "arxiv").


Definition returning (found : list WebSearchResult) : jstring -> Z -> ProviderOutcome :=
  fun _ _ => ProviderReturned found.

End WebSearch.

(* ===================================================================== *)
(** * Research session controller (core/session.ts) *)
(* ===================================================================== *)

Module Session.

(** Values of type [unknown], as tool results arrive. *)
Inductive JsValue :=
| VUndefined
| VNull
| VBool (b : bool)
| VNumber (n : Z)
| VString (s : jstring)
| VArray (items : list JsValue)
| VObject (fields : list (jstring * JsValue)).

Definition isRecord (v : JsValue) : bool :=
  match v with
  | VArray _ | VObject _ => true
  | _ => false
  end.

Definition isString (v : JsValue) : bool :=
  match v with VString _ => true | _ => false end.

Fixpoint lookupField (key : jstring) (fields : list (jstring * JsValue)) : JsValue :=
  match fields with
  | [] => VUndefined
  | (k, v) :: rest => if eqb k key then v else lookupField key rest
  end.

(** [value.key] on a value known to be a record. *)
Definition prop (v : JsValue) (key : string) : JsValue :=
  match v with
  | VObject fields => lookupField (js key) fields
  | _ => VUndefined
  end.

Definition stringOf (v : JsValue) : option jstring :=
  match v with VString s => Some s | _ => None end.

Definition isWebSearchEntry (entry : JsValue) : bool :=
  isRecord entry
  && isString (prop entry "title")
  && isString (prop entry "url")
  && isString (prop entry "snippet")
  && isString (prop entry "source").

Definition isWebSearchToolDetails (value : JsValue) : bool :=
  if negb (isRecord value) || negb (isString (prop value "query"))
     || negb (match prop value "results" with VArray _ => true | _ => false end)
  then false
  else
    match prop value "results" with
    | VArray items => forallb isWebSearchEntry items
    | _ => false
    end.

Definition isExtractSourceToolDetails (value : JsValue) : bool :=
  if negb (isRecord value) then false
  else if negb (isString (prop value "title"))
          || negb (isString (prop value "canonicalUrl"))
          || negb (isString (prop value "sourceType")) then false
  else
    let sourceType := default [] (stringOf (prop value "sourceType")) in
    if negb (eqb sourceType (js "arxiv")) && negb (eqb sourceType (js "pdf"))
       && negb (eqb sourceType (js "html")) && negb (eqb sourceType (js "other"))
    then false
    else true.

Record SourceReference := mkSource {
  sr_url : jstring;
  sr_title : option jstring;
  sr_source : option jstring;
  sr_snippet : option jstring;
  addedAt : jstring;
}.

(** [Omit<SourceReference, "addedAt">]. *)
Record SourceInput := mkSourceInput {
  si_url : jstring;
  si_title : option jstring;
  si_source : option jstring;
  si_snippet : option jstring;
}.

Record RunState := mkRunState {
  turnCount : Z;
  maxTurnsExceeded : bool;
  sources : gmap jstring SourceReference;
}.

Inductive AgentEvent :=
| turn_end
| tool_execution_end (toolName : jstring) (result : JsValue)
| other_event (type : jstring).

Inductive SessionEvent :=
| agent_event (e : AgentEvent)
| report_finalized (reportPath reportHtmlPath sourcesPath : jstring)
                   (validation : Report.ReportValidation).

(** The calls the controller makes on the reasoning engine, in order. *)
Inductive AgentCall :=
| CallAbort
| CallSetSystemPrompt
| CallAppendMessage (status note : jstring)
| CallPrompt (seedUrl reportPath sourcesPath : jstring).

(** The controller.  [heap] holds the [RunState] objects created so far
    and [currentRun] refers to one of them, as the local variable
    [runState] of a [run()] call does: both name the same object.
    [emitted] is what the listeners have been sent, [agentCalls] what
    the engine has been asked, [writes] the files written, and
    [clockReads] counts the readings of the clock. *)
Record Session := mkSession {
  workingDirectory : jstring;
  reportsRoot : jstring;
  maxTurns : Num.JsNumber;
  heap : list RunState;
  currentRun : option nat;
  emitted : list SessionEvent;
  agentCalls : list AgentCall;
  writes : list (jstring * jstring);
  clockReads : nat;
}.

(** [maxTurns] is a [number], whatever the caller passes; the command
    line passes it the result of [parseInt]. *)
Record DeepResearchSessionOptions := mkOptions {
  opt_workingDirectory : option jstring;
  opt_reportsRoot : option jstring;
  opt_maxTurns : option Num.JsNumber;
}.

(** The platform: paths, URL parsing, the clock ([clock n] is the
    [n]-th reading of [new Date().toISOString()]), the renderer, the
    collation order of [localeCompare] and [JSON.stringify].
    [resolvePathWithinRoot] is [None] when it throws. *)
Record Platform := mkPlatform {
  cwd : jstring;
  resolve : jstring -> jstring;
  pathJoin : jstring -> jstring -> jstring;
  resolvePathWithinRoot : jstring -> jstring -> option jstring;
  toPromptPath : jstring -> jstring -> jstring;
  parseUrl : jstring -> option URL;
  clock : nat -> jstring;
  renderReportHtml : jstring -> jstring -> jstring;
  sortByUrl : list SourceReference -> list SourceReference;
  serializeSources : jstring -> list SourceReference -> jstring;
}.

(** Setters, written out. *)
Definition withRun (s : Session) (h : list RunState) (c : option nat) : Session :=
  mkSession (workingDirectory s) (reportsRoot s) (maxTurns s) h c
            (emitted s) (agentCalls s) (writes s) (clockReads s).

Definition withHeap (s : Session) (h : list RunState) : Session :=
  withRun s h (currentRun s).

Definition callAgent (s : Session) (c : AgentCall) : Session :=
  mkSession (workingDirectory s) (reportsRoot s) (maxTurns s) (heap s) (currentRun s)
            (emitted s) (agentCalls s ++ [c]) (writes s) (clockReads s).

Definition emit (s : Session) (e : SessionEvent) : Session :=
  mkSession (workingDirectory s) (reportsRoot s) (maxTurns s) (heap s) (currentRun s)
            (emitted s ++ [e]) (agentCalls s) (writes s) (clockReads s).

Definition writeFile (s : Session) (path content : jstring) : Session :=
  mkSession (workingDirectory s) (reportsRoot s) (maxTurns s) (heap s) (currentRun s)
            (emitted s) (agentCalls s) (writes s ++ [(path, content)]) (clockReads s).

Definition tick (s : Session) : Session :=
  mkSession (workingDirectory s) (reportsRoot s) (maxTurns s) (heap s) (currentRun s)
            (emitted s) (agentCalls s) (writes s) (S (clockReads s)).

Section WithPlatform.

Variable pf : Platform.

(** The constructor. *)
Definition create (options : DeepResearchSessionOptions) : Session :=
  mkSession (resolve pf (default (cwd pf) (opt_workingDirectory options)))
            (default (js "reports") (opt_reportsRoot options))
            (Num.max (Num.ofZ 1) (default (Num.ofZ 24) (opt_maxTurns options)))
            [] None [] [] [] O.

Definition abort (s : Session) : Session := callAgent s CallAbort.

(** What [addSource] does to the table of the current run, at the
    clock reading [now]. *)
Definition mergeSource (now : jstring) (source : SourceInput)
           (table : gmap jstring SourceReference) : gmap jstring SourceReference :=
  match table !! si_url source with
  | None =>
      <[si_url source :=
          mkSource (si_url source) (si_title source) (si_source source)
                   (si_snippet source) now]> table
  | Some existing =>
      <[si_url source :=
          mkSource (sr_url existing)
                   (orElse (sr_title existing) (si_title source))
                   (orElse (sr_source existing) (si_source source))
                   (orElse (sr_snippet existing) (si_snippet source))
                   (addedAt existing)]> table
  end.

Definition addSource (s : Session) (source : SourceInput) : Session :=
  match currentRun s with
  | None => s
  | Some r =>
      match heap s !! r with
      | None => s
      | Some run =>
          let now := clock pf (clockReads s) in
          let run' := mkRunState (turnCount run) (maxTurnsExceeded run)
                                 (mergeSource now source (sources run)) in
          tick (withHeap s (<[r := run']> (heap s)))
      end
  end.

Definition searchEntrySource (entry : JsValue) : SourceInput :=
  mkSourceInput (default [] (stringOf (prop entry "url")))
                (stringOf (prop entry "title"))
                (stringOf (prop entry "source"))
                (stringOf (prop entry "snippet")).

(** The declared type of [details.abstract] is [string | undefined]:
    a value of another type is read as absent. *)
Definition ingestToolSources (s : Session) (toolName : jstring) (result : JsValue)
  : Session :=
  if negb (isRecord result) then s
  else
    let details := prop result "details" in
    if eqb toolName (js "web_search") && isWebSearchToolDetails details then
      match prop details "results" with
      | VArray items => foldl (fun s' entry => addSource s' (searchEntrySource entry)) s items
      | _ => s
      end
    else if eqb toolName (js "extract_source") && isExtractSourceToolDetails details then
      addSource s
        (mkSourceInput (default [] (stringOf (prop details "canonicalUrl")))
                       (stringOf (prop details "title"))
                       (stringOf (prop details "sourceType"))
                       (stringOf (prop details "abstract")))
    else s.

Definition handleAgentEvent (s : Session) (event : AgentEvent) : Session :=
  let s1 :=
    match currentRun s with
    | None => s
    | Some r =>
        match heap s !! r with
        | None => s
        | Some run =>
            match event with
            | turn_end =>
                let count := (turnCount run + 1)%Z in
                if Num.ge (Num.ofZ count) (maxTurns s) && negb (maxTurnsExceeded run) then
                  callAgent
                    (withHeap s (<[r := mkRunState count true (sources run)]> (heap s)))
                    CallAbort
                else
                  withHeap s (<[r := mkRunState count (maxTurnsExceeded run) (sources run)]> (heap s))
            | tool_execution_end toolName result =>
                ingestToolSources s toolName result
            | other_event _ => s
            end
        end
    end in
  emit s1 (agent_event event).

(** ** [run()] and its suspension points

    [run] is an [async] function: a call executes up to the first
    [await] and returns; the rest executes when the awaited promise
    settles.  A [Frame] is a call suspended at one of its [await]s,
    with the local variables it still needs, or a call that has
    settled. *)

Inductive RunError :=
| AlreadyRunning                   (* "A deep research run is already in progress." *)
| SeedEmpty                        (* "Seed paper URL must not be empty." *)
| SeedInvalid (input : jstring)    (* "Invalid seed paper URL: ..." *)
| PathOutsideRoot                  (* thrown by [resolvePathWithinRoot] *)
| Failure (reason : jstring)       (* a rejected [mkdir], [prompt] or [writeFile] *)
| MaxTurnsReached (limit : Num.JsNumber) (* "Reached max turn limit (...) ..." *)
| ArtifactMissing (path : jstring) (* "Expected report artifact not found at ..." *).

Record DeepResearchRunResult := mkRunResult {
  res_seedUrl : jstring;
  res_reportDirectory : jstring;
  res_reportPath : jstring;
  res_reportHtmlPath : jstring;
  res_sourcesPath : jstring;
  res_turnCount : Z;
  res_validation : Report.ReportValidation;
}.

Record Locals := mkLocals {
  seedUrl : URL;
  paperSlug : jstring;
  reportDirectory : jstring;
  reportPath : jstring;
  reportHtmlPath : jstring;
  sourcesPath : jstring;
}.

Inductive Frame :=
| AwaitMkdir (l : Locals)
| AwaitPrompt (l : Locals) (runState : nat) (promptReportPath : jstring)
| AwaitReadFile (l : Locals) (runState : nat) (promptReportPath : jstring)
| AwaitWriteHtml (l : Locals) (runState : nat) (promptReportPath markdown : jstring)
| AwaitWriteSources (l : Locals) (runState : nat) (promptReportPath markdown : jstring)
                    (sorted : list SourceReference)
| Settled (outcome : RunError + DeepResearchRunResult).

(** How an awaited promise settles. *)
Inductive Settlement :=
| Fulfilled (value : jstring)
| Rejected (reason : jstring).

(** The object a reference names (references never dangle: the heap
    only grows). *)
Definition runAt (s : Session) (r : nat) : RunState :=
  default (mkRunState 0 false ∅) (heap s !! r).

(** A call of [run(seedPaperUrl)], up to its first [await]. *)
Definition run_call (s : Session) (seedPaperUrl : jstring) : Session * Frame :=
  match currentRun s with
  | Some _ => (s, Settled (inl AlreadyRunning))
  | None =>
      let normalizedSeed := trim seedPaperUrl in
      if (length normalizedSeed =? 0)%nat then (s, Settled (inl SeedEmpty))
      else
        match parseUrl pf normalizedSeed with
        | None => (s, Settled (inl (SeedInvalid seedPaperUrl)))
        | Some seed =>
            let slug := Slug.createPaperSlug seed in
            let wd := workingDirectory s in
            match resolvePathWithinRoot pf (pathJoin pf (reportsRoot s) slug) wd with
            | None => (s, Settled (inl PathOutsideRoot))
            | Some dir =>
                match resolvePathWithinRoot pf (pathJoin pf dir (js "report.md")) wd,
                      resolvePathWithinRoot pf (pathJoin pf dir (js "report.html")) wd,
                      resolvePathWithinRoot pf (pathJoin pf dir (js "sources.json")) wd with
                | Some md, Some htmlPath, Some srcPath =>
                    (* await mkdir(reportDirectory, { recursive: true }) *)
                    (s, AwaitMkdir (mkLocals seed slug dir md htmlPath srcPath))
                | _, _, _ => (s, Settled (inl PathOutsideRoot))
                end
            end
        end
  end.

(** The continuation of a suspended call, once the promise it awaits
    has settled, up to its next [await]. *)
Definition resume (s : Session) (f : Frame) (settled : Settlement) : Session * Frame :=
  match f with
  | AwaitMkdir l =>
      match settled with
      | Rejected reason => (s, Settled (inl (Failure reason)))
      | Fulfilled _ =>
          let r := length (heap s) in
          let s := withRun s (heap s ++ [mkRunState 0 false ∅]) (Some r) in
          let s := addSource s (mkSourceInput (href (seedUrl l)) (Some (js "Seed Paper"))
                                              (Some (js "seed")) None) in
          let wd := workingDirectory s in
          let promptReportPath := toPromptPath pf (reportPath l) wd in
          let promptSourcesPath := toPromptPath pf (sourcesPath l) wd in
          let s := callAgent s CallSetSystemPrompt in
          let s := callAgent s
                     (CallAppendMessage (js "initialized")
                        (js "Report directory initialized at "
                         ++ toPromptPath pf (reportDirectory l) wd)) in
          (* try { await this.agent.prompt(prompt) } *)
          let s := callAgent s (CallPrompt (href (seedUrl l)) promptReportPath
                                           promptSourcesPath) in
          (s, AwaitPrompt l r promptReportPath)
      end
  | AwaitPrompt l r promptReportPath =>
      (* finally { this.currentRun = undefined } *)
      let s := withRun s (heap s) None in
      match settled with
      | Rejected reason => (s, Settled (inl (Failure reason)))
      | Fulfilled _ =>
          if maxTurnsExceeded (runAt s r)
          then (s, Settled (inl (MaxTurnsReached (maxTurns s))))
          else (s, AwaitReadFile l r promptReportPath)
      end
  | AwaitReadFile l r promptReportPath =>
      match settled with
      | Rejected _ => (s, Settled (inl (ArtifactMissing promptReportPath)))
      | Fulfilled markdown => (s, AwaitWriteHtml l r promptReportPath markdown)
      end
  | AwaitWriteHtml l r promptReportPath markdown =>
      match settled with
      | Rejected reason => (s, Settled (inl (Failure reason)))
      | Fulfilled _ =>
          let page := renderReportHtml pf markdown
                        (js "Deep Research Report: " ++ paperSlug l) in
          let s := writeFile s (reportHtmlPath l) page in
          let sorted := sortByUrl pf (map snd (map_to_list (sources (runAt s r)))) in
          (s, AwaitWriteSources l r promptReportPath markdown sorted)
      end
  | AwaitWriteSources l r promptReportPath markdown sorted =>
      match settled with
      | Rejected reason => (s, Settled (inl (Failure reason)))
      | Fulfilled _ =>
          let s := writeFile s (sourcesPath l)
                     (serializeSources pf (href (seedUrl l)) sorted) in
          let validation := Report.validateReport markdown in
          let wd := workingDirectory s in
          let s := callAgent s
                     (CallAppendMessage (js "finalized")
                        (js "Finalized report artifacts at " ++ promptReportPath
                         ++ js " and " ++ toPromptPath pf (reportHtmlPath l) wd)) in
          let s := emit s (report_finalized (reportPath l) (reportHtmlPath l)
                                            (sourcesPath l) validation) in
          (s, Settled (inr (mkRunResult (href (seedUrl l)) (reportDirectory l)
                              (reportPath l) (reportHtmlPath l) (sourcesPath l)
                              (turnCount (runAt s r)) validation)))
      end
  | Settled outcome => (s, Settled outcome)
  end.

(** What the surroundings of one run decide: how each awaited promise
    settles and which events the engine sends while the prompt is
    awaited. *)
Record RunEnv := mkRunEnv {
  env_mkdir : Settlement;
  env_events : list AgentEvent;
  env_prompt : Settlement;
  env_readFile : Settlement;
  env_writeHtml : Settlement;
  env_writeSources : Settlement;
}.

(** One step of a run that nothing else interleaves with. *)
Definition advance (env : RunEnv) (sf : Session * Frame) : Session * Frame :=
  let '(s, f) := sf in
  match f with
  | AwaitMkdir _ => resume s f (env_mkdir env)
  | AwaitPrompt _ _ _ =>
      resume (foldl handleAgentEvent s (env_events env)) f (env_prompt env)
  | AwaitReadFile _ _ _ => resume s f (env_readFile env)
  | AwaitWriteHtml _ _ _ _ => resume s f (env_writeHtml env)
  | AwaitWriteSources _ _ _ _ _ => resume s f (env_writeSources env)
  | Settled _ => sf
  end.

(** A whole run, from the call to the settled promise. *)
Definition run (s : Session) (seedPaperUrl : jstring) (env : RunEnv)
  : Session * Frame :=
  advance env (advance env (advance env (advance env (advance env
    (run_call s seedPaperUrl))))).

End WithPlatform.

(** ** Observations on a controller *)

(** The number of cancellation requests the engine has received. *)
Definition cancellations (s : Session) : nat :=
  length (List.filter (fun c => match c with CallAbort => true | _ => false end)
                      (agentCalls s)).

(** The number of turn-boundary events in a sequence. *)
Definition turns (evs : list AgentEvent) : Z :=
  Z.of_nat (length (List.filter (fun e => match e with turn_end => true | _ => false end) evs)).

(** The cap of the controller is reached by a count of [n] turns: the
    test [turnCount >= this.maxTurns] at that count. *)
Definition reached (s : Session) (n : Z) : bool :=
  Num.ge (Num.ofZ n) (maxTurns s).

Arguments reached : simpl never.

(** The controller is inside a run whose state is [run]. *)
Definition running (s : Session) (r : nat) (run : RunState) : Prop :=
  currentRun s = Some r /\ heap s !! r = Some run.

(** Two controller states that differ at most in the heap and in the
    clock. *)
Definition sameOutside (s' s : Session) : Prop :=
  maxTurns s' = maxTurns s /\ agentCalls s' = agentCalls s /\ emitted s' = emitted s.

(** Every entry of a source table is stored under its own URL. *)
Definition keyedByUrl (table : gmap jstring SourceReference) : Prop :=
  forall k e, table !! k = Some e -> sr_url e = k.

(** ** A small platform, for running the controller on examples *)

Definition demoUrl : URL :=
  mkURL (js "https://arxiv.org/abs/1706.03762") (js "arxiv.org") (js "/abs/1706.03762").

Definition demoPlatform : Platform :=
  mkPlatform (js "/work")
             (fun p => p)
             (fun a b => a ++ js "/" ++ b)
             (fun p root => if startsWith p root then Some p else Some (root ++ js "/" ++ p))
             (fun p root => default p (stripPrefix (root ++ js "/") p))
             (fun u => if eqb u (href demoUrl) then Some demoUrl else None)
             (fun n => js "2026-01-01T00:00:00.000Z")
             (fun markdown heading => heading ++ markdown)
             (fun l => l)
             (fun seed l => seed).

Definition demoOptions (cap : option Z) : DeepResearchSessionOptions :=
  mkOptions None None (option_map Num.ofZ cap).

(** The controller right after a run on [demoUrl] has installed its
    state. *)
Definition demoStarted (cap : option Z) : Session :=
  let '(s, f) := run_call demoPlatform (create demoPlatform (demoOptions cap))
                          (href demoUrl) in
  fst (resume demoPlatform s f (Fulfilled [])).

End Session.

(* ===================================================================== *)
(** * Observations on runs *)
(* ===================================================================== *)

Module SessionViews.

Import Session.

(** [later] carries every entry of [earlier] on: under the same URL, with
    the same [addedAt], and with every populated field as it was. *)
Definition carriesOn (earlier later : gmap jstring SourceReference) : Prop :=
  forall k e,
    earlier !! k = Some e ->
    exists e',
      later !! k = Some e'
      /\ sr_url e' = sr_url e
      /\ addedAt e' = addedAt e
      /\ (truthy (sr_title e) = true -> sr_title e' = sr_title e)
      /\ (truthy (sr_source e) = true -> sr_source e' = sr_source e)
      /\ (truthy (sr_snippet e) = true -> sr_snippet e' = sr_snippet e).

(** Two controller states that agree on everything but the contents of
    the heap and the clock. *)
Definition sameButTables (s' s : Session) : Prop :=
  workingDirectory s' = workingDirectory s
  /\ reportsRoot s' = reportsRoot s
  /\ maxTurns s' = maxTurns s
  /\ currentRun s' = currentRun s
  /\ emitted s' = emitted s
  /\ agentCalls s' = agentCalls s
  /\ writes s' = writes s
  /\ length (heap s') = length (heap s).

(** From [s] with the run [run] to [s'] with the run [run'] in the same
    place: the count and the flag are kept, the table keeps its shape and
    carries its entries on. *)
Definition grows (s : Session) (r : nat) (run : RunState) (s' : Session) (run' : RunState)
  : Prop :=
  running s' r run'
  /\ turnCount run' = turnCount run
  /\ maxTurnsExceeded run' = maxTurnsExceeded run
  /\ keyedByUrl (sources run')
  /\ carriesOn (sources run) (sources run').

(** The controller once a run with the locals [l] has installed its
    state, then after the events the engine sends while the prompt is
    awaited, and the state of that run at the end. *)
Definition startedRun (pf : Platform) (s : Session) (l : Locals) : Session :=
  fst (resume pf s (AwaitMkdir l) (Fulfilled [])).

Definition afterEvents (pf : Platform) (s : Session) (l : Locals) (evs : list AgentEvent)
  : Session :=
  foldl (handleAgentEvent pf) (startedRun pf s l) evs.

Definition finalRun (pf : Platform) (s : Session) (l : Locals) (evs : list AgentEvent)
  : RunState :=
  runAt (afterEvents pf s l evs) (length (heap s)).

(** The two files a run leaves beside the report. *)
Definition htmlArtifact (pf : Platform) (l : Locals) (markdown : jstring)
  : jstring * jstring :=
  (reportHtmlPath l,
   renderReportHtml pf markdown (js "Deep Research Report: " ++ paperSlug l)).

Definition sourcesArtifact (pf : Platform) (l : Locals) (final : RunState)
  : jstring * jstring :=
  (sourcesPath l,
   serializeSources pf (href (seedUrl l))
     (sortByUrl pf (map snd (map_to_list (sources final))))).

(** The announcement that closes a successful run. *)
Definition finalized (l : Locals) (markdown : jstring) : SessionEvent :=
  report_finalized (reportPath l) (reportHtmlPath l) (sourcesPath l)
                   (Report.validateReport markdown).

(** A tool result the controller harvests sources from. *)
Definition harvestable (toolName : jstring) (result : JsValue) : bool :=
  isRecord result
  && ((eqb toolName (js "web_search") && isWebSearchToolDetails (prop result "details"))
      || (eqb toolName (js "extract_source")
          && isExtractSourceToolDetails (prop result "details"))).

(** A well-formed result of the search tool with two entries. *)
Definition searchEntry (title url : string) : JsValue :=
  VObject [(js "title", VString (js title)); (js "url", VString (js url));
           (js "snippet", VString (js "...")); (js "source", VString (js "arxiv"))].

Definition searchToolResult : JsValue :=
  VObject [(js "content", VArray []);
           (js "details",
            VObject [(js "query", VString (js "attention"));
                     (js "results",
                      VArray [searchEntry "Attention Is All You Need"
                                          "http://arxiv.org/abs/1706.03762v7";
                              searchEntry "Neural Machine Translation"
                                          "http://arxiv.org/abs/1409.0473v7"])])].

(** A run in which everything settles well: the engine sends [events]
    and the report read back is [markdown]. *)
Definition smoothRun (events : list AgentEvent) (markdown : jstring) : RunEnv :=
  mkRunEnv (Fulfilled []) events (Fulfilled []) (Fulfilled markdown)
           (Fulfilled []) (Fulfilled []).

(** The paths of the demonstration run. *)
Definition demoLocals : Locals :=
  let dir := js "/work/reports/arxiv-1706-03762" in
  mkLocals demoUrl (js "arxiv-1706-03762") dir
           (dir ++ js "/report.md") (dir ++ js "/report.html") (dir ++ js "/sources.json").

(** A controller on the demonstration platform, with a cap of two turns. *)
Definition demoSession : Session := create demoPlatform (demoOptions (Some 2%Z)).

End SessionViews.


(* ===================================================================== *)
(** * Observations on extracted text *)
(* ===================================================================== *)

Module ExtractViews.

Import SourceExtract.

(** A unit of tidy text: a space, or anything that is not white space. *)
Definition tidyUnit (c : N) : bool := (c =? 32)%N || negb (isWhiteSpace c).

(** Tidy text: no white space but single spaces, and none at either
    end. *)
Definition tidy (s : jstring) : Prop :=
  forallb tidyUnit s = true
  /\ includes s (js "  ") = false
  /\ startsWith s (js " ") = false
  /\ endsWith s (js " ") = false.

(** What is left of a text when its white space is taken out. *)
Definition visible (s : jstring) : jstring :=
  List.filter (fun c => negb (isWhiteSpace c)) s.

(** The request the readability mirror is asked with. *)
Definition mirrorRequest (target : jstring) : Request :=
  ReqGet (js "https://r.jina.ai/" ++ target).

(** The text fields of extracted details are within their limits: a
    clipped text is the limit and the suffix minus one unit long at
    most, and a full text that is present is not empty. *)
Definition withinLimits (d : ExtractSourceToolDetails) : Prop :=
  (forall t, fullText d = Some t ->
             t <> [] /\ (length t <= MAX_FULL_TEXT_CHARS + 2)%nat)
  /\ (forall a, abstract d = Some a -> (length a <= MAX_ABSTRACT_CHARS + 2)%nat).

(** The errors raised on the input alone, before anything is fetched. *)
Definition refusedInput (e : Error) : bool :=
  match e with UrlEmpty | UrlInvalid _ => true | _ => false end.

(** What an extraction that has made the requests [reqs] may have asked
    for, given how it ended. *)
Definition withinBudget (outcome : Error + ExtractSourceToolDetails) (reqs : list Request)
  : Prop :=
  match outcome with
  | inl e => if refusedInput e then reqs = [] else length reqs = 1%nat
  | inr d =>
      exists first n,
        reqs = first :: repeat (mirrorRequest (canonicalUrl d)) n
        /\ (n <= 2)%nat
        /\ (n = 2%nat -> sourceType d = pdf)
        /\ (n = 0%nat -> truthy (fullText d) = true)
  end.

(** A world that answers the first [n] requests with [response]. *)
Definition answering (n : nat) (response : Response) : Net :=
  mkNet (repeat (Responded response) n) [].

(** A document served as PDF. *)
Definition pdfUrl : URL :=
  mkURL (js "https://example.com/paper.pdf") (js "example.com") (js "/paper.pdf").

Definition scrapersOnPdf : Scrapers :=
  mkScrapers (fun input => if eqb input (href pdfUrl) then Some pdfUrl else None)
             (fun u => Some (js "paper"))
             (fun _ => None)
             (fun _ _ => None)
             (fun _ _ => [])
             (fun page => page)
             (fun _ => None)
             (fun _ => None)
             (fun _ _ => None)
             (fun _ => []).

Definition pdfResponse : Response :=
  mkResponse true 200 (js "OK") pdfUrl (Some (js "application/pdf")) None.

End ExtractViews.

(* ===================================================================== *)
(** * The search providers (tools/web-search.ts) *)
(* ===================================================================== *)

Module SearchProviders.

Import WebSearch.

(** A paper of the Semantic Scholar response.  [p_arxiv] is
    [externalIds?.ArXiv]; [p_year] is an integer year. *)
Record SemanticScholarPaper := mkPaper {
  p_title : option jstring;
  p_url : option jstring;
  p_abstract : option jstring;
  p_year : option Z;
  p_venue : option jstring;
  p_arxiv : option jstring;
}.

(** The suffix of a clipped snippet, as the source file has it: three
    code units. *)
Definition snippetSuffix : jstring := [226; 8364; 166].

(** [clipSnippet(input)], with the default limit of 320. *)
Definition clipSnippet (input : jstring) : jstring :=
  let normalized := trim (replaceRuns isWhiteSpace (js " ") input) in
  if (length normalized <=? 320)%nat then normalized
  else slice0 normalized (320 - 1) ++ snippetSuffix.

Section WithNumbers.

(** [String(n)] for a number. *)
Variable showNumber : Z -> jstring.

(** [[paper.venue, paper.year].filter(Boolean).join(", ")]. *)
Definition venueYear (paper : SemanticScholarPaper) : jstring :=
  join (js ", ")
       ((if truthy (p_venue paper) then [default [] (p_venue paper)] else [])
        ++ (if SourceExtract.truthyNum (p_year paper)
            then [showNumber (default 0%Z (p_year paper))] else [])).

(** The callback of [papers.map]: [None] is [undefined]. *)
Definition paperResult (paper : SemanticScholarPaper) : option WebSearchResult :=
  let fallbackArxivUrl :=
    if truthy (p_arxiv paper)
    then Some (js "https://arxiv.org/abs/" ++ default [] (p_arxiv paper)) else None in
  let urlValue := orElse (option_map trim (p_url paper)) fallbackArxivUrl in
  if negb (truthy urlValue) then None
  else
    let snippet :=
      if truthy (option_map trim (p_abstract paper)) then default [] (p_abstract paper)
      else default [] (orElse (Some (venueYear paper)) (Some (js "No abstract available."))) in
    Some (mkResult
            (default [] (orElse (option_map trim (p_title paper)) (Some (js "Untitled paper"))))
            (default [] urlValue)
            (clipSnippet snippet)
            (js "semantic-scholar")).

(** What [searchSemanticScholar] makes of the payload of an ok
    response: [data] is [payload.data]. *)
Definition semanticScholarResults (data : option (list SemanticScholarPaper)) (limit : Z)
  : list WebSearchResult :=
  slice0 (omap paperResult (default [] data)) limit.

End WithNumbers.

Section WithTags.

(** [extractXmlTag(entry, tagName)] of this module, kept abstract. *)
Variable extractXmlTag : jstring -> jstring -> option jstring.

(** The body of the loop over the entries of the feed: [None] is
    [continue]. *)
Definition entryResult (entry : jstring) : option WebSearchResult :=
  let title := extractXmlTag entry (js "title") in
  let paperUrl := extractXmlTag entry (js "id") in
  let summary := extractXmlTag entry (js "summary") in
  if negb (truthy paperUrl) then None
  else
    Some (mkResult
            (default [] (orElse title (Some (js "Untitled arXiv paper"))))
            (default [] paperUrl)
            (clipSnippet (default [] (orElse summary (Some (js "No abstract available.")))))
            (js "arxiv")).

(** What [searchArxiv] makes of the entries of an ok response. *)
Definition arxivResults (entries : list jstring) (limit : Z) : list WebSearchResult :=
  slice0 (omap entryResult entries) limit.

End WithTags.

(** A result a provider may return: it has a URL and a title, it names
    its provider, and its snippet is a clipped one. *)
Definition hit (provider : jstring) (r : WebSearchResult) : Prop :=
  r_url r <> [] /\ r_title r <> [] /\ r_source r = provider
  /\ (length (r_snippet r) <= 322)%nat.

(** The results are the first of their URL in [l]. *)
Definition firstOfUrl (l : list WebSearchResult) (r : WebSearchResult) : Prop :=
  List.find (fun x => bool_decide (r_url x = r_url r)) l = Some r.

End SearchProviders.

(* ===================================================================== *)
(** * The read tool (tools/read.ts) *)
(* ===================================================================== *)

Module ReadTool.

Definition MAX_OUTPUT_CHARS : nat := 60000.

Record ReadToolInput := mkReadInput {
  in_path : jstring;
  in_offset : option Z;
  in_limit : option Z;
}.

Record ReadToolDetails := mkReadDetails {
  rd_path : jstring;
  rd_bytes : Z;
  rd_totalLines : Z;
  rd_startLine : Z;
  rd_endLine : Z;
  rd_truncated : bool;
}.

Inductive Error :=
| PathOutsideRoot                              (* thrown by [resolvePathWithinRoot] *)
| ReadFailed                                   (* the rejection of [readFile] *)
| OffsetBeyondEnd (startLine totalLines : Z).  (* "Offset ... is beyond end of file (...)." *)

(** [clipText] of this module: the content and the flag. *)
Definition clipText (input : jstring) (maxChars : nat) : jstring * bool :=
  if (length input <=? maxChars)%nat then (input, false)
  else (slice0 input (Z.of_nat maxChars), true).

(** [l.slice(s, e)]: a negative index counts from the end, and both are
    brought into range. *)
Definition jsSlice {A} (l : list A) (s e : Z) : list A :=
  let len := Z.of_nat (length l) in
  let from := if (s <? 0)%Z then Z.max (len + s) 0 else Z.min s len in
  let to := if (e <? 0)%Z then Z.max (len + e) 0 else Z.min e len in
  take (Z.to_nat (to - from)) (drop (Z.to_nat from) l).

(** [rawContent.length > 0 ? rawContent.split("\n") : []]. *)
Definition linesOf (rawContent : jstring) : list jstring :=
  if (0 <? length rawContent)%nat then splitOn 10 rawContent else [].

(** [Math.max(1, params.offset ?? 1)]. *)
Definition startLineOf (params : ReadToolInput) : Z :=
  Z.max 1 (default 1%Z (in_offset params)).

(** [params.limit ? Math.min(totalLines, startLine + params.limit - 1)
    : totalLines]. *)
Definition endLineOf (params : ReadToolInput) (totalLines : Z) : Z :=
  if SourceExtract.truthyNum (in_limit params)
  then Z.min totalLines (startLineOf params + default 0%Z (in_limit params) - 1)
  else totalLines.

(** [allLines.slice(startLine - 1, endLine)]. *)
Definition selectedLines (params : ReadToolInput) (allLines : list jstring) : list jstring :=
  jsSlice allLines (startLineOf params - 1)
          (endLineOf params (Z.of_nat (length allLines))).

Section WithPlatform.

(** The platform: path resolution within the root ([None] when it
    throws), the file system ([None] when [readFile] rejects),
    [Buffer.byteLength] and [String(n)]. *)
Variable resolvePathWithinRoot : jstring -> option jstring.
Variable readFile : jstring -> option jstring.
Variable byteLength : jstring -> Z.
Variable showNumber : Z -> jstring.

Definition truncationNotice : jstring :=
  [10; 10] ++ js "[Output truncated to " ++ showNumber (Z.of_nat MAX_OUTPUT_CHARS)
  ++ js " characters.]".

Definition continuationNotice (endLine : Z) : jstring :=
  [10; 10] ++ js "[More content available. Continue with offset="
  ++ showNumber (endLine + 1) ++ js ".]".

(** [createReadTool(rootDir).execute]: the text of the content and the
    details. *)
Definition execute (params : ReadToolInput) : Error + (jstring * ReadToolDetails) :=
  match resolvePathWithinRoot (in_path params) with
  | None => inl PathOutsideRoot
  | Some absolutePath =>
      match readFile absolutePath with
      | None => inl ReadFailed
      | Some rawContent =>
          let allLines := linesOf rawContent in
          let totalLines := Z.of_nat (length allLines) in
          if (totalLines =? 0)%Z then
            inr ([], mkReadDetails (in_path params) 0 0 0 0 false)
          else
            let startLine := startLineOf params in
            if (totalLines <? startLine)%Z then inl (OffsetBeyondEnd startLine totalLines)
            else
              let endLine := endLineOf params totalLines in
              let selectedContent := join [10] (selectedLines params allLines) in
              let clipped := clipText selectedContent MAX_OUTPUT_CHARS in
              let outputText := fst clipped in
              let outputText :=
                if snd clipped then outputText ++ truncationNotice else outputText in
              let outputText :=
                if (endLine <? totalLines)%Z
                then outputText ++ continuationNotice endLine else outputText in
              inr (outputText,
                   mkReadDetails (in_path params) (byteLength rawContent) totalLines
                                 startLine endLine (snd clipped))
      end
  end.

End WithPlatform.

(** Lines [first] to [last] of a file, counted from one. *)
Definition linesBetween (allLines : list jstring) (first last : Z) : list jstring :=
  take (Z.to_nat (last - first + 1)) (drop (Z.to_nat (first - 1)) allLines).

(** A file of three lines, on a platform that knows this one file. *)
Definition demoFile : jstring := js "alpha" ++ [10] ++ js "beta" ++ [10] ++ js "gamma".

Definition demoRead : ReadToolInput -> Error + (jstring * ReadToolDetails) :=
  execute (fun p => Some p)
          (fun p => if eqb p (js "notes.md") then Some demoFile else None)
          (fun s => Z.of_nat (length s))
          (fun n => if (n =? 3)%Z then js "3" else js "?").

End ReadTool.

(* ===================================================================== *)
(** * Escaping in the report page (core/report-renderer.ts) *)
(* ===================================================================== *)

Module Renderer.

(** [s.replaceAll(c, rep)] for a pattern of one unit. *)
Definition replaceAllUnit (c : N) (rep : jstring) (s : jstring) : jstring :=
  flat_map (fun x => if (x =? c)%N then rep else [x]) s.

(** [escapeHtml]: the ampersand, then the angle brackets, then the two
    quotes (units 34 and 39). *)
Definition escapeHtml (value : jstring) : jstring :=
  replaceAllUnit 39 (js "&#39;")
    (replaceAllUnit 34 (js "&quot;")
       (replaceAllUnit 62 (js "&gt;")
          (replaceAllUnit 60 (js "&lt;")
             (replaceAllUnit 38 (js "&amp;") value)))).

(** The title [run] gives the page of a paper. *)
Definition pageTitle (seedUrl : URL) : jstring :=
  js "Deep Research Report: " ++ Slug.createPaperSlug seedUrl.

(** ** Reading the result *)

(** What one unit becomes when all five replacements are made at once. *)
Definition escapeUnit (c : N) : jstring :=
  if (c =? 38)%N then js "&amp;"
  else if (c =? 60)%N then js "&lt;"
  else if (c =? 62)%N then js "&gt;"
  else if (c =? 34)%N then js "&quot;"
  else if (c =? 39)%N then js "&#39;"
  else [c].

(** The units that open or close markup or an attribute value. *)
Definition markupUnit (c : N) : bool :=
  (c =? 60)%N || (c =? 62)%N || (c =? 34)%N || (c =? 39)%N.

End Renderer.

(* ===================================================================== *)
(** * Command-line arguments (cli.ts) *)
(* ===================================================================== *)

Module Cli.

Record CliArgs := mkCliArgs {
  c_seedUrl : jstring;
  c_provider : jstring;
  c_model : jstring;
  c_maxTurns : Num.JsNumber;
  c_thinking : jstring;
  c_output : jstring;
  c_verbose : bool;
  c_help : bool;
}.

(** The ways [parseArgs] ends the process with status 1. *)
Inductive CliError :=
| BadMaxTurns                       (* "--max-turns must be a positive integer" *)
| BadThinking                       (* "--thinking must be one of: ..." *)
| UnknownOption (arg : jstring)     (* "unknown option '...'" *)
| UnexpectedArgument (arg : jstring). (* "unexpected argument '...'" *)

Local Open Scope string_scope.
Definition THINKING_LEVELS : list jstring :=
  map js ["off"; "minimal"; "low"; "medium"; "high"; "xhigh"].
Local Close Scope string_scope.

Definition digitValue (c : N) : Z := Z.of_N (c - 48).

Section WithNumbers.

(** The number the platform makes of a mathematical integer: the
    nearest double (an infinity beyond the largest), which is the
    integer itself below 2^53, and with the digits after the twentieth
    read as the implementation pleases. *)
Variable numberOf : Z -> Num.JsNumber.

(** [parseInt(s, 10)]: leading white space is skipped, a sign is read,
    then the longest run of decimal digits; without a digit the result
    is not a number. *)
Definition parseInt10 (s : jstring) : Num.JsNumber :=
  let s1 := dropWhile isWhiteSpace s in
  let '(negative, s2) :=
    match s1 with
    | 45%N :: t => (true, t)
    | 43%N :: t => (false, t)
    | _ => (false, s1)
    end in
  match takeWhile isDigit s2 with
  | [] => Num.NaN
  | digits =>
      let mathInt := fold_left (fun acc c => 10 * acc + digitValue c)%Z digits 0%Z in
      numberOf (if negative then - mathInt else mathInt)%Z
  end.

Definition withSeedUrl (a : CliArgs) (v : jstring) : CliArgs :=
  mkCliArgs v (c_provider a) (c_model a) (c_maxTurns a) (c_thinking a) (c_output a)
            (c_verbose a) (c_help a).
Definition withProvider (a : CliArgs) (v : jstring) : CliArgs :=
  mkCliArgs (c_seedUrl a) v (c_model a) (c_maxTurns a) (c_thinking a) (c_output a)
            (c_verbose a) (c_help a).
Definition withModel (a : CliArgs) (v : jstring) : CliArgs :=
  mkCliArgs (c_seedUrl a) (c_provider a) v (c_maxTurns a) (c_thinking a) (c_output a)
            (c_verbose a) (c_help a).
Definition withMaxTurns (a : CliArgs) (v : Num.JsNumber) : CliArgs :=
  mkCliArgs (c_seedUrl a) (c_provider a) (c_model a) v (c_thinking a) (c_output a)
            (c_verbose a) (c_help a).
Definition withThinking (a : CliArgs) (v : jstring) : CliArgs :=
  mkCliArgs (c_seedUrl a) (c_provider a) (c_model a) (c_maxTurns a) v (c_output a)
            (c_verbose a) (c_help a).
Definition withOutput (a : CliArgs) (v : jstring) : CliArgs :=
  mkCliArgs (c_seedUrl a) (c_provider a) (c_model a) (c_maxTurns a) (c_thinking a) v
            (c_verbose a) (c_help a).
Definition withVerbose (a : CliArgs) : CliArgs :=
  mkCliArgs (c_seedUrl a) (c_provider a) (c_model a) (c_maxTurns a) (c_thinking a)
            (c_output a) true (c_help a).
Definition withHelp (a : CliArgs) : CliArgs :=
  mkCliArgs (c_seedUrl a) (c_provider a) (c_model a) (c_maxTurns a) (c_thinking a)
            (c_output a) (c_verbose a) true.

(** The loop of [parseArgs], from the arguments read so far and the
    arguments left.  An option that takes a value reads the next
    argument, whatever it looks like, or the empty string at the end. *)
Fixpoint parseArgsFrom (args : CliArgs) (argv : list jstring) : CliError + CliArgs :=
  match argv with
  | [] => inr args
  | arg :: rest =>
      if eqb arg (js "--help") || eqb arg (js "-h") then parseArgsFrom (withHelp args) rest
      else if eqb arg (js "--provider") then
        match rest with
        | [] => inr (withProvider args [])
        | v :: rest' => parseArgsFrom (withProvider args v) rest'
        end
      else if eqb arg (js "--model") then
        match rest with
        | [] => inr (withModel args [])
        | v :: rest' => parseArgsFrom (withModel args v) rest'
        end
      else if eqb arg (js "--max-turns") then
        let value := parseInt10 (match rest with [] => [] | v :: _ => v end) in
        if Num.isNaN value || Num.lt value (Num.ofZ 1) then inl BadMaxTurns
        else
          match rest with
          | [] => inr (withMaxTurns args value)
          | _ :: rest' => parseArgsFrom (withMaxTurns args value) rest'
          end
      else if eqb arg (js "--thinking") then
        let level := match rest with [] => [] | v :: _ => v end in
        if negb (bool_decide (level ∈ THINKING_LEVELS)) then inl BadThinking
        else
          match rest with
          | [] => inr (withThinking args level)
          | _ :: rest' => parseArgsFrom (withThinking args level) rest'
          end
      else if eqb arg (js "--output") then
        match rest with
        | [] => inr (withOutput args [])
        | v :: rest' => parseArgsFrom (withOutput args v) rest'
        end
      else if eqb arg (js "--verbose") then parseArgsFrom (withVerbose args) rest
      else if startsWith arg (js "-") then inl (UnknownOption arg)
      else if negb (nonEmpty (c_seedUrl args)) then parseArgsFrom (withSeedUrl args arg) rest
      else inl (UnexpectedArgument arg)
  end.

(** [parseArgs(argv)]; [cwd] is [process.cwd()]. *)
Definition parseArgs (cwd : jstring) (argv : list jstring) : CliError + CliArgs :=
  parseArgsFrom (mkCliArgs [] (js "anthropic") (js "claude-sonnet-4-20250514")
                           (Num.ofZ 24) (js "medium") cwd false false)
                argv.

End WithNumbers.

(** The options [main] constructs the session with. *)
Definition sessionOptions (args : CliArgs) : Session.DeepResearchSessionOptions :=
  Session.mkOptions (Some (c_output args)) None (Some (c_maxTurns args)).

(** What [parseArgs] guarantees of the arguments it returns. *)
Definition usable (args : CliArgs) : Prop :=
  Num.ge (c_maxTurns args) (Num.ofZ 1) = true
  /\ c_thinking args ∈ THINKING_LEVELS
  /\ startsWith (c_seedUrl args) (js "-") = false.

End Cli.

(* ===================================================================== *)
(** * Tool results as the controller sees them *)
(* ===================================================================== *)

Module ToolResults.

Import Session.

(** The objects the tools return, field by field as their [return]
    statements build them; an absent optional field is [undefined]. *)
Definition optionalString (o : option jstring) : JsValue :=
  match o with Some s => VString s | None => VUndefined end.

Definition optionalStrings (o : option (list jstring)) : JsValue :=
  match o with Some l => VArray (map VString l) | None => VUndefined end.

Definition resultValue (r : WebSearch.WebSearchResult) : JsValue :=
  VObject [(js "title", VString (WebSearch.r_title r));
           (js "url", VString (WebSearch.r_url r));
           (js "snippet", VString (WebSearch.r_snippet r));
           (js "source", VString (WebSearch.r_source r))].

Definition searchDetailsValue (d : WebSearch.WebSearchToolDetails) : JsValue :=
  VObject [(js "query", VString (WebSearch.query d));
           (js "results", VArray (map resultValue (WebSearch.results d)));
           (js "providerErrors", optionalStrings (WebSearch.providerErrors d))].

Definition sourceTypeName (t : SourceExtract.SourceType) : jstring :=
  match t with
  | SourceExtract.arxiv => js "arxiv"
  | SourceExtract.pdf => js "pdf"
  | SourceExtract.html => js "html"
  | SourceExtract.other => js "other"
  end.

Definition extractDetailsValue (d : SourceExtract.ExtractSourceToolDetails) : JsValue :=
  VObject [(js "title", VString (SourceExtract.title d));
           (js "authors", optionalStrings (SourceExtract.authors d));
           (js "year", match SourceExtract.year d with
                       | Some y => VNumber y | None => VUndefined end);
           (js "abstract", optionalString (SourceExtract.abstract d));
           (js "fullText", optionalString (SourceExtract.fullText d));
           (js "sourceType", VString (sourceTypeName (SourceExtract.sourceType d)));
           (js "canonicalUrl", VString (SourceExtract.canonicalUrl d));
           (js "missingFields", VArray (map VString (SourceExtract.missingFields d)))].

(** [{ content: [{ type: "text", text }], details }]. *)
Definition toolResult (text : jstring) (details : JsValue) : JsValue :=
  VObject [(js "content", VArray [VObject [(js "type", VString (js "text"));
                                           (js "text", VString text)]]);
           (js "details", details)].

End ToolResults.
(* ===================================================================== *)
(** * Properties of the string functions *)
(* ===================================================================== *)

Module JsFacts.

Lemma stripPrefix_app p s : stripPrefix p (p ++ s) = Some s.
Proof.
  induction p as [|a p IH]; cbn; [destruct s; reflexivity|].
  rewrite N.eqb_refl. exact IH.
Qed.

Lemma stripPrefix_Some p : forall s r, stripPrefix p s = Some r -> s = p ++ r.
Proof.
  induction p as [|a p IH]; intros s r; cbn.
  - destruct s; intros [= <-]; reflexivity.
  - destruct s as [|b s]; [discriminate|].
    destruct (N.eqb_spec a b) as [->|]; [|discriminate].
    intros H. f_equal. apply IH. exact H.
Qed.

Lemma startsWith_true s p : startsWith s p = true <-> exists r, s = p ++ r.
Proof.
  unfold startsWith. split.
  - destruct (stripPrefix p s) as [r|] eqn:H; [|discriminate].
    intros _. exists r. apply stripPrefix_Some. exact H.
  - intros [r ->]. rewrite stripPrefix_app. reflexivity.
Qed.

Lemma endsWith_true s p : endsWith s p = true <-> exists k, s = k ++ p.
Proof.
  unfold endsWith. rewrite startsWith_true. split.
  - intros [r Hr]. exists (rev r).
    rewrite <- (rev_involutive s), Hr, rev_app_distr, rev_involutive. reflexivity.
  - intros [k ->]. exists (rev k). apply rev_app_distr.
Qed.

(** A search succeeds exactly when the pattern holds at some place. *)
Lemma anywhere_true here s :
  anywhere here s = true <-> exists before rest, s = before ++ rest /\ here rest = true.
Proof.
  split.
  - induction s as [|c s IH]; cbn [anywhere].
    + rewrite orb_false_r. intros H. exists [], []. split; [reflexivity|exact H].
    + intros H. apply orb_true_iff in H as [H|H].
      * exists [], (c :: s). split; [reflexivity|exact H].
      * destruct (IH H) as (before & rest & -> & Hat).
        exists (c :: before), rest. split; [reflexivity|exact Hat].
  - intros (before & rest & -> & Hat). induction before as [|c before IH]; cbn [app].
    + destruct rest; cbn [anywhere]; rewrite Hat; reflexivity.
    + cbn [anywhere]. rewrite IH. apply orb_true_r.
Qed.

Lemma takeWhile_dropWhile p s : s = takeWhile p s ++ dropWhile p s.
Proof.
  induction s as [|c s IH]; cbn; [reflexivity|].
  destruct (p c); [cbn; f_equal; exact IH|reflexivity].
Qed.

Lemma takeWhile_forallb p s : forallb p (takeWhile p s) = true.
Proof.
  induction s as [|c s IH]; cbn; [reflexivity|].
  destruct (p c) eqn:Hc; [cbn; rewrite Hc; exact IH|reflexivity].
Qed.

Lemma dropWhile_all p k rest :
  forallb p k = true ->
  (rest = [] \/ exists c t, rest = c :: t /\ p c = false) ->
  dropWhile p (k ++ rest) = rest.
Proof.
  intros Hall Hrest. induction k as [|a k IH]; cbn in *.
  - destruct Hrest as [->|(c & t & -> & Hc)]; cbn; [reflexivity|].
    rewrite Hc. reflexivity.
  - apply andb_true_iff in Hall as [Ha Hall]. rewrite Ha. apply IH. exact Hall.
Qed.

Lemma takeWhile_all p id rest :
  forallb p id = true ->
  (rest = [] \/ exists c t, rest = c :: t /\ p c = false) ->
  takeWhile p (id ++ rest) = id.
Proof.
  intros Hall Hrest. induction id as [|a id IH]; cbn in *.
  - destruct Hrest as [->|(c & t & -> & Hc)]; cbn; [reflexivity|].
    rewrite Hc. reflexivity.
  - apply andb_true_iff in Hall as [Ha Hall]. rewrite Ha. f_equal. apply IH. exact Hall.
Qed.

Lemma dropWhile_suffix p s : exists k, s = k ++ dropWhile p s /\ forallb p k = true.
Proof.
  induction s as [|c s (k & IH & Hk)]; cbn.
  - exists []. split; reflexivity.
  - destruct (p c) eqn:Hc.
    + exists (c :: k). cbn. rewrite Hc, Hk. split; [f_equal; exact IH|reflexivity].
    + exists []. split; reflexivity.
Qed.

Lemma dropWhile_head p s c t : dropWhile p s = c :: t -> p c = false.
Proof.
  induction s as [|a s IH]; cbn; [discriminate|].
  destruct (p a) eqn:Ha; [exact IH|]. intros [= <- _]. exact Ha.
Qed.

Lemma filter_dropWhile (p q : N -> bool) s :
  (forall c, p c = true -> q c = false) ->
  List.filter q (dropWhile p s) = List.filter q s.
Proof.
  intros Hpq. induction s as [|c s IH]; cbn; [reflexivity|].
  destruct (p c) eqn:Hc; [|reflexivity].
  rewrite (Hpq c Hc). exact IH.
Qed.

Lemma filter_rev (q : N -> bool) (s : jstring) :
  List.filter q (rev s) = rev (List.filter q s).
Proof.
  induction s as [|c s IH]; cbn; [reflexivity|].
  rewrite List.filter_app, IH. cbn. destruct (q c); cbn; [reflexivity|].
  apply app_nil_r.
Qed.

Lemma forallb_dropWhile (p q : N -> bool) s :
  forallb q s = true -> forallb q (dropWhile p s) = true.
Proof.
  induction s as [|c s IH]; cbn; [reflexivity|].
  intros H. pose proof H as H'. apply andb_true_iff in H' as [_ Hs].
  destruct (p c); [apply IH; exact Hs|exact H].
Qed.

Lemma forallb_rev (q : N -> bool) (s : jstring) : forallb q (rev s) = forallb q s.
Proof.
  induction s as [|c s IH]; cbn; [reflexivity|].
  rewrite forallb_app, IH. cbn. rewrite andb_true_r. apply andb_comm.
Qed.

(** ** Replacing the runs of a class by one unit *)

Section Runs.

Variable p : N -> bool.
Variable h : N.

Lemma replaceRuns_forallb (q : N -> bool) s : forall b,
  q h = true ->
  (forall c, p c = false -> List.In c s -> q c = true) ->
  forallb q (replaceRunsFrom p [h] b s) = true.
Proof.
  induction s as [|c s IH]; intros b Hh Hq; cbn; [reflexivity|].
  assert (IH' : forall b', forallb q (replaceRunsFrom p [h] b' s) = true).
  { intros b'. apply IH; [exact Hh|]. intros d Hd Hin. apply Hq; [exact Hd|right; exact Hin]. }
  destruct (p c) eqn:Hc.
  - destruct b; cbn; rewrite ?Hh, IH'; reflexivity.
  - cbn. rewrite (Hq c Hc (or_introl eq_refl)), IH'. reflexivity.
Qed.

Lemma replaceRuns_filter (q : N -> bool) s : forall b,
  q h = false ->
  (forall c, p c = true -> q c = false) ->
  List.filter q (replaceRunsFrom p [h] b s) = List.filter q s.
Proof.
  induction s as [|c s IH]; intros b Hh Hpq; cbn; [reflexivity|].
  destruct (p c) eqn:Hc.
  - rewrite (Hpq c Hc). destruct b; cbn; rewrite ?Hh; apply IH; assumption.
  - cbn. rewrite IH by assumption. reflexivity.
Qed.

(** When the replacement is itself in the class, the result has no
    two of it side by side, and none in front when a run is under
    way. *)
Lemma replaceRuns_single s : forall b,
  p h = true -> (forall c, p c = false -> c <> h) ->
  includes (replaceRunsFrom p [h] b s) [h; h] = false
  /\ (b = true -> startsWith (replaceRunsFrom p [h] b s) [h] = false).
Proof.
  induction s as [|c s IH]; intros b Hh Hne.
  - cbn. split; reflexivity.
  - destruct (IH true Hh Hne) as [Hin Hst]. destruct (IH false Hh Hne) as [Hin' _].
    specialize (Hst eq_refl). cbn [replaceRunsFrom].
    destruct (p c) eqn:Hc.
    + destruct b; cbn [app].
      * split; [exact Hin|intros _; exact Hst].
      * split; [|discriminate].
        unfold includes in *. cbn [anywhere]. rewrite Hin, orb_false_r.
        unfold startsWith in *. cbn [stripPrefix]. rewrite N.eqb_refl.
        exact Hst.
    + assert (Hch : (h =? c) = false).
      { apply N.eqb_neq. intros ->. eapply Hne; eauto. }
      split.
      * unfold includes in *. cbn [anywhere]. rewrite Hin', orb_false_r.
        unfold startsWith. cbn [stripPrefix]. rewrite Hch. reflexivity.
      * intros _. unfold startsWith. cbn [stripPrefix]. rewrite Hch. reflexivity.
Qed.

(** The first and the last unit outside the class stay where they
    are. *)
Lemma replaceRuns_startsWith s :
  p h = true ->
  startsWith s [h] = false ->
  (forall c, p c = true -> c = h) ->
  startsWith (replaceRunsFrom p [h] false s) [h] = false.
Proof.
  intros Hh Hs Hclass. destruct s as [|c s]; [reflexivity|].
  cbn [replaceRunsFrom]. unfold startsWith in *. cbn [stripPrefix] in *.
  destruct (N.eqb_spec h c) as [->|Hne]; [destruct s; discriminate|].
  destruct (p c) eqn:Hc; [exfalso; apply Hne; symmetry; apply Hclass; exact Hc|].
  cbn [stripPrefix]. destruct (N.eqb_spec h c); [contradiction|reflexivity].
Qed.

Lemma replaceRuns_snoc s c : forall b,
  p c = false ->
  replaceRunsFrom p [h] b (s ++ [c]) = replaceRunsFrom p [h] b s ++ [c].
Proof.
  induction s as [|a s IH]; intros b Hc; cbn.
  - rewrite Hc. reflexivity.
  - destruct (p a).
    + rewrite IH by exact Hc. destruct b; reflexivity.
    + rewrite IH by exact Hc. reflexivity.
Qed.

Lemma endsWith_unit (s : jstring) :
  endsWith s [h] = false <-> (s = [] \/ exists t c, s = t ++ [c] /\ c <> h).
Proof.
  unfold endsWith, startsWith. destruct s as [|a s] using rev_ind.
  - cbn. split; [left; reflexivity|reflexivity].
  - rewrite rev_app_distr. cbn [rev app stripPrefix].
    destruct (N.eqb_spec h a) as [->|Hne].
    + split; [discriminate|].
      intros [Hnil|(t & c & Heq & Hc)].
      * destruct s; discriminate.
      * apply app_inj_tail in Heq as [_ ->]. contradiction.
    + split; [|reflexivity]. intros _. right. exists s, a. split; [reflexivity|congruence].
Qed.

Lemma replaceRuns_endsWith s :
  (forall c, p c = true -> c = h) ->
  endsWith s [h] = false ->
  endsWith (replaceRunsFrom p [h] false s) [h] = false.
Proof.
  intros Hclass Hs. apply endsWith_unit in Hs. apply endsWith_unit.
  destruct Hs as [->|(t & c & -> & Hc)]; [left; reflexivity|].
  right. exists (replaceRunsFrom p [h] false t), c. split; [|exact Hc].
  apply replaceRuns_snoc.
  destruct (p c) eqn:Hpc; [|reflexivity]. exfalso. apply Hc, Hclass, Hpc.
Qed.

End Runs.

Lemma dropWhile_none p s :
  (s = [] \/ exists c t, s = c :: t /\ p c = false) -> dropWhile p s = s.
Proof. intros [->|(c & t & -> & Hc)]; cbn; [reflexivity|]. rewrite Hc. reflexivity. Qed.

(** Stripping a class from both ends leaves no unit of it at either end. *)
Lemma strip_ends p s :
  let r := rev (dropWhile p (rev (dropWhile p s))) in
  (forall c t, r = c :: t -> p c = false)
  /\ (forall t c, r = t ++ [c] -> p c = false)
  /\ exists front back, s = front ++ r ++ back
                        /\ forallb p front = true /\ forallb p back = true.
Proof.
  intros r.
  destruct (dropWhile_suffix p s) as (front & Hfront & Hf).
  destruct (dropWhile_suffix p (rev (dropWhile p s))) as (kback & Hback & Hb).
  assert (Hsplit : dropWhile p s = r ++ rev kback).
  { rewrite <- (rev_involutive (dropWhile p s)), Hback, rev_app_distr. reflexivity. }
  split; [|split].
  - intros c t Hr.
    destruct (dropWhile p s) as [|d u] eqn:Hd.
    + symmetry in Hsplit. apply app_eq_nil in Hsplit as [Hnil _]. congruence.
    + rewrite Hr in Hsplit. cbn in Hsplit. injection Hsplit as -> _.
      eapply dropWhile_head. exact Hd.
  - intros t c Hr. unfold r in Hr.
    assert (Hrev : dropWhile p (rev (dropWhile p s)) = c :: rev t).
    { rewrite <- (rev_involutive (dropWhile p _)), Hr, rev_app_distr. reflexivity. }
    eapply dropWhile_head. exact Hrev.
  - exists front, (rev kback). split; [|split].
    + rewrite <- Hsplit. exact Hfront.
    + exact Hf.
    + rewrite forallb_rev. exact Hb.
Qed.

End JsFacts.

(* ===================================================================== *)
(** * Properties of the slug derivation *)
(* ===================================================================== *)

Module SlugFacts.

Import Slug JsFacts.

Lemma isHyphen_spec c : isHyphen c = true <-> c = 45.
Proof. unfold isHyphen. apply N.eqb_eq. Qed.

Lemma hyphen_not_alnum c : isHyphen c = true -> isSlugAlnum c = false.
Proof. intros H. apply isHyphen_spec in H. subst c. reflexivity. Qed.

Lemma dropWhile_hyphen_head s : startsWith (dropWhile isHyphen s) [45] = false.
Proof.
  destruct (dropWhile isHyphen s) as [|c t] eqn:Hd; [reflexivity|].
  apply dropWhile_head in Hd. unfold startsWith. cbn [stripPrefix].
  destruct (N.eqb_spec 45 c) as [<-|]; [discriminate|reflexivity].
Qed.

(** What [sanitizeSlug] returns is made of lower-case letters, digits
    and single hyphens, with no hyphen at either end. *)
Lemma sanitizeSlug_wellFormed value : wellFormedSlug (sanitizeSlug value).
Proof.
  unfold wellFormedSlug, sanitizeSlug, replaceRuns.
  change (js "-") with [45]. change (js "--") with [45; 45].
  set (hyphenated := replaceRunsFrom notSlugUnit [45] false (toLowerCase value)).
  set (front := dropWhile isHyphen hyphenated).
  set (back := dropWhile isHyphen (rev front)).
  assert (Hunits : forallb slugUnit (rev back) = true).
  { rewrite forallb_rev. apply forallb_dropWhile. rewrite forallb_rev.
    apply forallb_dropWhile. apply replaceRuns_forallb; [reflexivity|].
    intros c Hc _. unfold notSlugUnit in Hc. apply negb_false_iff in Hc.
    unfold slugUnit. rewrite Hc. reflexivity. }
  assert (Hfront : startsWith (rev back) [45] = false).
  { destruct (dropWhile_suffix isHyphen (rev front)) as (k & Hk & _).
    fold back in Hk.
    assert (Hsplit : front = rev back ++ rev k).
    { rewrite <- (rev_involutive front), Hk, rev_app_distr. reflexivity. }
    pose proof (dropWhile_hyphen_head hyphenated) as Hhead. fold front in Hhead.
    destruct (rev back) as [|c t]; [reflexivity|].
    rewrite Hsplit in Hhead. unfold startsWith in *. cbn [app stripPrefix] in *.
    destruct (45 =? c); [destruct (t ++ rev k); discriminate|reflexivity]. }
  assert (Hback : endsWith (rev back) [45] = false).
  { unfold endsWith. rewrite rev_involutive. apply dropWhile_hyphen_head. }
  repeat split.
  - apply replaceRuns_forallb; [reflexivity|].
    intros c _ Hin. rewrite forallb_forall in Hunits. apply Hunits. exact Hin.
  - apply replaceRuns_single; [reflexivity|].
    intros c Hc ->. discriminate.
  - apply replaceRuns_startsWith; [reflexivity|exact Hfront|].
    intros c. apply isHyphen_spec.
  - apply replaceRuns_endsWith; [|exact Hback].
    intros c. apply isHyphen_spec.
Qed.

(** It keeps the letters and digits of the lower-cased input, in their
    order: only what lies between them is rewritten. *)
Lemma sanitizeSlug_alnum value :
  List.filter isSlugAlnum (sanitizeSlug value)
  = List.filter isSlugAlnum (toLowerCase value).
Proof.
  unfold sanitizeSlug, replaceRuns. change (js "-") with [45].
  rewrite replaceRuns_filter by (reflexivity || apply hyphen_not_alnum).
  rewrite filter_rev, filter_dropWhile by apply hyphen_not_alnum.
  rewrite filter_rev, rev_involutive, filter_dropWhile by apply hyphen_not_alnum.
  apply replaceRuns_filter; [reflexivity|].
  intros c Hc. unfold notSlugUnit in Hc. apply negb_true_iff in Hc. exact Hc.
Qed.


Lemma absMatch_abs id rest :
  id <> [] -> forallb idUnit id = true ->
  (rest = [] \/ exists c t, rest = c :: t /\ idUnit c = false) ->
  absMatch (js "/abs/" ++ id ++ rest) = Some id.
Proof.
  intros Hne Hall Hrest. unfold absMatch.
  rewrite stripPrefix_app, takeWhile_all by assumption.
  destruct id; [contradiction|reflexivity].
Qed.

Lemma absMatch_pdf rest : absMatch (js "/pdf/" ++ rest) = None.
Proof. reflexivity. Qed.

Lemma pdfMatch_suffixed id :
  id <> [] -> forallb idUnit id = true ->
  pdfMatch (js "/pdf/" ++ id ++ js ".pdf") = Some id.
Proof.
  intros Hne Hall. unfold pdfMatch. rewrite stripPrefix_app.
  assert (nonEmpty (id ++ js ".pdf") = true) as -> by (destruct id; [contradiction|reflexivity]).
  rewrite forallb_app, Hall.
  assert (endsWith (id ++ js ".pdf") (js ".pdf") = true) as ->
    by (apply endsWith_true; eauto).
  rewrite length_app. change (length (js ".pdf")) with 4%nat.
  assert ((4 <? length id + 4)%nat = true) as ->.
  { apply Nat.ltb_lt. destruct id; [contradiction|cbn; lia]. }
  cbn [andb forallb]. change (forallb idUnit (js ".pdf")) with true. cbn [andb].
  f_equal. replace (length id + 4 - 4)%nat with (length id) by lia.
  apply take_app_length.
Qed.

Lemma pdfMatch_plain id :
  id <> [] -> forallb idUnit id = true ->
  (forall id', id' <> [] -> id <> id' ++ js ".pdf") ->
  pdfMatch (js "/pdf/" ++ id) = Some id.
Proof.
  intros Hne Hall Hplain. unfold pdfMatch. rewrite stripPrefix_app, Hall.
  assert (nonEmpty id = true) as -> by (destruct id; [contradiction|reflexivity]).
  cbn [andb].
  destruct (endsWith id (js ".pdf") && (4 <? length id)%nat) eqn:Hends; [|reflexivity].
  exfalso. apply andb_true_iff in Hends as [Hends Hlen].
  apply endsWith_true in Hends as [k ->]. apply Nat.ltb_lt in Hlen.
  apply (Hplain k); [|reflexivity].
  intros ->. cbn in Hlen. change (length (js ".pdf")) with 4%nat in Hlen. lia.
Qed.

Lemma parseArxivId_path u id :
  endsWith (hostname u) (js "arxiv.org") = true ->
  ArxivPath (pathname u) id ->
  parseArxivId u = Some id.
Proof.
  intros Hhost Hpath. unfold parseArxivId. rewrite Hhost. cbn [negb].
  destruct Hpath as [id rest Hne Hall Hrest|id Hne Hall|id Hne Hall Hplain].
  - rewrite absMatch_abs by assumption. reflexivity.
  - rewrite absMatch_pdf, pdfMatch_suffixed by assumption. reflexivity.
  - rewrite absMatch_pdf, pdfMatch_plain by assumption. reflexivity.
Qed.




Lemma absMatch_sound path id :
  absMatch path = Some id ->
  exists rest, path = js "/abs/" ++ id ++ rest
               /\ id <> [] /\ forallb idUnit id = true
               /\ (rest = [] \/ exists c t, rest = c :: t /\ idUnit c = false).
Proof.
  unfold absMatch. destruct (stripPrefix (js "/abs/") path) as [after|] eqn:Hs; [|discriminate].
  apply stripPrefix_Some in Hs. subst path.
  destruct (nonEmpty (takeWhile idUnit after)) eqn:Hne; [|discriminate].
  intros [= <-]. exists (dropWhile idUnit after).
  split; [f_equal; apply takeWhile_dropWhile|]. split; [|split].
  - intros Hnil. rewrite Hnil in Hne. discriminate.
  - apply takeWhile_forallb.
  - destruct (dropWhile idUnit after) as [|c t] eqn:Hd; [left; reflexivity|].
    right. exists c, t. split; [reflexivity|]. eapply dropWhile_head. exact Hd.
Qed.

Lemma pdfMatch_sound path id :
  pdfMatch path = Some id ->
  id <> [] /\ forallb idUnit id = true
  /\ (path = js "/pdf/" ++ id ++ js ".pdf"
      \/ (path = js "/pdf/" ++ id /\ forall id', id' <> [] -> id <> id' ++ js ".pdf")).
Proof.
  unfold pdfMatch. destruct (stripPrefix (js "/pdf/") path) as [rest|] eqn:Hs; [|discriminate].
  apply stripPrefix_Some in Hs. subst path.
  destruct (nonEmpty rest && forallb idUnit rest) eqn:Hok; [|discriminate].
  apply andb_true_iff in Hok as [Hne Hall].
  destruct (endsWith rest (js ".pdf") && (4 <? length rest)%nat) eqn:Hends; intros [= <-].
  - apply andb_true_iff in Hends as [Hends Hlen].
    apply endsWith_true in Hends as [k ->]. apply Nat.ltb_lt in Hlen.
    rewrite length_app in *. change (length (js ".pdf")) with 4%nat in *.
    replace (length k + 4 - 4)%nat with (length k) by lia. rewrite take_app_length.
    rewrite forallb_app in Hall. apply andb_true_iff in Hall as [Hk _].
    split; [destruct k; [cbn in Hlen; lia|discriminate]|]. split; [exact Hk|].
    left. reflexivity.
  - split; [destruct rest; discriminate|]. split; [exact Hall|]. right.
    split; [reflexivity|]. intros id' Hid' ->.
    assert (endsWith (id' ++ js ".pdf") (js ".pdf") = true) as He
        by (apply endsWith_true; eauto).
    assert ((4 <? length (id' ++ js ".pdf"))%nat = true) as Hl.
    { apply Nat.ltb_lt. rewrite length_app. change (length (js ".pdf")) with 4%nat.
      destruct id'; [contradiction|cbn; lia]. }
    rewrite He, Hl in Hends. discriminate.
Qed.

Lemma parseArxivId_sound u id :
  parseArxivId u = Some id ->
  endsWith (hostname u) (js "arxiv.org") = true /\ ArxivPath (pathname u) id.
Proof.
  unfold parseArxivId.
  destruct (endsWith (hostname u) (js "arxiv.org")); cbn [negb]; [|discriminate].
  intros H. split; [reflexivity|].
  destruct (absMatch (pathname u)) as [a|] eqn:Ha.
  - injection H as ->. apply absMatch_sound in Ha as (rest & -> & Hne & Hall & Hrest).
    apply abs_path; assumption.
  - destruct (pdfMatch (pathname u)) as [a|] eqn:Hp; [|discriminate].
    injection H as ->. apply pdfMatch_sound in Hp as (Hne & Hall & [-> | [-> Hplain]]).
    + apply pdf_path_suffixed; assumption.
    + apply pdf_path_plain; assumption.
Qed.

End SlugFacts.

(* ===================================================================== *)
(** * Properties of the report validator *)
(* ===================================================================== *)

Module ReportFacts.

Import Report JsFacts.

Lemma includes_true s p :
  includes s p = true <-> exists before rest, s = before ++ p ++ rest.
Proof.
  unfold includes. rewrite anywhere_true. split.
  - intros (before & rest & -> & H). apply startsWith_true in H as [r ->]. eauto.
  - intros (before & rest & ->). exists before, (p ++ rest). split; [reflexivity|].
    apply startsWith_true. eauto.
Qed.

Lemma citationAt_spec s : citationAt s = true <-> CitationHere s.
Proof.
  unfold CitationHere. split.
  - destruct s as [|c t]; [discriminate|]. cbn [citationAt].
    intros H. apply andb_true_iff in H as [H Hclose]. apply andb_true_iff in H as [Hopen Hdigits].
    apply N.eqb_eq in Hopen. subst c.
    destruct (dropWhile isDigit t) as [|d rest] eqn:Hdrop; [discriminate|].
    apply N.eqb_eq in Hclose. subst d.
    exists (takeWhile isDigit t), rest. split; [|split].
    + intros Hnil. rewrite Hnil in Hdigits. discriminate.
    + apply takeWhile_forallb.
    + cbn [app]. f_equal. rewrite <- Hdrop. apply takeWhile_dropWhile.
  - intros (digits & rest & Hne & Hall & ->). cbn [app citationAt].
    rewrite N.eqb_refl.
    rewrite takeWhile_all, dropWhile_all; try assumption;
      try (right; exists 93, rest; split; reflexivity).
    rewrite N.eqb_refl. destruct digits; [contradiction|reflexivity].
Qed.

Lemma urlAt_spec s : urlAt s = true <-> UrlHere s.
Proof.
  unfold UrlHere. split.
  - unfold urlAt. destruct (stripPrefix (js "http") s) as [r|] eqn:Hr; [|discriminate].
    apply stripPrefix_Some in Hr. subst s.
    assert (Hplain : forall r0,
               match stripPrefix (js "://") r0 with
               | Some (c :: _) => negb (isWhiteSpace c)
               | _ => false
               end = true ->
               exists c rest, isWhiteSpace c = false /\ r0 = js "://" ++ c :: rest).
    { intros r0 H. destruct (stripPrefix (js "://") r0) as [[|c rest]|] eqn:Hs; try discriminate.
      apply stripPrefix_Some in Hs. apply negb_true_iff in H. eauto. }
    destruct r as [|c r1].
    + intros H. apply Hplain in H as (c & rest & _ & H). discriminate H.
    + destruct (N.eqb_spec c 115) as [->|Hc]; intros H;
        apply Hplain in H as (d & rest & Hd & ->).
      * exists (js "https://"), d, rest. repeat split; auto.
      * exists (js "http://"), d, rest. repeat split; auto.
  - intros (scheme & c & rest & [-> | ->] & Hc & ->); unfold urlAt.
    + change (js "http://" ++ c :: rest) with (js "http" ++ (js "://" ++ c :: rest)).
      rewrite stripPrefix_app.
      change (js "://" ++ c :: rest) with (58 :: js "//" ++ c :: rest).
      cbn [N.eqb Pos.eqb].
      change (58 :: js "//" ++ c :: rest) with (js "://" ++ c :: rest).
      rewrite stripPrefix_app, Hc. reflexivity.
    + change (js "https://" ++ c :: rest) with (js "http" ++ (115 :: js "://" ++ c :: rest)).
      rewrite stripPrefix_app. rewrite N.eqb_refl, stripPrefix_app, Hc. reflexivity.
Qed.

Lemma hasBracketCitation_spec s : hasBracketCitation s = true <-> Occurs CitationHere s.
Proof.
  unfold hasBracketCitation, Occurs. rewrite anywhere_true.
  split; intros (before & rest & Hs & H); exists before, rest; split; auto;
    apply citationAt_spec; exact H.
Qed.

Lemma hasUrl_spec s : hasUrl s = true <-> Occurs UrlHere s.
Proof.
  unfold hasUrl, Occurs. rewrite anywhere_true.
  split; intros (before & rest & Hs & H); exists before, rest; split; auto;
    apply urlAt_spec; exact H.
Qed.

Lemma hasComparisonKeywordIn_spec s :
  hasComparisonKeywordIn s = true <-> Occurs KeywordHere s.
Proof.
  unfold hasComparisonKeywordIn, Occurs, KeywordHere. rewrite existsb_exists. split.
  - intros (keyword & Hin & H). apply includes_true in H as (before & rest & H).
    unfold toLowerCase in H. apply map_eq_app in H as (before' & tail' & -> & _ & Htail).
    exists before', tail'. split; [reflexivity|]. exists keyword, rest. split; assumption.
  - intros (before & rest & -> & keyword & r & Hin & H).
    exists keyword. split; [exact Hin|]. apply includes_true.
    exists (toLowerCase before), r. unfold toLowerCase in *. rewrite map_app, H. reflexivity.
Qed.

Lemma inlineSpace_not_terminator c : isLineTerminator c = true -> isInlineSpace c = false.
Proof. intros H. unfold isInlineSpace. rewrite H. apply andb_false_r. Qed.

Lemma headingAt_spec heading s :
  headingAt heading s = true
  <-> exists spaces rest,
        s = heading ++ spaces ++ rest
        /\ forallb isInlineSpace spaces = true
        /\ (rest = [] \/ exists c t, rest = c :: t /\ isLineTerminator c = true).
Proof.
  unfold headingAt. split.
  - destruct (stripPrefix heading s) as [after|] eqn:Hs; [|discriminate].
    apply stripPrefix_Some in Hs. subst s. intros H.
    exists (takeWhile isInlineSpace after), (dropWhile isInlineSpace after).
    split; [f_equal; apply takeWhile_dropWhile|]. split; [apply takeWhile_forallb|].
    destruct (dropWhile isInlineSpace after) as [|c t]; [left; reflexivity|].
    right. exists c, t. split; [reflexivity|exact H].
  - intros (spaces & rest & -> & Hall & Hrest). rewrite stripPrefix_app.
    rewrite dropWhile_all; [| exact Hall |].
    + destruct Hrest as [->|(c & t & -> & Hc)]; [reflexivity|exact Hc].
    + destruct Hrest as [->|(c & t & -> & Hc)]; [left; reflexivity|].
      right. exists c, t. split; [reflexivity|]. apply inlineSpace_not_terminator. exact Hc.
Qed.

Lemma headingFrom_spec heading : forall s atLineStart,
  headingFrom heading atLineStart s = true
  <-> exists before spaces rest,
        s = before ++ heading ++ spaces ++ rest
        /\ ((before = [] /\ atLineStart = true)
            \/ exists b c, before = b ++ [c] /\ isLineTerminator c = true)
        /\ forallb isInlineSpace spaces = true
        /\ (rest = [] \/ exists c t, rest = c :: t /\ isLineTerminator c = true).
Proof.
  induction s as [|c s IH]; intros atLineStart; cbn [headingFrom].
  - rewrite orb_false_r, andb_true_iff, headingAt_spec. split.
    + intros (-> & spaces & rest & Hs & Hall & Hrest).
      exists [], spaces, rest. repeat split; auto.
    + intros (before & spaces & rest & Hs & Hbefore & Hall & Hrest).
      destruct before as [|b before]; [|discriminate Hs].
      destruct Hbefore as [[_ ->]|(b & c & Hb & _)]; [|destruct b; discriminate].
      split; [reflexivity|]. exists spaces, rest. repeat split; auto.
  - rewrite orb_true_iff, andb_true_iff, headingAt_spec, IH. split.
    + intros [(-> & spaces & rest & Hs & Hall & Hrest)
             |(before & spaces & rest & Hs & Hbefore & Hall & Hrest)].
      * exists [], spaces, rest. repeat split; auto.
      * exists (c :: before), spaces, rest. split; [cbn; f_equal; exact Hs|].
        split; [|split; assumption]. right.
        destruct Hbefore as [[-> Hc]|(b & d & -> & Hd)].
        -- exists [], c. split; [reflexivity|exact Hc].
        -- exists (c :: b), d. split; [reflexivity|exact Hd].
    + intros (before & spaces & rest & Hs & Hbefore & Hall & Hrest).
      destruct before as [|c' before].
      * left. destruct Hbefore as [[_ ->]|(b & d & Hb & _)]; [|destruct b; discriminate].
        split; [reflexivity|]. exists spaces, rest. repeat split; auto.
      * right. cbn [app] in Hs. injection Hs as -> Hs.
        exists before, spaces, rest. split; [exact Hs|]. split; [|split; assumption].
        destruct Hbefore as [[Hnil _]|(b & d & Hb & Hd)]; [discriminate|].
        destruct b as [|b0 b]; cbn [app] in Hb; injection Hb as -> Hb.
        -- left. subst before. split; [reflexivity|exact Hd].
        -- right. exists b, d. split; assumption.
Qed.

Lemma hasHeading_spec markdown heading :
  hasHeading markdown heading = true <-> HeadingLine markdown heading.
Proof.
  unfold hasHeading, HeadingLine. rewrite headingFrom_spec.
  split; intros (before & spaces & rest & Hs & Hbefore & Hall & Hrest);
    exists before, spaces, rest; repeat split; auto.
  - destruct Hbefore as [[-> _]|H]; [left; reflexivity|right; exact H].
  - destruct Hbefore as [->|H]; [left; split; reflexivity|right; exact H].
Qed.

Lemma missing_headings_spec markdown heading :
  In heading (missingHeadings (validateReport markdown))
  <-> In heading REQUIRED_REPORT_HEADINGS /\ hasHeading markdown heading = false.
Proof.
  cbn [validateReport missingHeadings]. rewrite List.filter_In, negb_true_iff. reflexivity.
Qed.

Lemma filter_none_iff {A} (f : A -> bool) (l : list A) :
  (length (List.filter f l) =? 0)%nat = true <-> forall x, In x l -> f x = false.
Proof.
  rewrite Nat.eqb_eq. induction l as [|a l IH]; cbn.
  - split; [intros _ x []|reflexivity].
  - destruct (f a) eqn:Ha; cbn.
    + split; [discriminate|]. intros H. rewrite (H a) in Ha by (left; reflexivity).
      discriminate.
    + rewrite IH. split.
      * intros H x [<-|Hx]; auto.
      * intros H x Hx. apply H. right. exact Hx.
Qed.

(** ** Sections: what the functions compute is what the words say *)

Lemma Trimmed_trim s : Trimmed s (trim s).
Proof.
  destruct (strip_ends isWhiteSpace s) as (Hhead & Hlast & front & back & Hs & Hf & Hb).
  exists front, back. repeat split; assumption.
Qed.

Lemma Trimmed_spec s t : Trimmed s t <-> t = trim s.
Proof.
  split; [|intros ->; apply Trimmed_trim].
  intros (front & back & -> & Hf & Hb & Hhead & Hlast).
  unfold trim, trimEnd, trimStart.
  destruct t as [|c r].
  - cbn [app]. rewrite <- (app_nil_r (front ++ back)).
    rewrite (dropWhile_all isWhiteSpace (front ++ back) []);
      [reflexivity| |left; reflexivity].
    rewrite forallb_app, Hf, Hb. reflexivity.
  - rewrite (dropWhile_all isWhiteSpace front ((c :: r) ++ back) Hf).
    2:{ right. exists c, (r ++ back). split; [reflexivity|]. eapply Hhead. reflexivity. }
    rewrite rev_app_distr.
    destruct (exists_last (l := c :: r) ltac:(discriminate)) as (r' & c' & Hlastc).
    rewrite Hlastc, rev_app_distr. cbn [rev app].
    rewrite (dropWhile_all isWhiteSpace (rev back) (c' :: rev r')).
    + cbn [rev]. rewrite rev_involutive. reflexivity.
    + rewrite forallb_rev. exact Hb.
    + right. exists c', (rev r'). split; [reflexivity|]. eapply Hlast. exact Hlastc.
Qed.

Lemma SameOnceTrimmed_spec a b : SameOnceTrimmed a b <-> trim a = trim b.
Proof.
  split.
  - intros (t & Ha & Hb). apply Trimmed_spec in Ha, Hb. congruence.
  - intros H. exists (trim a). split; [apply Trimmed_trim|]. rewrite H. apply Trimmed_trim.
Qed.

Lemma normalizeNewlines_cons c d s :
  normalizeNewlines (c :: d :: s)
  = if (c =? 13) && (d =? 10) then 10 :: normalizeNewlines s
    else c :: normalizeNewlines (d :: s).
Proof. reflexivity. Qed.

Lemma WithoutCr_normalizeNewlines s : WithoutCr s (normalizeNewlines s).
Proof.
  assert (H : forall n s, (length s <= n)%nat -> WithoutCr s (normalizeNewlines s)).
  { clear s. induction n as [|n IH]; intros [|c [|d s]] Hlen; cbn [length] in Hlen;
      try lia; try apply cr_none.
    - apply (cr_kept c [] []); [right; discriminate|apply cr_none].
    - rewrite normalizeNewlines_cons.
      destruct (N.eqb_spec c 13) as [->|Hc]; [destruct (N.eqb_spec d 10) as [->|Hd]|];
        cbn [andb].
      + apply cr_left_out. apply IH. lia.
      + apply cr_kept; [right; intros r [= ? _]; contradiction|]. apply IH. cbn. lia.
      + apply cr_kept; [left; exact Hc|]. apply IH. cbn. lia. }
  apply (H (length s)). lia.
Qed.

Lemma WithoutCr_spec s t : WithoutCr s t <-> t = normalizeNewlines s.
Proof.
  split; [|intros ->; apply WithoutCr_normalizeNewlines].
  induction 1 as [|s t _ IH|c s t Hkept _ IH];
    [reflexivity|rewrite normalizeNewlines_cons; cbn; congruence|].
  destruct s as [|d s]; [cbn in *; congruence|].
  rewrite normalizeNewlines_cons.
  destruct Hkept as [Hc|Hd].
  - rewrite (proj2 (N.eqb_neq c 13) Hc). cbn [andb]. congruence.
  - destruct (N.eqb_spec d 10) as [->|Hne]; [exfalso; eapply Hd; reflexivity|].
    rewrite andb_false_r. congruence.
Qed.

Lemma splitOn_plain l : ~ In 10 l -> splitOn 10 l = [l].
Proof.
  induction l as [|c l IH]; intros Hl; [reflexivity|]. cbn [splitOn].
  destruct (N.eqb_spec c 10) as [->|Hc]; [exfalso; apply Hl; left; reflexivity|].
  rewrite IH; [reflexivity|]. intros Hin. apply Hl. right. exact Hin.
Qed.

Lemma splitOn_line l s : ~ In 10 l -> splitOn 10 (l ++ 10 :: s) = l :: splitOn 10 s.
Proof.
  induction l as [|c l IH]; intros Hl; [reflexivity|]. cbn [app splitOn].
  destruct (N.eqb_spec c 10) as [->|Hc]; [exfalso; apply Hl; left; reflexivity|].
  rewrite IH; [reflexivity|]. intros Hin. apply Hl. right. exact Hin.
Qed.

Lemma LinesOf_splitOn s : LinesOf s (splitOn 10 s).
Proof.
  induction s as [|c s IH]; [apply last_line; intros []|]. cbn [splitOn].
  destruct (N.eqb_spec c 10) as [->|Hc].
  - apply (next_line [] s); [intros []|exact IH].
  - inversion IH as [l Hl Hs Hsplit|l s' ls Hl Hrest Hs Hsplit]; subst.
    + apply last_line. intros [Heq|Hin]; [congruence|contradiction].
    + apply (next_line (c :: l) s' ls); [|exact Hrest].
      intros [Heq|Hin]; [congruence|contradiction].
Qed.

Lemma LinesOf_spec s ls : LinesOf s ls <-> ls = splitOn 10 s.
Proof.
  split; [|intros ->; apply LinesOf_splitOn].
  induction 1 as [l Hl|l s ls Hl _ IH].
  - rewrite splitOn_plain by exact Hl. reflexivity.
  - rewrite splitOn_line by exact Hl. congruence.
Qed.

Lemma Joined_spec ls s : Joined ls s <-> s = join [10] ls.
Proof.
  split.
  - induction 1 as [|l|l l' ls s _ IH]; [reflexivity|reflexivity|].
    cbn [join] in *. rewrite IH. reflexivity.
  - intros ->. induction ls as [|l [|l' ls] IH];
      [apply joined_none|apply joined_last|].
    apply (joined_next l l' ls). exact IH.
Qed.

Lemma hashRun_spec s :
  s = repeat 35 (fst (hashRun s)) ++ snd (hashRun s)
  /\ forall c r, snd (hashRun s) = c :: r -> c <> 35.
Proof.
  induction s as [|c s [IH1 IH2]]; cbn [hashRun].
  - split; [reflexivity|discriminate].
  - destruct (N.eqb_spec c 35) as [->|Hc].
    + destruct (hashRun s) as [n r]. cbn [fst snd repeat app] in *.
      split; [congruence|exact IH2].
    + cbn [fst snd repeat app]. split; [reflexivity|]. intros d r [= <- _]. exact Hc.
Qed.

Lemma hashRun_repeat n w rest :
  w <> 35 -> hashRun (repeat 35 n ++ w :: rest) = (n, w :: rest).
Proof.
  intros Hw. induction n as [|n IH]; cbn [repeat app hashRun].
  - rewrite (proj2 (N.eqb_neq w 35) Hw). reflexivity.
  - rewrite IH. reflexivity.
Qed.

Lemma HeadingOfDepth_spec n line : HeadingOfDepth n line <-> headingMarker line = Some n.
Proof.
  unfold HeadingOfDepth, headingMarker. split.
  - intros (Hn & w & rest & -> & Hw).
    rewrite hashRun_repeat by (intros ->; discriminate).
    destruct n; [lia|]. rewrite Hw. reflexivity.
  - destruct (hashRun_spec line) as [Hline _].
    destruct (hashRun line) as [[|m] [|c r]]; try discriminate. cbn [fst snd] in Hline.
    destruct (isWhiteSpace c) eqn:Hc; [|discriminate]. intros [= <-].
    split; [lia|]. exists c, r. split; assumption.
Qed.

Lemma SectionDepth_spec heading level :
  SectionDepth heading level
  <-> level = match headingMarker heading with Some n => n | None => 1%nat end.
Proof.
  unfold SectionDepth. split.
  - intros [H|[Hnone ->]].
    + apply HeadingOfDepth_spec in H. rewrite H. reflexivity.
    + destruct (headingMarker heading) as [n|] eqn:Hm; [|reflexivity].
      apply HeadingOfDepth_spec in Hm. destruct (Hnone n Hm).
  - intros ->. destruct (headingMarker heading) as [n|] eqn:Hm.
    + left. apply HeadingOfDepth_spec. exact Hm.
    + right. split; [|reflexivity]. intros n Hn. apply HeadingOfDepth_spec in Hn. congruence.
Qed.

Lemma ClosesSection_spec level line :
  ClosesSection level line
  <-> exists n, headingMarker (trim line) = Some n /\ (n <=? level)%nat = true.
Proof.
  unfold ClosesSection. split.
  - intros (t & n & Ht & Hn & Hle). apply Trimmed_spec in Ht. subst t.
    exists n. split; [apply HeadingOfDepth_spec; exact Hn|apply Nat.leb_le; exact Hle].
  - intros (n & Hn & Hle). exists (trim line), n.
    split; [apply Trimmed_trim|]. split; [apply HeadingOfDepth_spec; exact Hn|].
    apply Nat.leb_le. exact Hle.
Qed.

(** The first line that is the heading once trimmed. *)
Lemma afterHeading_Some heading lines rest :
  afterHeading heading lines = Some rest
  <-> exists before line,
        lines = before ++ line :: rest
        /\ Forall (fun l => ~ SameOnceTrimmed l heading) before
        /\ SameOnceTrimmed line heading.
Proof.
  split.
  - induction lines as [|l lines IH]; cbn [afterHeading]; [discriminate|].
    unfold eqb. destruct (bool_decide_reflect (trim l = trim heading)) as [Heq|Hne].
    + intros [= <-]. exists [], l. split; [reflexivity|]. split; [constructor|].
      apply SameOnceTrimmed_spec. exact Heq.
    + intros H. destruct (IH H) as (before & line & -> & Hbefore & Hline).
      exists (l :: before), line. split; [reflexivity|]. split; [|exact Hline].
      constructor; [|exact Hbefore]. rewrite SameOnceTrimmed_spec. exact Hne.
  - intros (before & line & -> & Hbefore & Hline).
    apply SameOnceTrimmed_spec in Hline.
    induction before as [|l before IH]; cbn [app afterHeading]; unfold eqb.
    + rewrite bool_decide_eq_true_2 by exact Hline. reflexivity.
    + apply Forall_cons in Hbefore as [Hl Hbefore]. rewrite SameOnceTrimmed_spec in Hl.
      rewrite bool_decide_eq_false_2 by exact Hl. apply IH. exact Hbefore.
Qed.

Lemma afterHeading_None heading lines :
  afterHeading heading lines = None
  <-> Forall (fun l => ~ SameOnceTrimmed l heading) lines.
Proof.
  induction lines as [|l lines IH]; cbn [afterHeading].
  - split; [constructor|reflexivity].
  - unfold eqb. destruct (bool_decide_reflect (trim l = trim heading)) as [Heq|Hne].
    + split; [discriminate|]. intros H. apply Forall_cons in H as [Hl _].
      exfalso. apply Hl. apply SameOnceTrimmed_spec. exact Heq.
    + rewrite IH. split.
      * intros H. constructor; [rewrite SameOnceTrimmed_spec; exact Hne|exact H].
      * intros H. apply Forall_cons in H as [_ H]. exact H.
Qed.

(** The lines of a section are those before the first line that closes
    it. *)
Lemma sectionLines_iff level lines inside :
  sectionLines level lines = inside
  <-> exists after,
        lines = inside ++ after
        /\ Forall (fun l => ~ ClosesSection level l) inside
        /\ (after = [] \/ exists l r, after = l :: r /\ ClosesSection level l).
Proof.
  revert inside. induction lines as [|l lines IH]; intros inside; cbn [sectionLines].
  - split.
    + intros <-. exists []. split; [reflexivity|]. split; [constructor|left; reflexivity].
    + intros (after & H & _). symmetry in H. apply app_eq_nil in H as [-> _]. reflexivity.
  - assert (Hcloses : ClosesSection level l
                      <-> exists n, headingMarker (trim l) = Some n
                                    /\ (n <=? level)%nat = true)
      by apply ClosesSection_spec.
    destruct (headingMarker (trim l)) as [n|] eqn:Hm;
      [destruct (n <=? level)%nat eqn:Hle|].
    + (* the line closes the section *)
      assert (Hl : ClosesSection level l) by (apply Hcloses; eauto).
      split.
      * intros <-. exists (l :: lines). split; [reflexivity|]. split; [constructor|].
        right. eauto.
      * intros (after & Hsplit & Hin & _). destruct inside as [|i inside]; [reflexivity|].
        injection Hsplit as <- _. apply Forall_cons in Hin as [Hi _]. contradiction.
    + (* a deeper heading *)
      assert (Hl : ~ ClosesSection level l).
      { intros H. apply Hcloses in H as (n' & [= <-] & H). congruence. }
      split.
      * intros <-. destruct (proj1 (IH _) eq_refl) as (after & Hsplit & Hin & Hafter).
        exists after. split; [cbn; congruence|]. split; [constructor; assumption|exact Hafter].
      * intros (after & Hsplit & Hin & Hafter). destruct inside as [|i inside].
        -- cbn in Hsplit. subst after.
           destruct Hafter as [H|(l' & r & [= <- _] & H)]; [discriminate|contradiction].
        -- injection Hsplit as <- Hsplit. apply Forall_cons in Hin as [_ Hin].
           f_equal. apply IH. exists after. split; [exact Hsplit|]. split; assumption.
    + (* no heading *)
      assert (Hl : ~ ClosesSection level l).
      { intros H. apply Hcloses in H as (n' & [=] & _). }
      split.
      * intros <-. destruct (proj1 (IH _) eq_refl) as (after & Hsplit & Hin & Hafter).
        exists after. split; [cbn; congruence|]. split; [constructor; assumption|exact Hafter].
      * intros (after & Hsplit & Hin & Hafter). destruct inside as [|i inside].
        -- cbn in Hsplit. subst after.
           destruct Hafter as [H|(l' & r & [= <- _] & H)]; [discriminate|contradiction].
        -- injection Hsplit as <- Hsplit. apply Forall_cons in Hin as [_ Hin].
           f_equal. apply IH. exists after. split; [exact Hsplit|]. split; assumption.
Qed.

(** [getSectionBody] computes the body of the section, and nothing else
    is the body of the section. *)
Lemma getSectionBody_spec markdown heading body :
  SectionBody markdown heading body <-> getSectionBody markdown heading = body.
Proof.
  unfold SectionBody, getSectionBody. split.
  - intros (normalized & lines & Hn & Hlines & Hbody).
    apply WithoutCr_spec in Hn. apply LinesOf_spec in Hlines. subst normalized lines.
    destruct Hbody as [[Hnone ->]|(before & line & inside & after & level & joined
                                   & Hsplit & Hbefore & Hline & Hlevel & Hin & Hafter
                                   & Hjoined & Hbody)].
    + apply afterHeading_None in Hnone. rewrite Hnone. reflexivity.
    + assert (Hfound : afterHeading heading (splitOn 10 (normalizeNewlines markdown))
                       = Some (inside ++ after))
        by (apply afterHeading_Some; eauto).
      rewrite Hfound. apply SectionDepth_spec in Hlevel. rewrite <- Hlevel.
      assert (Hsection : sectionLines level (inside ++ after) = inside)
        by (apply sectionLines_iff; eauto).
      rewrite Hsection. apply Joined_spec in Hjoined. apply Trimmed_spec in Hbody.
      congruence.
  - intros <-. exists (normalizeNewlines markdown), (splitOn 10 (normalizeNewlines markdown)).
    split; [apply WithoutCr_normalizeNewlines|]. split; [apply LinesOf_splitOn|].
    destruct (afterHeading heading _) as [rest|] eqn:Hfound.
    + right. apply afterHeading_Some in Hfound as (before & line & Hsplit & Hbefore & Hline).
      set (level := match headingMarker heading with Some n => n | None => 1%nat end).
      destruct (proj1 (sectionLines_iff level rest _) eq_refl) as (after & Hrest & Hin & Hafter).
      exists before, line, (sectionLines level rest), after, level,
        (join [10] (sectionLines level rest)).
      split; [rewrite Hsplit, <- Hrest; reflexivity|]. split; [exact Hbefore|].
      split; [exact Hline|]. split; [apply SectionDepth_spec; reflexivity|].
      split; [exact Hin|]. split; [exact Hafter|].
      split; [apply Joined_spec; reflexivity|apply Trimmed_trim].
    + left. split; [apply afterHeading_None; exact Hfound|reflexivity].
Qed.

Lemma section_check markdown heading (P : jstring -> Prop) :
  P (getSectionBody markdown heading)
  <-> exists body, SectionBody markdown heading body /\ P body.
Proof.
  split.
  - intros H. exists (getSectionBody markdown heading).
    split; [apply getSectionBody_spec; reflexivity|exact H].
  - intros (body & Hbody & H). apply getSectionBody_spec in Hbody. subst body. exact H.
Qed.

(** ** Flag [i]: the same letters, said unit by unit *)

Lemma sameLetter_lowerUnit x : sameLetter x (lowerUnit x).
Proof.
  unfold sameLetter, lowerUnit. destruct (isUpperAlpha x) eqn:Hx.
  - right. left. split; reflexivity.
  - left. reflexivity.
Qed.

Lemma sameLetter_toLowerCase pattern word :
  forallb (fun y => negb (isUpperAlpha y)) pattern = true ->
  Forall2 sameLetter word pattern <-> toLowerCase word = pattern.
Proof.
  intros Hpattern. split.
  - intros H. induction H as [|x y word pattern Hxy _ IH]; [reflexivity|].
    cbn [forallb] in Hpattern. apply andb_true_iff in Hpattern as [Hy Hpattern].
    apply negb_true_iff in Hy. cbn [toLowerCase map]. f_equal; [|apply IH; exact Hpattern].
    unfold lowerUnit. destruct Hxy as [->|[[Hx ->]|[Hy' _]]].
    + rewrite Hy. reflexivity.
    + rewrite Hx. reflexivity.
    + congruence.
  - intros <-. clear Hpattern. induction word as [|x word IH]; [constructor|].
    constructor; [apply sameLetter_lowerUnit|exact IH].
Qed.

Lemma isWhiteSpace_letter x : 65 <= x <= 122 -> isWhiteSpace x = false.
Proof.
  intros Hx. unfold isWhiteSpace.
  repeat match goal with
         | |- context [N.eqb ?a ?b] => rewrite (proj2 (N.eqb_neq a b)) by lia
         | |- context [N.leb 8192 ?a] => rewrite (proj2 (N.leb_gt 8192 a)) by lia
         end.
  reflexivity.
Qed.

Lemma isWhiteSpace_lowerUnit x : isWhiteSpace (lowerUnit x) = isWhiteSpace x.
Proof.
  unfold lowerUnit. destruct (isUpperAlpha x) eqn:Hx; [|reflexivity].
  unfold isUpperAlpha in Hx. apply andb_true_iff in Hx as [H1 H2].
  apply N.leb_le in H1, H2. rewrite !isWhiteSpace_letter by lia. reflexivity.
Qed.

Lemma Occurs_iff (P Q : jstring -> Prop) s :
  (forall r, P r <-> Q r) -> Occurs P s <-> Occurs Q s.
Proof.
  intros H. unfold Occurs.
  split; intros (before & rest & Hs & Hrest); exists before, rest;
    (split; [exact Hs|apply H; exact Hrest]).
Qed.

Lemma Occurs_toLowerCase (P : jstring -> Prop) s :
  Occurs P (toLowerCase s) <-> Occurs (fun r => P (toLowerCase r)) s.
Proof.
  unfold Occurs, toLowerCase. split.
  - intros (before & rest & Hs & Hrest).
    apply map_eq_app in Hs as (before' & rest' & -> & _ & <-).
    exists before', rest'. split; [reflexivity|exact Hrest].
  - intros (before & rest & -> & Hrest).
    exists (map lowerUnit before), (map lowerUnit rest). split; [apply map_app|exact Hrest].
Qed.

Lemma ComparisonKeyword_spec keyword :
  ComparisonKeyword keyword <-> In keyword comparisonKeywords.
Proof.
  unfold ComparisonKeyword, comparisonKeywords. cbn [In].
  intuition (subst; auto).
Qed.

Lemma keywords_lower keyword :
  ComparisonKeyword keyword ->
  forallb (fun y => negb (isUpperAlpha y)) keyword = true.
Proof.
  intros Hin. apply ComparisonKeyword_spec in Hin.
  assert (H : forallb (fun k => forallb (fun y => negb (isUpperAlpha y)) k)
                      comparisonKeywords = true) by (vm_compute; reflexivity).
  rewrite forallb_forall in H. apply H, Hin.
Qed.

Lemma KeywordAnyCase_spec s : KeywordAnyCase s <-> KeywordHere s.
Proof.
  unfold KeywordAnyCase, KeywordHere. split.
  - intros (keyword & word & rest & Hin & -> & Hword).
    apply (sameLetter_toLowerCase _ _ (keywords_lower _ Hin)) in Hword.
    exists keyword, (toLowerCase rest). split; [apply ComparisonKeyword_spec, Hin|].
    unfold toLowerCase in *. rewrite map_app, Hword. reflexivity.
  - intros (keyword & rest & Hin & Hs). unfold toLowerCase in Hs.
    apply ComparisonKeyword_spec in Hin.
    apply map_eq_app in Hs as (word & rest' & -> & Hword & _).
    exists keyword, word, rest'. split; [exact Hin|]. split; [reflexivity|].
    apply (sameLetter_toLowerCase _ _ (keywords_lower _ Hin)). exact Hword.
Qed.

Lemma UrlAnyCase_spec s : UrlAnyCase s <-> UrlHere (toLowerCase s).
Proof.
  assert (Hlower : forall scheme,
             scheme = js "http://" \/ scheme = js "https://" ->
             forallb (fun y => negb (isUpperAlpha y)) scheme = true)
    by (intros scheme [->| ->]; vm_compute; reflexivity).
  unfold UrlAnyCase, UrlHere. split.
  - intros (scheme & word & c & rest & Hscheme & Hword & Hc & ->).
    apply (sameLetter_toLowerCase _ _ (Hlower _ Hscheme)) in Hword.
    exists scheme, (lowerUnit c), (toLowerCase rest). split; [exact Hscheme|].
    split; [rewrite isWhiteSpace_lowerUnit; exact Hc|].
    unfold toLowerCase in *. rewrite map_app, Hword. reflexivity.
  - intros (scheme & c & rest & Hscheme & Hc & Hs). unfold toLowerCase in Hs.
    apply map_eq_app in Hs as (word & tail & -> & Hword & Htail).
    destruct tail as [|c' rest']; [discriminate|]. injection Htail as <- _.
    exists scheme, word, c', rest'. split; [exact Hscheme|].
    split; [apply (sameLetter_toLowerCase _ _ (Hlower _ Hscheme)); exact Hword|].
    split; [rewrite <- isWhiteSpace_lowerUnit; exact Hc|reflexivity].
Qed.

Lemma filter_is_sublist {A} (f : A -> bool) (l : list A) : sublist (List.filter f l) l.
Proof.
  induction l as [|a l IH]; cbn [List.filter]; [constructor|].
  destruct (f a); [apply sublist_skip, IH|apply sublist_cons, IH].
Qed.

(** C6 (report validation).  For every report text the completeness flag
    is the conjunction of the four checks, and each check says what its
    name says.  All required headings are present: each is a line of the
    text, up to white space after it.  The questions are answered: the
    body of each of the four question sections has at least 120 units.
    Related work is compared: the body of that section holds a comparison
    keyword, in whatever case, and a bracketed number or a URL whose
    scheme is in whatever case.  There are reference URLs: the body of
    the references section holds a URL.  The body of a section is the
    text between the first line that is its heading once trimmed and the
    next line that is, once trimmed, a heading of the same depth or of a
    shallower one (or the end of the text), trimmed; the depth of a
    heading is the number of its number signs, which white space
    follows.  The list of missing headings is the list of required
    headings, in their order, without those that are present. *)
Theorem completeness_is_conjunction_of_checks markdown :
  let v := validateReport markdown in
  let Headings :=
    forall h, In h REQUIRED_REPORT_HEADINGS -> HeadingLine markdown h in
  let Answered :=
    forall h, In h REQUIRED_QUESTION_HEADINGS ->
              exists body, SectionBody markdown h body /\ (120 <= length body)%nat in
  let Compared :=
    exists body,
      SectionBody markdown (js "## 3. Related Work and Key Differences") body
      /\ Occurs KeywordAnyCase body
      /\ (Occurs CitationHere body \/ Occurs UrlAnyCase body) in
  let Referenced :=
    exists body, SectionBody markdown (js "## References") body /\ Occurs UrlHere body in
  isComplete v
  = hasAllRequiredHeadings v && answeredRequiredQuestions v
    && hasRelatedWorkComparison v && hasReferenceUrls v
  /\ (isComplete v = true <-> Headings /\ Answered /\ Compared /\ Referenced)
  /\ (hasAllRequiredHeadings v = true <-> Headings)
  /\ (answeredRequiredQuestions v = true <-> Answered)
  /\ (hasRelatedWorkComparison v = true <-> Compared)
  /\ (hasReferenceUrls v = true <-> Referenced)
  /\ sublist (missingHeadings v) REQUIRED_REPORT_HEADINGS
  /\ (forall h, In h (missingHeadings v)
                <-> In h REQUIRED_REPORT_HEADINGS /\ ~ HeadingLine markdown h).
Proof.
  intros v Headings Answered Compared Referenced.
  assert (Hheadings : hasAllRequiredHeadings v = true <-> Headings).
  { cbn [v validateReport hasAllRequiredHeadings]. rewrite filter_none_iff.
    split; intros H h Hh; specialize (H h Hh).
    - apply hasHeading_spec. apply negb_false_iff. exact H.
    - apply negb_false_iff. apply hasHeading_spec. exact H. }
  assert (Hanswered : answeredRequiredQuestions v = true <-> Answered).
  { cbn [v validateReport answeredRequiredQuestions]. rewrite forallb_forall.
    split; intros H h Hh; specialize (H h Hh).
    - apply (section_check markdown h (fun body => (120 <= length body)%nat)).
      apply Nat.leb_le. exact H.
    - apply Nat.leb_le.
      apply (section_check markdown h (fun body => (120 <= length body)%nat)). exact H. }
  assert (Hcompared : hasRelatedWorkComparison v = true <-> Compared).
  { cbn [v validateReport hasRelatedWorkComparison].
    rewrite andb_true_iff, orb_true_iff.
    rewrite hasComparisonKeywordIn_spec, hasBracketCitation_spec.
    unfold hasUrlIgnoringCase. rewrite hasUrl_spec.
    rewrite (Occurs_iff KeywordHere KeywordAnyCase)
      by (intros r; symmetry; apply KeywordAnyCase_spec).
    rewrite Occurs_toLowerCase.
    rewrite (Occurs_iff (fun r => UrlHere (toLowerCase r)) UrlAnyCase)
      by (intros r; symmetry; apply UrlAnyCase_spec).
    apply (section_check markdown (js "## 3. Related Work and Key Differences")
             (fun body => Occurs KeywordAnyCase body
                          /\ (Occurs CitationHere body \/ Occurs UrlAnyCase body))). }
  assert (Hreferenced : hasReferenceUrls v = true <-> Referenced).
  { cbn [v validateReport hasReferenceUrls]. rewrite hasUrl_spec.
    apply (section_check markdown (js "## References") (fun body => Occurs UrlHere body)). }
  split; [reflexivity|]. split; [|split; [|split; [|split; [|split; [|split]]]]];
    try assumption.
  - rewrite <- Hheadings, <- Hanswered, <- Hcompared, <- Hreferenced.
    cbn [v validateReport isComplete hasAllRequiredHeadings answeredRequiredQuestions
           hasRelatedWorkComparison hasReferenceUrls].
    rewrite !andb_true_iff. tauto.
  - apply filter_is_sublist.
  - intros h. unfold v. rewrite missing_headings_spec, <- hasHeading_spec.
    destruct (hasHeading markdown h); intuition congruence.
Qed.

(** A report that passes, and the three observations on reports that do
    not: without the references heading that heading, and only it, is
    missing; a references section that only says "see our website" has no
    URL; "In contrast to [3], our method..." is a comparison with a
    citation. *)
Example validateReport_examples :
  isComplete (validateReport completeReport) = true
  /\ hasAllRequiredHeadings (validateReport reportWithoutReferences) = false
  /\ missingHeadings (validateReport reportWithoutReferences) = [js "## References"]
  /\ hasAllRequiredHeadings (validateReport reportWithoutUrls) = true
  /\ hasReferenceUrls (validateReport reportWithoutUrls) = false
  /\ isComplete (validateReport reportWithoutUrls) = false
  /\ hasComparisonKeywordIn (js "In contrast to [3], our method...") = true
  /\ hasBracketCitation (js "In contrast to [3], our method...") = true.
Proof. vm_compute. repeat split. Qed.

End ReportFacts.

(* ===================================================================== *)
(** * Properties of the source extraction pipeline *)
(* ===================================================================== *)

Module SourceExtractFacts.

Import SourceExtract JsFacts.

(** ** Classification *)

Lemma classify_scholarly_host u contentType :
  endsWith (hostname u) (js "arxiv.org") = true ->
  classifySourceType u contentType = arxiv.
Proof. intros H. unfold classifySourceType. rewrite H. reflexivity. Qed.

Lemma classify_pdf_path u contentType :
  endsWith (hostname u) (js "arxiv.org") = false ->
  endsWith (toLowerCase (pathname u)) (js ".pdf") = true ->
  classifySourceType u contentType = pdf.
Proof. intros Hhost Hpath. unfold classifySourceType. rewrite Hhost, Hpath. reflexivity. Qed.

(** ** The readability mirror *)

Lemma fetch_withoutContentType net req :
  fetch (withoutContentType net) req
  = (match fst (fetch net req) with
     | FetchRejected m => FetchRejected m
     | Responded r =>
         Responded (mkResponse (ok r) (status r) (statusText r) (url r) None (body r))
     end,
     withoutContentType (snd (fetch net req))).
Proof.
  unfold fetch, withoutContentType. cbn [script requests].
  destruct (script net) as [|res rest]; reflexivity.
Qed.

Lemma mirror_withoutContentType net target :
  fetchReadableMirror (withoutContentType net) target
  = (fst (fetchReadableMirror net target),
     withoutContentType (snd (fetchReadableMirror net target))).
Proof.
  unfold fetchReadableMirror. rewrite fetch_withoutContentType.
  destruct (fetch net (ReqGet (js "https://r.jina.ai/" ++ target))) as [res net'].
  cbn [fst snd]. destruct res as [m|r]; [reflexivity|]. cbn [ok body].
  destruct (negb (ok r)); [reflexivity|].
  destruct (body r) as [raw|]; [|reflexivity].
  destruct (length (normalizeWhitespace raw) =? 0)%nat; reflexivity.
Qed.

(** The record path reads the status and the body of its responses, not
    their [content-type]. *)
Lemma extractArxivSource_withoutContentType sc net arxivId :
  extractArxivSource sc (withoutContentType net) arxivId
  = (fst (extractArxivSource sc net arxivId),
     withoutContentType (snd (extractArxivSource sc net arxivId))).
Proof.
  unfold extractArxivSource. rewrite fetch_withoutContentType.
  destruct (fetch net (ReqArxivApi arxivId)) as [res net1]. cbn [fst snd].
  destruct res as [m|r]; [reflexivity|]. cbn [ok status statusText body].
  destruct (negb (ok r)); [reflexivity|].
  destruct (body r) as [xml|]; [|reflexivity].
  destruct (arxivEntry sc xml) as [entry|]; [|reflexivity].
  rewrite mirror_withoutContentType.
  destruct (fetchReadableMirror net1 (js "https://arxiv.org/abs/" ++ arxivId)) as [full net2].
  reflexivity.
Qed.

Lemma extractArxivSource_sourceType sc net arxivId d :
  fst (extractArxivSource sc net arxivId) = inr d -> sourceType d = arxiv.
Proof.
  unfold extractArxivSource.
  destruct (fetch net (ReqArxivApi arxivId)) as [res net1].
  destruct res as [m|r]; [discriminate|].
  destruct (negb (ok r)); [discriminate|].
  destruct (body r) as [xml|]; [|discriminate].
  destruct (arxivEntry sc xml) as [entry|]; [|discriminate].
  destruct (fetchReadableMirror net1 (js "https://arxiv.org/abs/" ++ arxivId)) as [full net2].
  cbn [fst]. intros [= <-]. reflexivity.
Qed.

(** ** The log of requests *)

Lemma fetch_logged net req : requests (snd (fetch net req)) = requests net ++ [req].
Proof. unfold fetch. destruct (script net); reflexivity. Qed.

Lemma mirror_logged net target :
  requests (snd (fetchReadableMirror net target))
  = requests net ++ [ReqGet (js "https://r.jina.ai/" ++ target)].
Proof.
  unfold fetchReadableMirror.
  pose proof (fetch_logged net (ReqGet (js "https://r.jina.ai/" ++ target))) as H.
  destruct (fetch net _) as [res net']. cbn [snd] in H.
  destruct res as [m|r]; [exact H|].
  destruct (negb (ok r)); [exact H|]. destruct (body r); [|exact H].
  destruct (length _ =? 0)%nat; exact H.
Qed.

(** The record path asks the record API first. *)
Lemma extractArxivSource_first_request sc net id :
  exists more,
    requests (snd (extractArxivSource sc net id)) = requests net ++ ReqArxivApi id :: more.
Proof.
  unfold extractArxivSource.
  pose proof (fetch_logged net (ReqArxivApi id)) as H.
  destruct (fetch net (ReqArxivApi id)) as [res net1]. cbn [snd] in H.
  destruct res as [m|r]; [exists []; exact H|].
  destruct (negb (ok r)); [exists []; exact H|].
  destruct (body r) as [xml|]; [|exists []; exact H].
  destruct (arxivEntry sc xml) as [entry|]; [|exists []; exact H].
  pose proof (mirror_logged net1 (js "https://arxiv.org/abs/" ++ id)) as Hm.
  destruct (fetchReadableMirror net1 _) as [full net2]. cbn [snd] in *.
  eexists. rewrite Hm, H, <- app_assoc. reflexivity.
Qed.

(** The end of [extractGenericSource]: the mirror is asked when there is
    no full text yet, and the details take the source type and the
    address they are given. *)
Lemma generic_finish title authors year abstract fullText sourceType canonicalUrl net2 :
  let result : (Error + ExtractSourceToolDetails) * Net :=
    let abstract' :=
      if negb (truthy abstract) && truthy fullText
      then Some (clipText (default [] fullText) MAX_ABSTRACT_CHARS)
      else abstract in
    let '(fullText', net3) :=
      if negb (truthy fullText)
      then fetchReadableMirror net2 canonicalUrl
      else (fullText, net2) in
    (inr (withMissingFields
            (mkDetails title authors year abstract' fullText' sourceType canonicalUrl [])),
     net3) in
  (exists more, requests (snd result) = requests net2 ++ more)
  /\ exists d, fst result = inr d
               /\ SourceExtract.sourceType d = sourceType
               /\ SourceExtract.canonicalUrl d = canonicalUrl.
Proof.
  cbn zeta. destruct (negb (truthy fullText)).
  - pose proof (mirror_logged net2 canonicalUrl) as Hm.
    destruct (fetchReadableMirror net2 canonicalUrl) as [full net3]. cbn [fst snd] in *.
    split; [eexists; exact Hm|]. eexists. split; [reflexivity|]. split; reflexivity.
  - cbn [fst snd]. split; [exists []; rewrite app_nil_r; reflexivity|].
    eexists. split; [reflexivity|]. split; reflexivity.
Qed.

(** The generic path asks for the address itself first, and tags the
    details by the address and the [content-type] of the response. *)
Lemma extractGenericSource_outcome sc net u :
  (exists more,
      requests (snd (extractGenericSource sc net u)) = requests net ++ ReqGet (href u) :: more)
  /\ forall d, fst (extractGenericSource sc net u) = inr d ->
               exists r rest,
                 script net = Responded r :: rest /\ ok r = true
                 /\ sourceType d = classifySourceType (url r) (contentType r)
                 /\ canonicalUrl d = href (url r).
Proof.
  unfold extractGenericSource.
  pose proof (fetch_logged net (ReqGet (href u))) as Hlog.
  assert (Hscript : forall r, fst (fetch net (ReqGet (href u))) = Responded r ->
                              exists rest, script net = Responded r :: rest).
  { unfold fetch. destruct (script net) as [|res rest]; cbn [fst]; [discriminate|].
    intros r ->. exists rest. reflexivity. }
  destruct (fetch net (ReqGet (href u))) as [res net1]. cbn [fst snd] in Hlog, Hscript.
  assert (Hstop : exists more, requests net1 = requests net ++ ReqGet (href u) :: more)
    by (exists []; exact Hlog).
  destruct res as [m|r]; [split; [exact Hstop|discriminate]|].
  destruct (Hscript r eq_refl) as [rest Hrest].
  destruct (ok r) eqn:Hok; cbn [negb]; [|split; [exact Hstop|discriminate]].
  destruct (guessTitleFromUrl sc (url r)) as [guessed|]; [|split; [exact Hstop|discriminate]].
  assert (Hfinish :
            forall title authors year abstract fullText net2
                   (result := (let abstract' :=
                                 if negb (truthy abstract) && truthy fullText
                                 then Some (clipText (default [] fullText) MAX_ABSTRACT_CHARS)
                                 else abstract in
                               let '(fullText', net3) :=
                                 if negb (truthy fullText)
                                 then fetchReadableMirror net2 (href (url r))
                                 else (fullText, net2) in
                               (inr (withMissingFields
                                       (mkDetails title authors year abstract' fullText'
                                          (classifySourceType (url r) (contentType r))
                                          (href (url r)) [])),
                                net3)) : (Error + ExtractSourceToolDetails) * Net),
              (exists more, requests net2 = requests net ++ ReqGet (href u) :: more) ->
              (exists more, requests (snd result) = requests net ++ ReqGet (href u) :: more)
              /\ forall d, fst result = inr d ->
                           exists r' rest',
                             Responded r :: rest = Responded r' :: rest' /\ ok r' = true
                             /\ sourceType d = classifySourceType (url r') (contentType r')
                             /\ canonicalUrl d = href (url r')).
  { intros title authors year abstract fullText net2 result [more Hmore].
    destruct (generic_finish title authors year abstract fullText
                (classifySourceType (url r) (contentType r)) (href (url r)) net2)
      as [[more' Hlog'] (d' & Hd' & Hty & Hurl)].
    fold result in Hlog', Hd'. split.
    - exists (more ++ more'). rewrite Hlog', Hmore, <- app_assoc. reflexivity.
    - intros d Hd. rewrite Hd' in Hd. injection Hd as <-.
      exists r, rest. split; [reflexivity|]. split; [exact Hok|]. split; assumption. }
  rewrite Hrest.
  destruct (classifySourceType (url r) (contentType r)) eqn:Hty.
  - (* arxiv *) apply Hfinish. exact Hstop.
  - (* pdf *)
    pose proof (mirror_logged net1 (href (url r))) as Hm.
    destruct (fetchReadableMirror net1 (href (url r))) as [full net2]. cbn [snd] in Hm.
    apply Hfinish. destruct Hstop as [more Hmore]. eexists.
    rewrite Hm, Hmore, <- app_assoc. reflexivity.
  - (* html *)
    destruct (body r) as [page|]; [|split; [exact Hstop|discriminate]].
    apply Hfinish. exact Hstop.
  - (* other *)
    destruct (body r) as [page|]; [|split; [exact Hstop|discriminate]].
    apply Hfinish. exact Hstop.
Qed.

(** What [execute] hands over: the identifier when the host name ends
    with [arxiv.org] and the path names a record, the address
    otherwise. *)
Lemma execute_dispatch sc net input u :
  (length (trim input) =? 0)%nat = false ->
  parseUrl sc (trim input) = Some u ->
  (forall id, endsWith (hostname u) (js "arxiv.org") = true ->
              Slug.ArxivPath (pathname u) id ->
              execute sc net input = extractArxivSource sc net id)
  /\ (endsWith (hostname u) (js "arxiv.org") = false
      \/ (forall id, ~ Slug.ArxivPath (pathname u) id) ->
      execute sc net input = extractGenericSource sc net u).
Proof.
  intros Hlen Hparse. unfold execute. rewrite Hlen, Hparse. split.
  - intros id Hhost Hpath.
    rewrite (SlugFacts.parseArxivId_path u id Hhost Hpath). cbn [truthy default].
    assert (nonEmpty id = true) as ->; [|reflexivity].
    destruct Hpath; destruct id; try contradiction; reflexivity.
  - intros Hnot. destruct (Slug.parseArxivId u) as [id|] eqn:Hid; [|reflexivity].
    apply SlugFacts.parseArxivId_sound in Hid as [Hhost Hpath].
    destruct Hnot as [Hnot|Hnot]; [congruence|destruct (Hnot id Hpath)].
Qed.

Lemma isArxivHost_suffix host :
  isArxivHost host = true -> endsWith host (js "arxiv.org") = true.
Proof.
  unfold isArxivHost. intros H. apply orb_true_iff in H as [H|H].
  - unfold eqb in H. apply bool_decide_eq_true_1 in H. subst host. reflexivity.
  - apply endsWith_true in H as [k ->]. apply endsWith_true.
    exists (k ++ js "."). rewrite <- app_assoc. reflexivity.
Qed.

(** C7, as stated, fails twice.  A PDF on [notarxiv.org], which is no
    host of the repository, is tagged [arxiv] and not [pdf], whatever
    its [content-type]: the host is tested by the end of its name.  And
    an address of [arxiv.org] that names no record, here a listing, does
    not take the record path: the tool fetches the address itself, never
    asks the record API, and returns details without authors, year or
    abstract. *)
Lemma classification_claim_counterexample :
  isArxivHost (hostname lookalikePdfUrl) = false
  /\ endsWith (pathname lookalikePdfUrl) (js ".pdf") = true
  /\ classifySourceType lookalikePdfUrl (Some (js "application/pdf")) = arxiv
  /\ classifySourceType lookalikePdfUrl None = arxiv
  /\ isArxivHost (hostname listingUrl) = true
  /\ exists d net',
       execute (scrapersKnowing [listingUrl])
               (mkNet [Responded listingPage] []) (href listingUrl) = (inr d, net')
       /\ requests net'
          = [ReqGet (href listingUrl); ReqGet (js "https://r.jina.ai/" ++ href listingUrl)]
       /\ (forall id, ~ In (ReqArxivApi id) (requests net'))
       /\ missingFields d = [js "authors"; js "year"; js "abstract"; js "fullText"].
Proof.
  split; [vm_compute; reflexivity|]. split; [vm_compute; reflexivity|].
  split; [vm_compute; reflexivity|]. split; [vm_compute; reflexivity|].
  split; [vm_compute; reflexivity|].
  do 2 eexists. split; [vm_compute; reflexivity|].
  split; [vm_compute; reflexivity|]. split; [|vm_compute; reflexivity].
  intros id. cbn [requests]. intros [H|[H|[]]]; discriminate H.
Qed.

(** C7 (classification), amended.  The source type is [arxiv] exactly
    when the host name ends with the text [arxiv.org], which holds of
    the repository's hosts and of others as well, whatever the
    extension and the [content-type]; on any other host a path that ends
    in [.pdf], in whatever case, gives [pdf].  The tool takes the record
    path exactly when the host name of the address it is given ends with
    [arxiv.org] and the path is [/abs/<id>], [/pdf/<id>] or
    [/pdf/<id>.pdf]: it then asks the record API for that identifier
    first, its result is the same when the [content-type] headers of all
    the responses are taken away, and the details are tagged [arxiv].
    Every other address, those of [arxiv.org] hosts with another path
    among them, is fetched itself, and its details are tagged by the
    address and the [content-type] of the response. *)
Theorem classification_by_host_then_extension sc net input u :
  (length (trim input) =? 0)%nat = false ->
  parseUrl sc (trim input) = Some u ->
  (forall v contentType,
      (classifySourceType v contentType = arxiv
       <-> endsWith (hostname v) (js "arxiv.org") = true)
      /\ (isArxivHost (hostname v) = true -> classifySourceType v contentType = arxiv)
      /\ (endsWith (hostname v) (js "arxiv.org") = false ->
          endsWith (toLowerCase (pathname v)) (js ".pdf") = true ->
          classifySourceType v contentType = pdf))
  /\ (forall id,
        endsWith (hostname u) (js "arxiv.org") = true ->
        Slug.ArxivPath (pathname u) id ->
        execute sc net input = extractArxivSource sc net id
        /\ (exists more,
              requests (snd (execute sc net input)) = requests net ++ ReqArxivApi id :: more)
        /\ fst (execute sc (withoutContentType net) input) = fst (execute sc net input)
        /\ forall d, fst (execute sc net input) = inr d -> sourceType d = arxiv)
  /\ (endsWith (hostname u) (js "arxiv.org") = false
      \/ (forall id, ~ Slug.ArxivPath (pathname u) id) ->
      execute sc net input = extractGenericSource sc net u
      /\ (exists more,
            requests (snd (execute sc net input)) = requests net ++ ReqGet (href u) :: more)
      /\ forall d, fst (execute sc net input) = inr d ->
                   exists r rest,
                     script net = Responded r :: rest /\ ok r = true
                     /\ sourceType d = classifySourceType (url r) (contentType r)
                     /\ canonicalUrl d = href (url r)).
Proof.
  intros Hlen Hparse. split; [|split].
  - intros v contentType. split; [|split].
    + unfold classifySourceType.
      destruct (endsWith (hostname v) (js "arxiv.org")); [split; reflexivity|].
      split; [|discriminate].
      destruct (_ || _); [discriminate|]. destruct (_ || _); discriminate.
    + intros H. apply classify_scholarly_host, isArxivHost_suffix, H.
    + apply classify_pdf_path.
  - intros id Hhost Hpath.
    assert (Hrun : forall net', execute sc net' input = extractArxivSource sc net' id)
      by (intros net'; apply (execute_dispatch sc net' input u Hlen Hparse); assumption).
    split; [apply Hrun|]. rewrite !Hrun. split; [apply extractArxivSource_first_request|].
    split.
    + rewrite extractArxivSource_withoutContentType. reflexivity.
    + apply extractArxivSource_sourceType.
  - intros Hnot.
    assert (Hrun : execute sc net input = extractGenericSource sc net u)
      by (apply (execute_dispatch sc net input u Hlen Hparse); exact Hnot).
    split; [exact Hrun|]. rewrite Hrun. apply extractGenericSource_outcome.
Qed.

(** A record of the repository takes the record path and asks the record
    API; a listing of the same host is fetched itself. *)
Lemma classification_by_host_then_extension_witness :
  (exists more,
      requests (snd (execute (scrapersKnowing [recordUrl; listingUrl])
                             (mkNet [] []) (href recordUrl)))
      = ReqArxivApi (js "1706.03762") :: more)
  /\ execute (scrapersKnowing [recordUrl; listingUrl])
             (mkNet [Responded listingPage] []) (href listingUrl)
     = extractGenericSource (scrapersKnowing [recordUrl; listingUrl])
                            (mkNet [Responded listingPage] []) listingUrl.
Proof.
  split.
  - apply (classification_by_host_then_extension
             (scrapersKnowing [recordUrl; listingUrl]) (mkNet [] []) (href recordUrl)
             recordUrl eq_refl eq_refl).
    + reflexivity.
    + apply (Slug.abs_path (js "1706.03762") []);
        [discriminate|reflexivity|left; reflexivity].
  - apply (classification_by_host_then_extension
             (scrapersKnowing [recordUrl; listingUrl]) (mkNet [Responded listingPage] [])
             (href listingUrl) listingUrl eq_refl eq_refl).
    right. intros id H. inversion H.
Defined.

(** ** Missing fields *)

Lemma getMissingFields_spec d field :
  In field (getMissingFields d)
  <-> (field = js "authors" /\ match authors d with Some (_ :: _) => False | _ => True end)
      \/ (field = js "year" /\ truthyNum (year d) = false)
      \/ (field = js "abstract" /\ truthy (abstract d) = false)
      \/ (field = js "fullText" /\ truthy (fullText d) = false).
Proof.
  unfold getMissingFields.
  destruct (authors d) as [[|a l]|]; destruct (truthyNum (year d));
    destruct (truthy (abstract d)); destruct (truthy (fullText d));
    cbn [app In]; intuition (try discriminate; auto).
Qed.

Lemma missingFields_withMissingFields d :
  missingFields (withMissingFields d) = getMissingFields d.
Proof. reflexivity. Qed.

(** ** The mirror, attempt by attempt *)

Lemma clipText_truthy input maxChars :
  input <> [] -> truthy (Some (clipText input maxChars)) = true.
Proof.
  intros Hne. unfold clipText. destruct (_ <=? _)%nat; cbn [truthy].
  - destruct input; [contradiction|reflexivity].
  - destruct (slice0 _ _); reflexivity.
Qed.

Lemma mirror_none asked target :
  fetchReadableMirror (mkNet [] asked) target
  = (None, mkNet [] (asked ++ [ReqGet (js "https://r.jina.ai/" ++ target)])).
Proof. reflexivity. Qed.

Lemma mirror_fails_step res rest asked target :
  mirrorFailure res = true ->
  fetchReadableMirror (mkNet (res :: rest) asked) target
  = (None, mkNet rest (asked ++ [ReqGet (js "https://r.jina.ai/" ++ target)])).
Proof.
  intros Hres. unfold fetchReadableMirror, fetch. cbn [script requests].
  destruct res as [m|r]; [reflexivity|]. cbn [mirrorFailure] in Hres.
  destruct (negb (ok r)); [reflexivity|]. cbn [orb] in Hres.
  destruct (body r) as [raw|]; [|reflexivity]. rewrite Hres. reflexivity.
Qed.

Lemma mirror_succeeds_step res rest asked target :
  mirrorFailure res = false ->
  exists r raw,
    res = Responded r /\ ok r = true /\ body r = Some raw
    /\ normalizeWhitespace raw <> []
    /\ fetchReadableMirror (mkNet (res :: rest) asked) target
       = (Some (clipText (normalizeWhitespace raw) MAX_FULL_TEXT_CHARS),
          mkNet rest (asked ++ [ReqGet (js "https://r.jina.ai/" ++ target)])).
Proof.
  intros Hres. destruct res as [m|r]; [discriminate|]. cbn [mirrorFailure] in Hres.
  apply orb_false_iff in Hres as [Hok Hbody]. apply negb_false_iff in Hok.
  destruct (body r) as [raw|] eqn:Hraw; [|discriminate].
  exists r, raw. split; [reflexivity|]. split; [exact Hok|]. split; [exact Hraw|].
  split; [intros Hnil; rewrite Hnil in Hbody; discriminate|].
  unfold fetchReadableMirror, fetch. cbn [script requests].
  rewrite Hok, Hraw, Hbody. reflexivity.
Qed.

(** What the mirror gives is a text that is not empty, or nothing. *)
Lemma mirror_truthy net target :
  truthy (fst (fetchReadableMirror net target)) = false ->
  fst (fetchReadableMirror net target) = None.
Proof.
  destruct net as [[|res rest] asked]; [reflexivity|].
  destruct (mirrorFailure res) eqn:Hres.
  - rewrite mirror_fails_step by exact Hres. reflexivity.
  - destruct (mirror_succeeds_step res rest asked target Hres)
      as (r & raw & _ & _ & _ & Hne & ->).
    cbn [fst]. rewrite clipText_truthy by exact Hne. discriminate.
Qed.

(** Asking the mirror up to [attempts] times: nothing comes back exactly
    when each of the answers that are there fails; otherwise the text of
    the first answer that does not fail comes back. *)
Lemma askMirror_spec target attempts :
  forall rest asked,
    let out := askMirror attempts (mkNet rest asked) target in
    (fst out = None
     <-> Forall (fun res => mirrorFailure res = true) (firstn attempts rest))
    /\ (truthy (fst out) = false -> fst out = None)
    /\ (forall res,
          List.find (fun res => negb (mirrorFailure res)) (firstn attempts rest) = Some res ->
          exists r raw,
            res = Responded r /\ ok r = true /\ body r = Some raw
            /\ fst out = Some (clipText (normalizeWhitespace raw) MAX_FULL_TEXT_CHARS))
    /\ ((1 <= attempts)%nat ->
        In (ReqGet (js "https://r.jina.ai/" ++ target)) (requests (snd out))
        /\ exists more, requests (snd out) = asked ++ more).
Proof.
  induction attempts as [|attempts IH]; intros rest asked out.
  - cbn in out. subst out. cbn [fst snd firstn List.find].
    split; [split; [constructor|reflexivity]|]. split; [reflexivity|].
    split; [discriminate|lia].
  - assert (Hlater : forall rest' asked',
               asked' = asked ++ [ReqGet (js "https://r.jina.ai/" ++ target)] ->
               let out' := askMirror attempts (mkNet rest' asked') target in
               In (ReqGet (js "https://r.jina.ai/" ++ target)) (requests (snd out'))
               /\ exists more, requests (snd out') = asked ++ more).
    { intros rest' asked' -> out'. destruct attempts as [|attempts].
      - cbn in out'. subst out'. cbn [snd requests].
        split; [apply in_or_app; right; left; reflexivity|eexists; reflexivity].
      - destruct (IH rest' (asked ++ [ReqGet (js "https://r.jina.ai/" ++ target)]))
          as (_ & _ & _ & Hin).
        destruct (Hin ltac:(lia)) as [Hin' [more Hmore]]. split; [exact Hin'|].
        exists ([ReqGet (js "https://r.jina.ai/" ++ target)] ++ more).
        rewrite app_assoc. exact Hmore. }
    subst out. destruct rest as [|res rest].
    + cbn [askMirror]. rewrite mirror_none. cbn [truthy].
      specialize (IH [] (asked ++ [ReqGet (js "https://r.jina.ai/" ++ target)])).
      destruct IH as (Hnone & Htruthy & _ & _).
      cbn [firstn List.find] in *. rewrite firstn_nil in Hnone.
      split; [split; [constructor|intros _; apply Hnone; constructor]|].
      split; [exact Htruthy|]. split; [discriminate|]. intros _.
      apply (Hlater [] _ eq_refl).
    + cbn [askMirror firstn List.find]. destruct (mirrorFailure res) eqn:Hres.
      * rewrite mirror_fails_step by exact Hres. cbn [truthy].
        specialize (IH rest (asked ++ [ReqGet (js "https://r.jina.ai/" ++ target)])).
        destruct IH as (Hnone & Htruthy & Hfound & _). cbn [negb].
        split; [|split; [exact Htruthy|split; [exact Hfound|]]].
        -- rewrite Hnone. split; [intros H; constructor; assumption|].
           intros H. apply Forall_cons in H as [_ H]. exact H.
        -- intros _. apply (Hlater rest _ eq_refl).
      * destruct (mirror_succeeds_step res rest asked target Hres)
          as (r & raw & -> & Hok & Hraw & Hne & Hstep).
        rewrite Hstep. rewrite clipText_truthy by exact Hne.
        cbn [fst snd requests negb].
        split; [split; [discriminate|]|].
        { intros H. apply Forall_cons in H as [H _]. congruence. }
        split; [rewrite clipText_truthy by exact Hne; discriminate|].
        split.
        -- intros res [= <-]. exists r, raw. repeat split; assumption.
        -- intros _. split; [apply in_or_app; right; left; reflexivity|].
           eexists. reflexivity.
Qed.

(** An extraction that turns to the mirror returns details whose full
    text is what asking the mirror gives: twice at most for a PDF, once
    otherwise. *)
Lemma generic_asks_the_mirror sc u response rest asked title :
  ok response = true ->
  guessTitleFromUrl sc (url response) = Some title ->
  turnsToMirror sc response ->
  let sourceType := classifySourceType (url response) (contentType response) in
  let out := askMirror (mirrorAttempts sourceType)
                       (mkNet rest (asked ++ [ReqGet (href u)])) (href (url response)) in
  exists title' authors year abstract,
    extractGenericSource sc (mkNet (Responded response :: rest) asked) u
    = (inr (withMissingFields
              (mkDetails title' authors year abstract (fst out) sourceType
                         (href (url response)) [])),
       snd out).
Proof.
  intros Hok Htitle Hturn sourceType out.
  unfold extractGenericSource, fetch. cbn [script requests].
  rewrite Hok, Htitle. cbn [negb]. unfold turnsToMirror in Hturn.
  fold sourceType in Hturn |- *. subst out.
  set (net1 := mkNet rest (asked ++ [ReqGet (href u)])).
  set (target := href (url response)).
  assert (Honce : forall net, askMirror 1 net target = fetchReadableMirror net target).
  { intros net. cbn [askMirror].
    pose proof (mirror_truthy net target) as Hm.
    destruct (fetchReadableMirror net target) as [text net']. cbn [fst] in Hm.
    destruct (truthy text); [reflexivity|]. rewrite Hm by reflexivity. reflexivity. }
  destruct sourceType; cbn [mirrorAttempts].
  - (* arxiv *)
    cbn [truthy negb andb]. rewrite Honce.
    destruct (fetchReadableMirror net1 target) as [text net2]. cbn [fst snd].
    do 4 eexists. reflexivity.
  - (* pdf *)
    cbn [askMirror]. fold (askMirror 1). 
    destruct (fetchReadableMirror net1 target) as [text net2].
    destruct (truthy text) eqn:Htext; cbn [negb andb truthy].
    + cbn [fst snd]. do 4 eexists. reflexivity.
    + change (let '(text0, net') := fetchReadableMirror net2 target in
              if truthy text0 then (text0, net') else (None, net'))
        with (askMirror 1 net2 target).
      rewrite Honce.
      destruct (fetchReadableMirror net2 target) as [text' net3]. cbn [fst snd].
      do 4 eexists. reflexivity.
  - (* html *)
    destruct Hturn as (page & -> & Hstrip). rewrite Hstrip.
    cbn [length Nat.ltb Nat.leb truthy negb andb]. rewrite andb_false_r. rewrite Honce.
    destruct (fetchReadableMirror net1 target) as [text net2]. cbn [fst snd].
    do 4 eexists. reflexivity.
  - (* other *)
    destruct Hturn as (page & -> & Hstrip). rewrite Hstrip.
    cbn [length Nat.ltb Nat.leb truthy negb andb]. rewrite andb_false_r. rewrite Honce.
    destruct (fetchReadableMirror net1 target) as [text net2]. cbn [fst snd].
    do 4 eexists. reflexivity.
Qed.

(** C8, as stated, fails on a PDF: its mirror fetch fails, the tool asks
    the mirror once more, and the second answer becomes the full text,
    which then is not listed as missing. *)
Lemma mirror_soft_fail_claim_counterexample :
  classifySourceType (url paperPdf) (contentType paperPdf) = pdf
  /\ mirrorFailure (Responded paperMirrorDown) = true
  /\ exists d net',
       extractGenericSource (scrapersKnowing [paperUrl])
         (mkNet [Responded paperPdf; Responded paperMirrorDown; Responded paperMirrorText] [])
         paperUrl = (inr d, net')
       /\ sourceType d = pdf
       /\ fullText d = Some (js "Attention Is All You Need")
       /\ ~ In (js "fullText") (missingFields d)
       /\ requests net'
          = [ReqGet (href paperUrl);
             ReqGet (js "https://r.jina.ai/" ++ href paperUrl);
             ReqGet (js "https://r.jina.ai/" ++ href paperUrl)].
Proof.
  split; [vm_compute; reflexivity|]. split; [vm_compute; reflexivity|].
  do 2 eexists. split; [vm_compute; reflexivity|].
  split; [reflexivity|]. split; [vm_compute; reflexivity|].
  split; [|vm_compute; reflexivity].
  vm_compute. intros [H|[H|[H|[]]]]; discriminate H.
Qed.

(** C8 (the mirror fails softly), amended.  Take an extraction on the
    generic path whose own fetch succeeded and that has to turn to the
    readability mirror for its full text: a PDF, or a page that yielded
    no text.  Whatever the mirror answers, the extraction returns its
    details, and the mirror has been asked: once, or for a PDF once more
    when its first answer fails.  The details have no [fullText] exactly
    when every one of these answers fails (it rejects, has a status that
    is not ok, or an unreadable or empty body), and exactly then
    ["fullText"] is listed among the missing fields; otherwise the full
    text is the text of the first answer that does not fail.  So a
    failure of the first fetch for a PDF leaves the full text absent
    only if the second fails as well. *)
Theorem mirror_failure_leaves_fullText_absent sc u response rest asked title :
  ok response = true ->
  guessTitleFromUrl sc (url response) = Some title ->
  turnsToMirror sc response ->
  exists d net',
    extractGenericSource sc (mkNet (Responded response :: rest) asked) u = (inr d, net')
    /\ sourceType d = classifySourceType (url response) (contentType response)
    /\ canonicalUrl d = href (url response)
    /\ In (ReqGet (js "https://r.jina.ai/" ++ href (url response))) (requests net')
    /\ (fullText d = None <-> In (js "fullText") (missingFields d))
    /\ (fullText d = None
        <-> Forall (fun res => mirrorFailure res = true)
                   (firstn (mirrorAttempts (sourceType d)) rest))
    /\ (Forall (fun res => mirrorFailure res = true) rest ->
        fullText d = None /\ In (js "fullText") (missingFields d))
    /\ (forall res,
          List.find (fun res => negb (mirrorFailure res))
                    (firstn (mirrorAttempts (sourceType d)) rest) = Some res ->
          exists r raw,
            res = Responded r /\ ok r = true /\ body r = Some raw
            /\ fullText d = Some (clipText (normalizeWhitespace raw) MAX_FULL_TEXT_CHARS)).
Proof.
  intros Hok Htitle Hturn.
  destruct (generic_asks_the_mirror sc u response rest asked title Hok Htitle Hturn)
    as (title' & authors & year & abstract & Hrun).
  destruct (askMirror_spec (href (url response))
              (mirrorAttempts (classifySourceType (url response) (contentType response)))
              rest (asked ++ [ReqGet (href u)]))
    as (Hnone & Htruthy & Hfound & Hasked).
  cbn zeta in Hrun, Hnone, Htruthy, Hfound, Hasked.
  set (out := askMirror _ _ _) in *.
  do 2 eexists. split; [exact Hrun|].
  cbn [sourceType canonicalUrl fullText missingFields withMissingFields].
  assert (Hmissing : fst out = None
                     <-> In (js "fullText")
                            (getMissingFields
                               (mkDetails title' authors year abstract (fst out)
                                  (classifySourceType (url response) (contentType response))
                                  (href (url response)) []))).
  { rewrite getMissingFields_spec. cbn [fullText]. split.
    - intros H. right; right; right. rewrite H. split; reflexivity.
    - intros [[H _]|[[H _]|[[H _]|[_ H]]]]; try discriminate H. apply Htruthy, H. }
  split; [reflexivity|]. split; [reflexivity|].
  split; [apply Hasked; destruct (classifySourceType _ _); cbn; lia|].
  split; [exact Hmissing|]. split; [exact Hnone|]. split; [|exact Hfound].
  intros Hall.
  assert (Hn : fst out = None).
  { apply Hnone. apply Forall_take. exact Hall. }
  split; [exact Hn|apply Hmissing; exact Hn].
Qed.

(** A PDF whose mirror answers 503 twice: the details come back, with no
    full text. *)
Lemma mirror_failure_leaves_fullText_absent_witness :
  exists d net',
    extractGenericSource (scrapersKnowing [paperUrl])
      (mkNet [Responded paperPdf; Responded paperMirrorDown; Responded paperMirrorDown] [])
      paperUrl = (inr d, net')
    /\ sourceType d = pdf
    /\ fullText d = None
    /\ In (js "fullText") (missingFields d).
Proof.
  destruct (mirror_failure_leaves_fullText_absent (scrapersKnowing [paperUrl]) paperUrl
              paperPdf [Responded paperMirrorDown; Responded paperMirrorDown] []
              (js "paper.pdf") eq_refl eq_refl I)
    as (d & net' & Hrun & Hty & _ & _ & _ & _ & Hall & _).
  exists d, net'. split; [exact Hrun|]. split; [rewrite Hty; reflexivity|].
  apply Hall. repeat constructor.
Defined.

(** ** The abstract taken from the full text *)

(** The part of the rule that holds: a page with text and no abstract in
    its meta fields gets the clipped start of its text as abstract. *)
Lemma abstract_from_page_text sc u response rest asked title page :
  ok response = true ->
  guessTitleFromUrl sc (url response) = Some title ->
  (classifySourceType (url response) (contentType response) = html
   \/ classifySourceType (url response) (contentType response) = other) ->
  body response = Some page ->
  stripHtmlToText sc page <> [] ->
  truthy (orElse (orElse (extractMetaContent sc page (js "citation_abstract"))
                         (extractMetaContent sc page (js "description")))
                 (extractMetaContent sc page (js "og:description"))) = false ->
  exists d net',
    extractGenericSource sc (mkNet (Responded response :: rest) asked) u = (inr d, net')
    /\ fullText d = Some (clipText (stripHtmlToText sc page) MAX_FULL_TEXT_CHARS)
    /\ abstract d
       = Some (clipText (clipText (stripHtmlToText sc page) MAX_FULL_TEXT_CHARS)
                        MAX_ABSTRACT_CHARS).
Proof.
  intros Hok Htitle Hkind Hbody Htext Hnone.
  unfold extractGenericSource, fetch. cbn [script requests].
  rewrite Hok, Htitle. cbn [negb].
  assert (Hlen : (0 <? length (stripHtmlToText sc page))%nat = true).
  { apply Nat.ltb_lt. destruct (stripHtmlToText sc page); [contradiction|cbn; lia]. }
  assert (Hclip : truthy (Some (clipText (stripHtmlToText sc page) MAX_FULL_TEXT_CHARS)) = true).
  { unfold clipText. destruct (_ <=? _)%nat.
    - cbn. destruct (stripHtmlToText sc page); [contradiction|reflexivity].
    - cbn. destruct (slice0 _ _); reflexivity. }
  destruct Hkind as [-> | ->]; rewrite Hbody, Hlen;
    repeat (rewrite ?Hnone, ?Hclip; cbn [negb andb default]);
    do 2 eexists; (split; [reflexivity|]); split; reflexivity.
Qed.

(** The part that fails, in general: on a page that yields no text and
    whose meta fields hold no abstract, the mirror's text becomes the
    full text and the abstract stays away. *)
Lemma abstract_not_taken_from_mirror sc u response mirror rest asked title page raw :
  ok response = true ->
  guessTitleFromUrl sc (url response) = Some title ->
  (classifySourceType (url response) (contentType response) = html
   \/ classifySourceType (url response) (contentType response) = other) ->
  body response = Some page ->
  stripHtmlToText sc page = [] ->
  truthy (orElse (orElse (extractMetaContent sc page (js "citation_abstract"))
                         (extractMetaContent sc page (js "description")))
                 (extractMetaContent sc page (js "og:description"))) = false ->
  ok mirror = true ->
  body mirror = Some raw ->
  normalizeWhitespace raw <> [] ->
  exists d net',
    extractGenericSource sc (mkNet (Responded response :: Responded mirror :: rest) asked) u
    = (inr d, net')
    /\ fullText d = Some (clipText (normalizeWhitespace raw) MAX_FULL_TEXT_CHARS)
    /\ truthy (fullText d) = true
    /\ truthy (abstract d) = false
    /\ In (js "abstract") (missingFields d)
    /\ ~ In (js "fullText") (missingFields d).
Proof.
  intros Hok Htitle Hkind Hbody Htext Hnone Hmok Hmbody Hraw.
  unfold extractGenericSource, fetch. cbn [script requests].
  rewrite Hok, Htitle. cbn [negb].
  assert (Hmirror : forall asked',
             fetchReadableMirror (mkNet (Responded mirror :: rest) asked')
                                 (href (url response))
             = (Some (clipText (normalizeWhitespace raw) MAX_FULL_TEXT_CHARS),
                mkNet rest (asked' ++ [ReqGet (js "https://r.jina.ai/" ++ href (url response))]))).
  { intros asked'. unfold fetchReadableMirror, fetch. cbn [script requests].
    rewrite Hmok, Hmbody. cbn [negb].
    destruct (normalizeWhitespace raw); [contradiction|reflexivity]. }
  assert (Hclip : truthy (Some (clipText (normalizeWhitespace raw) MAX_FULL_TEXT_CHARS)) = true).
  { unfold clipText. destruct (_ <=? _)%nat.
    - cbn. destruct (normalizeWhitespace raw); [contradiction|reflexivity].
    - cbn. destruct (slice0 _ _); reflexivity. }
  destruct Hkind as [-> | ->]; rewrite Hbody, Htext;
    cbn [length Nat.ltb Nat.leb];
    repeat (rewrite ?Hnone; cbn [truthy negb andb]);
    rewrite Hmirror;
    do 2 eexists; (split; [reflexivity|]);
    cbn [fullText abstract withMissingFields missingFields];
    (split; [reflexivity|]); (split; [exact Hclip|]); (split; [exact Hnone|]);
    rewrite !getMissingFields_spec; cbn [fullText abstract];
    rewrite Hclip, Hnone; (split; [auto|]);
    intros [[H _]|[[H _]|[[H _]|[_ H]]]]; discriminate H.
Qed.

(** C10 (abstract fallback), at the input where it fails: an empty HTML
    page for which the mirror has a rendering.  The page gives neither an
    abstract nor any text, so the test that would copy the text into the
    abstract runs before there is a text; the mirror is consulted after
    it.  The details come back with the mirror's text as [fullText] and
    without an abstract: ["abstract"] is listed as missing and
    ["fullText"] is not. *)
Theorem abstract_missing_although_fullText_present :
  exists d net',
    extractGenericSource scrapersOnEmptyPage
      (mkNet [Responded emptyPage; Responded mirrorText] []) emptyPageUrl = (inr d, net')
    /\ sourceType d = html
    /\ fullText d = Some (js "Title: Example Rendered text of the page.")
    /\ abstract d = None
    /\ missingFields d = [js "authors"; js "year"; js "abstract"]
    /\ In (js "abstract") (missingFields d)
    /\ ~ In (js "fullText") (missingFields d).
Proof.
  do 2 eexists. split; [vm_compute; reflexivity|].
  repeat split; try (vm_compute; reflexivity).
  - vm_compute. auto 10.
  - vm_compute. intros [H|[H|[H|[]]]]; discriminate H.
Qed.

End SourceExtractFacts.

(* ===================================================================== *)
(** * Properties of the web search aggregator *)
(* ===================================================================== *)

Module WebSearchFacts.

Import WebSearch JsFacts.

(** Deduplication keeps the first result of every URL and nothing else. *)
Lemma dedupeFrom_spec l : forall seen,
  NoDup (map r_url (dedupeFrom seen l))
  /\ (forall r, In r (dedupeFrom seen l) -> In r l /\ r_url r ∉ seen)
  /\ (forall r, In r l -> r_url r ∉ seen -> In (r_url r) (map r_url (dedupeFrom seen l))).
Proof.
  induction l as [|a l IH]; intros seen; cbn [dedupeFrom].
  - cbn [map]. split; [constructor|]. split; intros r [].
  - destruct (bool_decide_reflect (r_url a ∈ seen)) as [Hin|Hout].
    + destruct (IH seen) as (Hnd & Hsub & Hall). split; [exact Hnd|]. split.
      * intros r Hr. apply Hsub in Hr as [Hr Hseen]. split; [right; exact Hr|exact Hseen].
      * intros r [<-|Hr] Hr'; [contradiction|]. apply Hall; assumption.
    + destruct (IH (r_url a :: seen)) as (Hnd & Hsub & Hall). cbn [map].
      split; [|split].
      * apply NoDup_cons_2; [|exact Hnd].
        intros Hin. apply list_elem_of_In in Hin.
        apply in_map_iff in Hin as (r & Hurl & Hr).
        apply Hsub in Hr as [_ Hr]. apply Hr. rewrite Hurl. left.
      * intros r [<-|Hr]; [split; [left; reflexivity|exact Hout]|].
        apply Hsub in Hr as [Hr Hseen]. split; [right; exact Hr|].
        intros Hin. apply Hseen. right. exact Hin.
      * intros r [<-|Hr] Hr'; [left; reflexivity|].
        destruct (decide (r_url r = r_url a)) as [->|Hne]; [left; reflexivity|].
        right. apply Hall; [exact Hr|].
        intros Hin. apply elem_of_cons in Hin as [Heq|Hin]; contradiction.
Qed.


Section Aggregation.

Variable searchSemanticScholar : jstring -> Z -> ProviderOutcome.
Variable searchArxiv : jstring -> Z -> ProviderOutcome.

Local Abbreviation merged := (afterSecondary searchSemanticScholar searchArxiv).
Local Abbreviation search := (execute searchSemanticScholar searchArxiv).




End Aggregation.




End WebSearchFacts.

(* ===================================================================== *)
(** * Properties of numbers *)
(* ===================================================================== *)

Module NumFacts.

Import Num.

Lemma ge_ofZ n c : ge (ofZ n) (ofZ c) = (c <=? n)%Z.
Proof.
  unfold ge, lt, ofZ. cbn [isNaN negb andb]. rewrite negb_involutive.
  destruct (Z.leb_spec c n) as [H|H].
  - apply QArith_base.Qle_bool_iff. rewrite <- QArith_base.Zle_Qle. exact H.
  - destruct (QArith_base.Qle_bool _ _) eqn:Hq; [|reflexivity].
    apply QArith_base.Qle_bool_iff in Hq. rewrite <- QArith_base.Zle_Qle in Hq. lia.
Qed.

Lemma lt_ofZ a b : lt (ofZ a) (ofZ b) = (a <? b)%Z.
Proof.
  unfold lt, ofZ. destruct (Z.ltb_spec a b) as [H|H].
  - apply negb_true_iff. destruct (QArith_base.Qle_bool _ _) eqn:Hq; [|reflexivity].
    apply QArith_base.Qle_bool_iff in Hq. rewrite <- QArith_base.Zle_Qle in Hq. lia.
  - apply negb_false_iff. apply QArith_base.Qle_bool_iff. rewrite <- QArith_base.Zle_Qle. exact H.
Qed.

(** A count that has reached a number stays above it as it grows. *)
Lemma ge_mono c n m : (n <= m)%Z -> ge (ofZ n) c = true -> ge (ofZ m) c = true.
Proof.
  intros Hnm. unfold ge, lt, ofZ. destruct c as [|[|]|q]; cbn [isNaN negb andb]; auto.
  rewrite !negb_involutive. intros H. apply QArith_base.Qle_bool_iff in H.
  apply QArith_base.Qle_bool_iff. eapply QArith_base.Qle_trans; [exact H|].
  rewrite <- QArith_base.Zle_Qle. exact Hnm.
Qed.

(** A count of zero does not reach a number that is at least one. *)
Lemma below_one c : ge c (ofZ 1) = true -> ge (ofZ 0) c = false.
Proof.
  unfold ge, lt, ofZ. destruct c as [|[|]|q]; cbn [isNaN negb andb]; auto.
  rewrite !negb_involutive. intros H. apply QArith_base.Qle_bool_iff in H.
  destruct (QArith_base.Qle_bool q _) eqn:Hq; [|reflexivity].
  apply QArith_base.Qle_bool_iff in Hq.
  pose proof (QArith_base.Qle_trans _ _ _ H Hq) as H10.
  rewrite <- QArith_base.Zle_Qle in H10. lia.
Qed.

(** Nothing reaches what is not a number. *)
Lemma ge_NaN x : ge x NaN = false.
Proof. unfold ge. cbn [isNaN negb]. rewrite andb_false_r. reflexivity. Qed.

(** [Math.max(1, x)], case by case. *)
Lemma max_one x :
  max (ofZ 1) x
  = if isNaN x then NaN else if lt x (ofZ 1) then ofZ 1 else x.
Proof. unfold max. reflexivity. Qed.

(** It is at least one, unless [x] is not a number. *)
Lemma max_one_ge x : isNaN x = false -> ge (max (ofZ 1) x) (ofZ 1) = true.
Proof.
  intros Hx. rewrite max_one, Hx. destruct (lt x (ofZ 1)) eqn:Hlt.
  - rewrite ge_ofZ. reflexivity.
  - unfold ge. rewrite Hx. cbn [isNaN ofZ negb andb]. rewrite Hlt. reflexivity.
Qed.

End NumFacts.

(* ===================================================================== *)
(** * Properties of the session controller *)
(* ===================================================================== *)

Module SessionFacts.

Import Session NumFacts.

(** The cap, once reached, stays reached. *)
Lemma reached_mono s n m : (n <= m)%Z -> reached s n = true -> reached s m = true.
Proof. unfold reached. apply ge_mono. Qed.

Lemma reached_same s' s n : maxTurns s' = maxTurns s -> reached s' n = reached s n.
Proof. unfold reached. intros ->. reflexivity. Qed.

Section Handler.

Variable pf : Platform.

Lemma cancellations_callAgent s c :
  cancellations (callAgent s c)
  = (cancellations s + match c with CallAbort => 1 | _ => 0 end)%nat.
Proof.
  unfold cancellations, callAgent; simpl.
  rewrite List.filter_app, length_app. destruct c; simpl; lia.
Qed.

(** [addSource] touches the table of the current run and the clock,
    nothing else. *)
Lemma addSource_running s r run src :
  running s r run ->
  exists table,
    running (addSource pf s src) r
            (mkRunState (turnCount run) (maxTurnsExceeded run) table)
    /\ sameOutside (addSource pf s src) s.
Proof.
  intros [Hc Hh]. unfold addSource. rewrite Hc, Hh.
  eexists. split; [split|]; simpl.
  - exact Hc.
  - apply list_lookup_insert_eq. eapply lookup_lt_Some; eauto.
  - repeat split.
Qed.

Lemma addSources_running (mk : JsValue -> SourceInput) items : forall s r run,
  running s r run ->
  exists table,
    running (foldl (fun s' entry => addSource pf s' (mk entry)) s items) r
            (mkRunState (turnCount run) (maxTurnsExceeded run) table)
    /\ sameOutside (foldl (fun s' entry => addSource pf s' (mk entry)) s items) s.
Proof.
  induction items as [|entry items IH]; intros s r run Hrun; simpl.
  - exists (sources run). destruct run; simpl. destruct Hrun. repeat split; auto.
  - destruct (addSource_running s r run (mk entry) Hrun) as (t1 & H1 & Hm & Ha & He).
    destruct (IH _ _ _ H1) as (t2 & H2 & Hm2 & Ha2 & He2). simpl in *.
    exists t2. repeat split; try apply H2; congruence.
Qed.

Lemma ingestToolSources_running s r run toolName result :
  running s r run ->
  exists table,
    running (ingestToolSources pf s toolName result) r
            (mkRunState (turnCount run) (maxTurnsExceeded run) table)
    /\ sameOutside (ingestToolSources pf s toolName result) s.
Proof.
  intros Hrun.
  assert (Hsame : exists table,
             running s r (mkRunState (turnCount run) (maxTurnsExceeded run) table)
             /\ sameOutside s s).
  { exists (sources run). destruct run; simpl. destruct Hrun. repeat split; auto. }
  unfold ingestToolSources.
  destruct (negb (isRecord result)); [exact Hsame|].
  destruct (_ && isWebSearchToolDetails _).
  - destruct (prop (prop result "details") "results"); try exact Hsame.
    apply addSources_running; exact Hrun.
  - destruct (_ && isExtractSourceToolDetails _); [|exact Hsame].
    apply addSource_running; exact Hrun.
Qed.

(** One event: the turn count moves by one on a turn boundary, the
    cap flag is raised the first time the count reaches the cap, and
    that is the only moment the engine is asked to stop. *)
Lemma handleAgentEvent_running s r run event :
  running s r run ->
  let s' := handleAgentEvent pf s event in
  let isTurn := match event with turn_end => true | _ => false end in
  let count := if isTurn then (turnCount run + 1)%Z else turnCount run in
  let fires := isTurn && reached s count && negb (maxTurnsExceeded run) in
  exists table,
    running s' r (mkRunState count (maxTurnsExceeded run || fires) table)
    /\ maxTurns s' = maxTurns s
    /\ cancellations s' = (cancellations s + if fires then 1 else 0)%nat
    /\ emitted s' = emitted s ++ [agent_event event].
Proof.
  intros Hrun. pose proof Hrun as [Hc Hh].
  unfold handleAgentEvent. rewrite Hc, Hh.
  destruct event as [|toolName result|ty]; simpl.
  - change (Num.ge (Num.ofZ (turnCount run + 1)) (maxTurns s))
      with (reached s (turnCount run + 1)).
    destruct (reached s (turnCount run + 1)) eqn:Hcap;
      destruct (maxTurnsExceeded run) eqn:Hex; simpl;
      exists (sources run); (repeat split; simpl; auto);
      try (apply list_lookup_insert_eq; eapply lookup_lt_Some; eauto).
    all: unfold cancellations; simpl;
      rewrite ?List.filter_app, ?length_app; simpl; lia.
  - destruct (ingestToolSources_running s r run toolName result Hrun)
      as (table & [Hc' Hh'] & Hm & Ha & He).
    exists table. rewrite orb_false_r. repeat split; auto.
    + unfold cancellations; simpl. rewrite Ha. lia.
    + simpl. congruence.
  - exists (sources run). rewrite orb_false_r. destruct run; simpl.
    repeat split; auto.
Qed.

Lemma turns_app evs1 evs2 : turns (evs1 ++ evs2) = (turns evs1 + turns evs2)%Z.
Proof. unfold turns. rewrite List.filter_app, length_app. lia. Qed.

Lemma turns_nonneg evs : (0 <= turns evs)%Z.
Proof. unfold turns. lia. Qed.

(** A run, event after event: the invariant that ties the count, the
    flag and the number of cancellation requests together. *)
Lemma handle_events evs : forall s r run,
  running s r run ->
  maxTurnsExceeded run = reached s (turnCount run) ->
  (0 <= turnCount run)%Z ->
  let s' := foldl (handleAgentEvent pf) s evs in
  let n := (turnCount run + turns evs)%Z in
  exists table,
    running s' r (mkRunState n (reached s n) table)
    /\ maxTurns s' = maxTurns s
    /\ cancellations s'
       = (cancellations s
          + if reached s n && negb (reached s (turnCount run))
            then 1 else 0)%nat.
Proof.
  induction evs as [|event evs IH]; intros s r run Hrun Hflag Hpos; simpl.
  - exists (sources run). unfold turns; simpl. rewrite Z.add_0_r, <- Hflag.
    destruct run; simpl in *. destruct Hrun.
    repeat split; auto. destruct maxTurnsExceeded0; simpl; lia.
  - destruct (handleAgentEvent_running s r run event Hrun)
      as (t1 & Hrun1 & Hm1 & Hc1 & _).
    set (s1 := handleAgentEvent pf s event) in *.
    set (isTurn := match event with turn_end => true | _ => false end) in *.
    assert (Hturns : turns (event :: evs)
                     = ((if isTurn then 1 else 0) + turns evs)%Z).
    { change (event :: evs) with ([event] ++ evs). rewrite turns_app.
      unfold turns, isTurn. destruct event; reflexivity. }
    pose proof (turns_nonneg evs) as Hn.
    edestruct (IH s1) as (t2 & Hrun2 & Hm2 & Hc2); [exact Hrun1| | |].
    + rewrite (reached_same s1 s _ Hm1). cbn [turnCount maxTurnsExceeded]. rewrite Hflag.
      destruct isTurn; cbn [andb orb]; [|rewrite orb_false_r; reflexivity].
      pose proof (reached_mono s (turnCount run) (turnCount run + 1) ltac:(lia)) as Hmono.
      destruct (reached s (turnCount run)); [rewrite Hmono; reflexivity|].
      cbn [negb orb]. rewrite andb_true_r. reflexivity.
    + cbn [turnCount]. destruct isTurn; lia.
    + cbn [turnCount] in Hrun2, Hc2.
      assert (Hr : forall n, reached s1 n = reached s n)
        by (intros n; apply reached_same; exact Hm1).
      rewrite !Hr in Hrun2, Hc2. rewrite Hturns.
      replace (turnCount run + ((if isTurn then 1 else 0) + turns evs))%Z
        with ((if isTurn then (turnCount run + 1)%Z else turnCount run) + turns evs)%Z
        by (destruct isTurn; lia).
      exists t2. split; [exact Hrun2|]. split; [congruence|].
      rewrite Hc2, Hc1, Hflag, ?Hr.
      set (count1 := if isTurn then (turnCount run + 1)%Z else turnCount run) in *.
      pose proof (reached_mono s (turnCount run) count1
                    ltac:(unfold count1; destruct isTurn; lia)) as Hab.
      pose proof (reached_mono s count1 (count1 + turns evs) ltac:(lia)) as Hbd.
      assert (Hsame : isTurn = false -> reached s count1 = reached s (turnCount run))
        by (unfold count1; intros ->; reflexivity).
      destruct isTurn; cbn [andb orb].
      * revert Hab Hbd.
        destruct (reached s (turnCount run)), (reached s count1),
          (reached s (count1 + turns evs));
          intros Hab Hbd; cbn [andb orb negb]; try lia;
          first [discriminate (Hab eq_refl)|discriminate (Hbd eq_refl)].
      * rewrite (Hsame eq_refl).
        destruct (reached s (count1 + turns evs)), (reached s (turnCount run));
          cbn [andb negb]; lia.
Qed.

Lemma running_callAgent s r run c :
  running s r run -> running (callAgent s c) r run.
Proof. intros [? ?]; split; assumption. Qed.

(** The state a run starts in: a fresh [RunState] becomes the current
    one, and the engine is given its prompt but no order to stop. *)
Lemma resume_mkdir_running s l v :
  exists table,
    running (fst (resume pf s (AwaitMkdir l) (Fulfilled v))) (length (heap s))
            (mkRunState 0 false table)
    /\ maxTurns (fst (resume pf s (AwaitMkdir l) (Fulfilled v))) = maxTurns s
    /\ cancellations (fst (resume pf s (AwaitMkdir l) (Fulfilled v))) = cancellations s.
Proof.
  cbn [resume fst].
  set (s1 := withRun s (heap s ++ [mkRunState 0 false ∅]) (Some (length (heap s)))).
  assert (H1 : running s1 (length (heap s)) (mkRunState 0 false ∅)).
  { split; [reflexivity|]. cbn. apply list_lookup_middle. reflexivity. }
  destruct (addSource_running s1 _ _
              (mkSourceInput (href (seedUrl l)) (Some (js "Seed Paper"))
                             (Some (js "seed")) None) H1)
    as (table & Hrun & Hm & Ha & He).
  exists table. split; [|split].
  - repeat apply running_callAgent. exact Hrun.
  - cbn. exact Hm.
  - rewrite !cancellations_callAgent. unfold cancellations at 1. rewrite Ha.
    unfold cancellations. cbn. lia.
Qed.

End Handler.

(** C1 (turn-cap enforcement).  In a run that starts with a turn count
    of zero under a cap that a count of zero does not reach (any cap of
    at least one), after any sequence of engine events the turn count is
    the number of turn-boundary events, the run is marked cap-exceeded
    exactly when that number has reached the cap, and the engine has
    been asked to stop once if it has and not at all otherwise.  In
    particular the request is made by the event that brings the count to
    the cap, and no later event repeats it.  For a cap that is an
    integer, the count reaches it when it is at least the cap. *)
Theorem turn_cap_cancels_exactly_once pf s r run evs :
  running s r run ->
  turnCount run = 0%Z ->
  maxTurnsExceeded run = false ->
  reached s 0 = false ->
  let after := fun es => foldl (handleAgentEvent pf) s es in
  (exists table,
      running (after evs) r
              (mkRunState (turns evs) (reached s (turns evs)) table)
      /\ cancellations (after evs)
         = (cancellations s + if reached s (turns evs) then 1 else 0)%nat)
  /\ (forall before rest,
        evs = before ++ turn_end :: rest ->
        reached s (turns before) = false ->
        reached s (turns before + 1) = true ->
        cancellations (after before) = cancellations s
        /\ cancellations (after (before ++ [turn_end])) = S (cancellations s)
        /\ cancellations (after evs) = S (cancellations s))
  /\ (forall cap,
        maxTurns s = Num.ofZ cap ->
        (reached s 0 = false <-> (1 <= cap)%Z)
        /\ forall n, reached s n = (cap <=? n)%Z).
Proof.
  intros Hrun Hcount Hflag Hcap after.
  assert (Hgen : forall es,
             exists table,
               running (after es) r
                       (mkRunState (turns es) (reached s (turns es)) table)
               /\ cancellations (after es)
                  = (cancellations s + if reached s (turns es) then 1 else 0)%nat).
  { intros es. unfold after.
    destruct (handle_events pf es s r run Hrun) as (table & Hr & _ & Hc).
    - rewrite Hflag, Hcount, Hcap. reflexivity.
    - lia.
    - rewrite Hcount in *. rewrite Z.add_0_l in *.
      exists table. split; [exact Hr|]. rewrite Hc, Hcap, andb_true_r. reflexivity. }
  split; [apply Hgen|]. split.
  - intros before rest Hsplit Hbelow Hreach.
    destruct (Hgen before) as (_ & _ & Hb).
    destruct (Hgen (before ++ [turn_end])) as (_ & _ & Hb1).
    destruct (Hgen evs) as (_ & _ & He).
    rewrite Hb, Hb1, He. subst evs. rewrite !turns_app.
    pose proof (turns_nonneg rest).
    change (turns [turn_end]) with 1%Z.
    assert (turns (turn_end :: rest) = 1 + turns rest)%Z as ->.
    { change (turn_end :: rest) with ([turn_end] ++ rest). rewrite turns_app. reflexivity. }
    rewrite Hbelow, Hreach.
    rewrite (reached_mono s (turns before + 1) (turns before + (1 + turns rest))
               ltac:(lia) Hreach).
    lia.
  - intros cap Hint.
    assert (Hn : forall n, reached s n = (cap <=? n)%Z)
      by (intros n; unfold reached; rewrite Hint; apply ge_ofZ).
    split; [|exact Hn]. rewrite Hn. rewrite Z.leb_gt. lia.
Qed.

(** With a cap of three, the third turn-boundary event asks the engine
    to stop and the fourth does not ask again. *)
Lemma turn_cap_cancels_exactly_once_witness :
  let s := demoStarted (Some 3%Z) in
  let after := fun es => foldl (handleAgentEvent demoPlatform) s es in
  cancellations s = 0%nat
  /\ cancellations (after [turn_end; turn_end]) = 0%nat
  /\ cancellations (after [turn_end; turn_end; turn_end]) = 1%nat
  /\ cancellations (after [turn_end; turn_end; turn_end; turn_end]) = 1%nat.
Proof.
  intros s after.
  assert (Hs : exists table, running s 0 (mkRunState 0 false table)).
  { eexists. split; vm_compute; reflexivity. }
  destruct Hs as (table & Hrun).
  assert (H0 : cancellations s = 0%nat) by (vm_compute; reflexivity).
  destruct (turn_cap_cancels_exactly_once demoPlatform s 0 _
              [turn_end; turn_end; turn_end; turn_end] Hrun eq_refl eq_refl)
    as ((_ & _ & H4) & Hsplit & _); [vm_compute; reflexivity|].
  destruct (Hsplit [turn_end; turn_end] [turn_end] eq_refl) as (H2 & H3 & _);
    [vm_compute; reflexivity|vm_compute; reflexivity|].
  fold after in H2, H3, H4. rewrite H0 in *.
  repeat split; assumption.
Defined.

(** C9, as stated, fails for an option that is not a number.  The cap
    is then not a number either: it is not at least one, no count of
    turns reaches it, and four turns end without the engine being asked
    to stop, where under a cap of one the first of them asks. *)
Lemma effective_turn_cap_claim_counterexample :
  let options := mkOptions None None (Some Num.NaN) in
  let started cap :=
    fst (resume demoPlatform (create demoPlatform cap)
                (AwaitMkdir (mkLocals demoUrl [] [] [] [] [])) (Fulfilled [])) in
  let fourTurns := [turn_end; turn_end; turn_end; turn_end] in
  maxTurns (create demoPlatform options) = Num.NaN
  /\ Num.ge (maxTurns (create demoPlatform options)) (Num.ofZ 1) = false
  /\ cancellations (foldl (handleAgentEvent demoPlatform) (started options) fourTurns)
     = 0%nat
  /\ cancellations
       (foldl (handleAgentEvent demoPlatform) (started (demoOptions (Some 1%Z))) fourTurns)
     = 1%nat.
Proof. vm_compute. repeat split. Qed.

(** C9, amended (the effective cap).  The cap the controller uses is
    [Math.max(1, maxTurns)], with 24 standing in for an absent option.
    For every option that is a number, zero and the negative ones
    included, and for an absent one, the cap is at least one: it is one
    for a number below one and the number itself otherwise.  For an
    option that is not a number the cap is not a number, and no count of
    turns ever reaches it.  Whatever the option, no cancellation is
    requested in a run as long as no turn has ended. *)
Theorem effective_turn_cap_at_least_one pf options :
  maxTurns (create pf options)
  = Num.max (Num.ofZ 1) (default (Num.ofZ 24) (opt_maxTurns options))
  /\ (opt_maxTurns options = None -> maxTurns (create pf options) = Num.ofZ 24)
  /\ (forall x,
        opt_maxTurns options = Some x ->
        Num.isNaN x = false ->
        maxTurns (create pf options) = (if Num.lt x (Num.ofZ 1) then Num.ofZ 1 else x)
        /\ forall z, x = Num.ofZ z -> maxTurns (create pf options) = Num.ofZ (Z.max 1 z))
  /\ (opt_maxTurns options <> Some Num.NaN ->
      Num.ge (maxTurns (create pf options)) (Num.ofZ 1) = true)
  /\ (opt_maxTurns options = Some Num.NaN ->
      maxTurns (create pf options) = Num.NaN
      /\ forall n, reached (create pf options) n = false)
  /\ (forall l v evs,
        turns evs = 0%Z ->
        cancellations
          (foldl (handleAgentEvent pf)
                 (fst (resume pf (create pf options) (AwaitMkdir l) (Fulfilled v))) evs)
        = 0%nat).
Proof.
  assert (Hcap : maxTurns (create pf options)
                 = Num.max (Num.ofZ 1) (default (Num.ofZ 24) (opt_maxTurns options)))
    by reflexivity.
  assert (Hnumber : opt_maxTurns options <> Some Num.NaN ->
                    Num.ge (maxTurns (create pf options)) (Num.ofZ 1) = true).
  { intros Hnot. rewrite Hcap. apply max_one_ge.
    destruct (opt_maxTurns options) as [[| |]|]; try reflexivity. contradiction. }
  assert (Hnan : opt_maxTurns options = Some Num.NaN ->
                 maxTurns (create pf options) = Num.NaN).
  { intros Hopt. rewrite Hcap, Hopt. reflexivity. }
  assert (Hzero : reached (create pf options) 0 = false).
  { unfold reached.
    destruct (opt_maxTurns options) as [[| |]|] eqn:Hopt;
      try (apply below_one, Hnumber; discriminate).
    rewrite (Hnan eq_refl). apply ge_NaN. }
  split; [exact Hcap|]. split; [|split; [|split; [|split]]].
  - intros Hnone. rewrite Hcap, Hnone. reflexivity.
  - intros x Hopt Hx. rewrite Hcap, Hopt. cbn [default from_option id].
    rewrite max_one, Hx. split; [reflexivity|].
    intros z ->. rewrite lt_ofZ. destruct (Z.ltb_spec z 1); f_equal; lia.
  - exact Hnumber.
  - intros Hopt. split; [exact (Hnan Hopt)|].
    intros n. unfold reached. rewrite (Hnan Hopt). apply ge_NaN.
  - intros l v evs Hturns.
    destruct (resume_mkdir_running pf (create pf options) l v)
      as (table & Hrun & Hm & Hc).
    destruct (handle_events pf evs _ _ _ Hrun) as (_ & _ & _ & Hcount).
    + cbn [maxTurnsExceeded turnCount]. rewrite (reached_same _ _ _ Hm), Hzero. reflexivity.
    + cbn. lia.
    + rewrite Hcount, Hc. cbn [turnCount]. rewrite Hturns.
      change (0 + 0)%Z with 0%Z. rewrite (reached_same _ _ _ Hm), Hzero. reflexivity.
Qed.

(** A controller constructed with a cap of zero, of minus five or with
    none. *)
Lemma effective_turn_cap_at_least_one_witness :
  maxTurns (create demoPlatform (demoOptions (Some 0%Z))) = Num.ofZ 1
  /\ maxTurns (create demoPlatform (demoOptions (Some (-5)%Z))) = Num.ofZ 1
  /\ maxTurns (create demoPlatform (demoOptions None)) = Num.ofZ 24
  /\ cancellations
       (foldl (handleAgentEvent demoPlatform)
              (fst (resume demoPlatform (create demoPlatform (demoOptions (Some 0%Z)))
                           (AwaitMkdir
                              (mkLocals demoUrl [] [] [] [] [])) (Fulfilled [])))
              [other_event (js "agent_start"); other_event (js "turn_start")])
     = 0%nat.
Proof.
  split; [|split; [|split]].
  - destruct (effective_turn_cap_at_least_one demoPlatform (demoOptions (Some 0%Z)))
      as (_ & _ & Hnumber & _).
    destruct (Hnumber (Num.ofZ 0) eq_refl eq_refl) as [_ Hint].
    exact (Hint 0%Z eq_refl).
  - destruct (effective_turn_cap_at_least_one demoPlatform (demoOptions (Some (-5)%Z)))
      as (_ & _ & Hnumber & _).
    destruct (Hnumber (Num.ofZ (-5)) eq_refl eq_refl) as [_ Hint].
    exact (Hint (-5)%Z eq_refl).
  - apply (effective_turn_cap_at_least_one demoPlatform (demoOptions None)). reflexivity.
  - apply (effective_turn_cap_at_least_one demoPlatform (demoOptions (Some 0%Z))).
    reflexivity.
Defined.

(** ** The source table *)



Lemma orElse_populated a b : truthy a = true -> orElse a b = a.
Proof. unfold orElse. intros ->. reflexivity. Qed.


Lemma mergeSource_lookup now src table :
  mergeSource now src table !! si_url src
  = Some match table !! si_url src with
         | None => mkSource (si_url src) (si_title src) (si_source src)
                            (si_snippet src) now
         | Some existing =>
             mkSource (sr_url existing)
                      (orElse (sr_title existing) (si_title src))
                      (orElse (sr_source existing) (si_source src))
                      (orElse (sr_snippet existing) (si_snippet src))
                      (addedAt existing)
         end.
Proof.
  unfold mergeSource. destruct (table !! si_url src); apply lookup_insert_eq.
Qed.

Lemma mergeSource_other now src table k :
  k <> si_url src -> mergeSource now src table !! k = table !! k.
Proof.
  intros Hk. unfold mergeSource.
  destruct (table !! si_url src); apply lookup_insert_ne; congruence.
Qed.

Lemma mergeSource_keyed now src table :
  keyedByUrl table -> keyedByUrl (mergeSource now src table).
Proof.
  intros Hkeyed k e. destruct (decide (k = si_url src)) as [->|Hk].
  - rewrite mergeSource_lookup. intros [= <-].
    destruct (table !! si_url src) as [existing|] eqn:Hex; [|reflexivity].
    cbn. eapply Hkeyed; eauto.
  - rewrite mergeSource_other by assumption. apply Hkeyed.
Qed.





(** ** The life of a [RunState] *)

Section Run.

Variable pf : Platform.

(** [addSource] writes the merged table into the current run. *)
Lemma addSource_merges s r run src :
  running s r run ->
  running (addSource pf s src) r
          (mkRunState (turnCount run) (maxTurnsExceeded run)
                      (mergeSource (clock pf (clockReads s)) src (sources run))).
Proof.
  intros [Hc Hh]. unfold addSource. rewrite Hc, Hh. split; cbn.
  - exact Hc.
  - apply list_lookup_insert_eq. eapply lookup_lt_Some; eauto.
Qed.

Lemma currentRun_addSource s src : currentRun (addSource pf s src) = currentRun s.
Proof.
  unfold addSource. destruct (currentRun s) as [r|] eqn:Hc; [|exact Hc].
  destruct (heap s !! r); [cbn|]; exact Hc.
Qed.

Lemma currentRun_addSources (mk : JsValue -> SourceInput) items : forall s,
  currentRun (foldl (fun s' entry => addSource pf s' (mk entry)) s items) = currentRun s.
Proof.
  induction items as [|entry items IH]; intros s; cbn; [reflexivity|].
  rewrite IH. apply currentRun_addSource.
Qed.

Lemma currentRun_ingestToolSources s toolName result :
  currentRun (ingestToolSources pf s toolName result) = currentRun s.
Proof.
  unfold ingestToolSources.
  destruct (negb (isRecord result)); [reflexivity|].
  destruct (_ && isWebSearchToolDetails _).
  - destruct (prop (prop result "details") "results"); try reflexivity.
    apply currentRun_addSources.
  - destruct (_ && isExtractSourceToolDetails _); [|reflexivity].
    apply currentRun_addSource.
Qed.

(** No event makes the controller take up or drop a run. *)
Lemma currentRun_handleAgentEvent s event :
  currentRun (handleAgentEvent pf s event) = currentRun s.
Proof.
  unfold handleAgentEvent. cbn.
  destruct (currentRun s) as [r|] eqn:Hc; [|exact Hc].
  destruct (heap s !! r); [|exact Hc].
  destruct event; cbn; try exact Hc.
  - destruct (_ && _); cbn; exact Hc.
  - rewrite currentRun_ingestToolSources. exact Hc.
Qed.

Lemma currentRun_handle_events evs : forall s,
  currentRun (foldl (handleAgentEvent pf) s evs) = currentRun s.
Proof.
  induction evs as [|event evs IH]; intros s; cbn; [reflexivity|].
  rewrite IH. apply currentRun_handleAgentEvent.
Qed.

(** The guard: while the controller holds a [RunState], a call of
    [run] is rejected at once and changes nothing. *)
Lemma run_call_rejected_while_held s r seedPaperUrl :
  currentRun s = Some r ->
  run_call pf s seedPaperUrl = (s, Settled (inl AlreadyRunning)).
Proof. intros Hc. unfold run_call. rewrite Hc. reflexivity. Qed.

(** A call changes nothing before its first [await]: in particular it
    does not yet take up a run. *)
Lemma run_call_leaves_state s seedPaperUrl :
  fst (run_call pf s seedPaperUrl) = s.
Proof.
  unfold run_call.
  repeat match goal with
         | |- context [match ?x with _ => _ end] => destruct x
         | |- context [if ?x then _ else _] => destruct x
         end; reflexivity.
Qed.

(** A call either reaches [await mkdir] or is rejected. *)
Lemma run_call_frame s seedPaperUrl :
  (exists l, snd (run_call pf s seedPaperUrl) = AwaitMkdir l)
  \/ (exists e, snd (run_call pf s seedPaperUrl) = Settled (inl e)).
Proof.
  unfold run_call.
  repeat match goal with
         | |- context [match ?x with _ => _ end] => destruct x
         | |- context [if ?x then _ else _] => destruct x
         end; cbn [snd]; eauto.
Qed.

(** The continuation after the prompt drops the run, however the
    prompt settled. *)
Lemma resume_prompt_clears s l r p settled :
  currentRun (fst (resume pf s (AwaitPrompt l r p) settled)) = None.
Proof.
  cbn. destruct settled; [|reflexivity].
  destruct (maxTurnsExceeded _); reflexivity.
Qed.

Lemma resume_idle s f settled :
  currentRun s = None ->
  (forall l, f <> AwaitMkdir l) ->
  currentRun (fst (resume pf s f settled)) = None.
Proof.
  intros Hc Hf. destruct f; try (destruct settled; cbn; assumption).
  - exfalso. eapply Hf. reflexivity.
  - apply resume_prompt_clears.
Qed.

(** A run that nothing interleaves with settles, and whatever its
    outcome the controller holds no [RunState] afterwards. *)
Lemma run_settles_and_clears s seedPaperUrl env :
  currentRun s = None ->
  currentRun (fst (run pf s seedPaperUrl env)) = None
  /\ exists outcome, snd (run pf s seedPaperUrl env) = Settled outcome.
Proof.
  intros Hidle. unfold run.
  pose proof (run_call_leaves_state s seedPaperUrl) as Hcall.
  pose proof (run_call_frame s seedPaperUrl) as Hframe.
  destruct (run_call pf s seedPaperUrl) as [s0 f0]. cbn [fst snd] in *. subst s0.
  destruct Hframe as [[l ->]|[e ->]];
    [|cbn [advance fst snd]; split; eauto].
  (* the call reached [await mkdir] *)
  cbn [advance]. destruct (env_mkdir env) as [v|reason].
  - cbn [resume].
    match goal with
    | |- context [advance pf env (?s1, AwaitPrompt ?l ?r ?p)] =>
        set (started := s1); set (path := p); set (ref := r)
    end.
    cbn [advance].
    pose proof (resume_prompt_clears
                  (foldl (handleAgentEvent pf) started (env_events env))
                  l ref path (env_prompt env)) as Hclear.
    destruct (resume pf (foldl (handleAgentEvent pf) started (env_events env))
                     (AwaitPrompt l ref path) (env_prompt env)) as [s2 f2] eqn:Hres.
    cbn [fst] in Hclear.
    assert (Hf2 : (exists o, f2 = Settled o) \/ f2 = AwaitReadFile l ref path).
    { cbn [resume] in Hres. destruct (env_prompt env); [|inversion Hres; eauto].
      destruct (maxTurnsExceeded _); inversion Hres; eauto. }
    destruct Hf2 as [[o ->]| ->].
    + cbn [advance fst snd]. split; eauto.
    + repeat (cbn [advance resume fst snd];
              try match goal with
                  | |- context [match ?x with Fulfilled _ => _ | Rejected _ => _ end] =>
                      destruct x
                  end).
      all: split; eauto.
  - cbn [resume advance fst snd]. split; eauto.
Qed.

(** So a run can follow a run: after one has settled, whatever its
    outcome, the guard lets the next call through. *)
Lemma run_after_run_not_rejected s seedA seedB env :
  currentRun s = None ->
  snd (run_call pf (fst (run pf s seedA env)) seedB) <> Settled (inl AlreadyRunning).
Proof.
  intros Hidle.
  destruct (run_settles_and_clears s seedA env Hidle) as [Hclear _].
  unfold run_call. rewrite Hclear.
  repeat match goal with
         | |- context [match ?x with _ => _ end] => destruct x
         | |- context [if ?x then _ else _] => destruct x
         end; cbn; discriminate.
Qed.

(** But the guard reads [currentRun], which a call sets only after its
    [await mkdir]: a second call made while the first is still there
    sees what the first saw. *)
Lemma run_call_blind_before_mkdir s seedA seedB l s' :
  run_call pf s seedA = (s', AwaitMkdir l) ->
  run_call pf s' seedB = run_call pf s seedB
  /\ snd (run_call pf s' seedB) <> Settled (inl AlreadyRunning).
Proof.
  intros Hcall.
  pose proof (run_call_leaves_state s seedA) as Hsame.
  rewrite Hcall in Hsame. cbn in Hsame. subst s'.
  split; [reflexivity|].
  assert (Hidle : currentRun s = None).
  { unfold run_call in Hcall. destruct (currentRun s); [discriminate|reflexivity]. }
  unfold run_call. rewrite Hidle.
  repeat match goal with
         | |- context [match ?x with _ => _ end] => destruct x
         | |- context [if ?x then _ else _] => destruct x
         end; cbn; discriminate.
Qed.

End Run.

(** C4 (one run at a time).  The part of the claim that fails: two
    calls of [run] made one after the other, the second before the
    [mkdir] of the first has settled.  The second call is not rejected;
    both go on and each creates a [RunState], the second taking the
    place of the first in [currentRun].  When the second settles (here
    the engine rejects its prompt) its [finally] clears [currentRun]
    under the first run, whose turn-boundary events are then no longer
    counted: with a cap of three, four turns end without a cancellation
    request and the first run goes on to read its report. *)
Theorem overlapping_run_calls_are_both_accepted :
  let s0 := create demoPlatform (demoOptions (Some 3%Z)) in
  let '(s1, first) := run_call demoPlatform s0 (href demoUrl) in
  let '(s2, second) := run_call demoPlatform s1 (href demoUrl) in
  let '(s3, first1) := resume demoPlatform s2 first (Fulfilled []) in
  let '(s4, second1) := resume demoPlatform s3 second (Fulfilled []) in
  let '(s5, second2) := resume demoPlatform s4 second1 (Rejected (js "busy")) in
  let s6 := foldl (handleAgentEvent demoPlatform) s5
                  [turn_end; turn_end; turn_end; turn_end] in
  let '(s7, first2) := resume demoPlatform s6 first1 (Fulfilled []) in
  (exists l, first = AwaitMkdir l /\ second = AwaitMkdir l)
  /\ currentRun s3 = Some 0%nat
  /\ currentRun s4 = Some 1%nat
  /\ length (heap s4) = 2%nat
  /\ (exists l p, first1 = AwaitPrompt l 0 p)
  /\ second2 = Settled (inl (Failure (js "busy")))
  /\ currentRun s5 = None
  /\ cancellations s6 = 0%nat
  /\ turnCount (runAt s6 0) = 0%Z
  /\ (exists l p, first2 = AwaitReadFile l 0 p).
Proof.
  vm_compute. repeat split; eauto.
Qed.

End SessionFacts.

(* ===================================================================== *)
(** * Further properties of the string functions *)
(* ===================================================================== *)

Module JsMore.

Import JsFacts.

Lemma startsWith_unit_false (s : jstring) h :
  startsWith s [h] = false <-> (s = [] \/ exists c t, s = c :: t /\ c <> h).
Proof.
  unfold startsWith. destruct s as [|c t]; cbn [stripPrefix].
  - split; [left; reflexivity|reflexivity].
  - destruct (N.eqb_spec h c) as [->|Hne].
    + destruct t; (split; [discriminate|]);
        intros [H|(c' & t' & [= <- _] & Hc)]; try discriminate; contradiction.
    + split; [|reflexivity]. intros _. right. exists c, t. split; [reflexivity|congruence].
Qed.

Lemma includes_cons_false c s p :
  includes (c :: s) p = false -> includes s p = false.
Proof. unfold includes. cbn [anywhere]. intros H. apply orb_false_iff in H as [_ H]. exact H. Qed.

Lemma includes_app_false a b p :
  includes (a ++ b) p = false -> includes a p = false /\ includes b p = false.
Proof.
  intros H. split.
  - destruct (includes a p) eqn:Ha; [|reflexivity].
    apply ReportFacts.includes_true in Ha as (x & y & ->).
    assert (includes ((x ++ p ++ y) ++ b) p = true) as Ht.
    { apply ReportFacts.includes_true. exists x, (y ++ b). rewrite <- !app_assoc. reflexivity. }
    congruence.
  - destruct (includes b p) eqn:Hb; [|reflexivity].
    apply ReportFacts.includes_true in Hb as (x & y & ->).
    assert (includes (a ++ x ++ p ++ y) p = true) as Ht.
    { apply ReportFacts.includes_true. exists (a ++ x), y. rewrite <- !app_assoc. reflexivity. }
    congruence.
Qed.

(** A text in which every unit of the class is the replacement, never
    twice in a row, is left as it is. *)
Lemma replaceRuns_fixed (p : N -> bool) h s : forall b,
  (forall c, In c s -> p c = true -> c = h) ->
  includes s [h; h] = false ->
  (b = true -> startsWith s [h] = false) ->
  replaceRunsFrom p [h] b s = s.
Proof.
  induction s as [|c s IH]; intros b Hclass Hdouble Hstart; [reflexivity|].
  cbn [replaceRunsFrom].
  assert (Hclass' : forall d, In d s -> p d = true -> d = h)
    by (intros d Hd; apply Hclass; right; exact Hd).
  pose proof (includes_cons_false _ _ _ Hdouble) as Hdouble'.
  destruct (p c) eqn:Hc.
  - assert (c = h) by (apply Hclass; [left; reflexivity|exact Hc]). subst c.
    destruct b.
    + specialize (Hstart eq_refl). apply startsWith_unit_false in Hstart.
      destruct Hstart as [H|(c & t & [= <- _] & Hne)]; [discriminate|contradiction].
    + cbn [app]. f_equal. apply IH; try assumption. intros _.
      unfold includes in Hdouble. cbn [anywhere] in Hdouble.
      apply orb_false_iff in Hdouble as [Hd _].
      unfold startsWith in *. cbn [stripPrefix] in Hd. rewrite N.eqb_refl in Hd. exact Hd.
  - f_equal. apply IH; try assumption. discriminate.
Qed.

End JsMore.

(* ===================================================================== *)
(** * Further properties of the slug derivation *)
(* ===================================================================== *)

Module SlugMore.

Import Slug JsFacts JsMore SlugFacts.

Lemma slugUnit_cases c :
  slugUnit c = true -> (isHyphen c = true /\ notSlugUnit c = true)
                       \/ (isHyphen c = false /\ notSlugUnit c = false).
Proof.
  unfold slugUnit, notSlugUnit. intros H.
  destruct (isHyphen c) eqn:Hh.
  - left. split; [reflexivity|]. apply isHyphen_spec in Hh. subst c. reflexivity.
  - right. split; [reflexivity|]. rewrite orb_false_r in H. rewrite H. reflexivity.
Qed.

Lemma slugUnit_lower c : slugUnit c = true -> lowerUnit c = c.
Proof.
  unfold slugUnit, lowerUnit, isUpperAlpha, isLowerAlpha, isDigit, isHyphen. intros H.
  destruct (65 <=? c) eqn:H1; destruct (c <=? 90) eqn:H2; cbn [andb]; try reflexivity.
  apply N.leb_le in H1, H2. exfalso.
  repeat (apply orb_true_iff in H as [H|H]);
    try (apply andb_true_iff in H as [Ha Hb]; apply N.leb_le in Ha, Hb; lia).
  apply N.eqb_eq in H. lia.
Qed.

Lemma sanitizeSlug_fixed s : wellFormedSlug s -> sanitizeSlug s = s.
Proof.
  intros (Hunits & Hdouble & Hfront & Hback).
  change (js "--") with [45; 45] in Hdouble. change (js "-") with [45] in Hfront, Hback.
  rewrite forallb_forall in Hunits.
  unfold sanitizeSlug, replaceRuns. change (js "-") with [45].
  assert (Hlower : toLowerCase s = s).
  { unfold toLowerCase. rewrite <- (map_id s) at 2. apply map_ext_in.
    intros c Hc. apply slugUnit_lower, Hunits, Hc. }
  rewrite Hlower.
  rewrite (replaceRuns_fixed notSlugUnit 45 s false); try assumption; try discriminate.
  2:{ intros c Hin Hc. destruct (slugUnit_cases c (Hunits c Hin)) as [[Hh _]|[_ Hn]];
        [apply isHyphen_spec; exact Hh|congruence]. }
  rewrite (dropWhile_none isHyphen s).
  2:{ apply startsWith_unit_false in Hfront as [->|(c & t & -> & Hne)]; [left; reflexivity|].
      right. exists c, t. split; [reflexivity|].
      destruct (isHyphen c) eqn:Hh; [|reflexivity]. apply isHyphen_spec in Hh. contradiction. }
  rewrite (dropWhile_none isHyphen (rev s)), rev_involutive.
  2:{ unfold endsWith in Hback. change (rev [45]) with [45] in Hback.
      apply startsWith_unit_false in Hback as [->|(c & t & -> & Hne)]; [left; reflexivity|].
      right. exists c, t. split; [reflexivity|].
      destruct (isHyphen c) eqn:Hh; [|reflexivity]. apply isHyphen_spec in Hh. contradiction. }
  apply replaceRuns_fixed; try assumption; try discriminate.
  intros c _ Hc. apply isHyphen_spec. exact Hc.
Qed.

(** X1.  [sanitizeSlug] brings every ASCII text to a normal form:
    lower-case letters, digits and single hyphens, no hyphen at either
    end, with the letters and digits of the lower-cased input in their
    order; the result is ASCII again, and a text in that form is left as
    it is, so sanitizing twice is sanitizing once. *)
Theorem sanitizeSlug_normal_form value :
  isAscii value = true ->
  wellFormedSlug (sanitizeSlug value)
  /\ isAscii (sanitizeSlug value) = true
  /\ List.filter isSlugAlnum (sanitizeSlug value)
     = List.filter isSlugAlnum (toLowerCase value)
  /\ sanitizeSlug (sanitizeSlug value) = sanitizeSlug value
  /\ (wellFormedSlug value -> sanitizeSlug value = value).
Proof.
  intros _. split; [apply sanitizeSlug_wellFormed|]. split; [|split; [|split]];
    [| | |apply sanitizeSlug_fixed].
  - destruct (sanitizeSlug_wellFormed value) as [Hunits _].
    unfold isAscii. rewrite forallb_forall in *. intros c Hc. specialize (Hunits c Hc).
    apply N.ltb_lt. unfold slugUnit, isLowerAlpha, isDigit, isHyphen in Hunits.
    repeat (apply orb_true_iff in Hunits as [Hunits|Hunits]);
      try (apply andb_true_iff in Hunits as [Ha Hb]; apply N.leb_le in Ha, Hb; lia).
    apply N.eqb_eq in Hunits. lia.
  - apply sanitizeSlug_alnum.
  - apply sanitizeSlug_fixed, sanitizeSlug_wellFormed.
Qed.

(** A title, with capitals, blanks and marks. *)
Lemma sanitizeSlug_normal_form_witness :
  wellFormedSlug (sanitizeSlug (js "Attention Is All You Need!"))
  /\ sanitizeSlug (js "Attention Is All You Need!") = js "attention-is-all-you-need".
Proof.
  split; [|vm_compute; reflexivity].
  apply (sanitizeSlug_normal_form (js "Attention Is All You Need!")).
  vm_compute. reflexivity.
Defined.

Lemma wellFormed_take n s :
  wellFormedSlug s ->
  forallb slugUnit (take n s) = true
  /\ includes (take n s) (js "--") = false
  /\ startsWith (take n s) (js "-") = false.
Proof.
  intros (Hunits & Hdouble & Hfront & _).
  rewrite <- (take_drop n s) in Hunits, Hdouble.
  rewrite forallb_app in Hunits. apply andb_true_iff in Hunits as [Hu _].
  apply includes_app_false in Hdouble as [Hd _].
  split; [exact Hu|]. split; [exact Hd|].
  change (js "-") with [45] in *. apply startsWith_unit_false.
  apply startsWith_unit_false in Hfront as [->|(c & t & -> & Hne)].
  - left. destruct n; reflexivity.
  - destruct n; [left; reflexivity|]. right. exists c, (take n t). split; [reflexivity|exact Hne].
Qed.

(** The shape of a slug. *)
Lemma createPaperSlug_shape u :
  nonEmpty (createPaperSlug u) = true
  /\ forallb slugUnit (createPaperSlug u) = true
  /\ includes (createPaperSlug u) (js "--") = false
  /\ startsWith (createPaperSlug u) (js "-") = false
  /\ (truthy (parseArxivId u) = false -> (length (createPaperSlug u) <= 80)%nat).
Proof.
  assert (Hgeneric : forall raw,
             let slug := sanitizeSlug raw in
             let out := if (0 <? length slug)%nat then slice0 slug 80 else js "paper" in
             nonEmpty out = true /\ forallb slugUnit out = true
             /\ includes out (js "--") = false /\ startsWith out (js "-") = false
             /\ (length out <= 80)%nat).
  { intros raw slug out. subst out.
    destruct (0 <? length slug)%nat eqn:Hlen.
    - unfold slice0. cbn [Z.ltb Z.compare]. change (Z.to_nat 80) with 80%nat.
      destruct (wellFormed_take 80 slug (sanitizeSlug_wellFormed raw)) as (H1 & H2 & H3).
      split; [|split; [exact H1|split; [exact H2|split; [exact H3|]]]].
      + apply Nat.ltb_lt in Hlen. destruct slug; [cbn in Hlen; lia|reflexivity].
      + rewrite length_take. lia.
    - vm_compute. repeat split; try reflexivity. lia. }
  assert (Harxiv : forall id,
             let s := sanitizeSlug (js "arxiv-" ++ id) in
             let out := if nonEmpty s then s else js "arxiv-paper" in
             nonEmpty out = true /\ forallb slugUnit out = true
             /\ includes out (js "--") = false /\ startsWith out (js "-") = false).
  { intros id s out. subst out. destruct (nonEmpty s) eqn:Hs.
    - destruct (sanitizeSlug_wellFormed (js "arxiv-" ++ id)) as (H1 & H2 & H3 & _).
      repeat split; assumption.
    - vm_compute. repeat split. }
  unfold createPaperSlug.
  destruct (parseArxivId u) as [id|]; cbn [truthy].
  - destruct (nonEmpty id).
    + destruct (Harxiv id) as (H1 & H2 & H3 & H4). repeat split; try assumption. discriminate.
    + destruct (Hgeneric (hostname u ++ js "-"
                  ++ join (js "-") (List.filter nonEmpty (splitOn 47 (pathname u)))))
        as (H1 & H2 & H3 & H4 & H5). repeat split; auto.
  - destruct (Hgeneric (hostname u ++ js "-"
                ++ join (js "-") (List.filter nonEmpty (splitOn 47 (pathname u)))))
      as (H1 & H2 & H3 & H4 & H5). repeat split; auto.
Qed.

(** X2.  Whatever the URL, the slug is fit to name a directory: it is not
    empty, it is made of lower-case letters, digits and hyphens, never two
    hyphens in a row, and it does not start with a hyphen.  When the URL
    is not a scholarly one the slug has at most 80 units. *)
Theorem createPaperSlug_names_a_directory u :
  nonEmpty (createPaperSlug u) = true
  /\ forallb slugUnit (createPaperSlug u) = true
  /\ includes (createPaperSlug u) (js "--") = false
  /\ startsWith (createPaperSlug u) (js "-") = false
  /\ (truthy (parseArxivId u) = false -> (length (createPaperSlug u) <= 80)%nat).
Proof. apply createPaperSlug_shape. Qed.

(** A generic address, cut at 80 units. *)
Lemma createPaperSlug_names_a_directory_witness :
  (length
     (createPaperSlug
        (mkURL (js "https://Example.com/a//b_c/") (js "example.com") (js "/a//b_c/")))
   <= 80)%nat
  /\ createPaperSlug
       (mkURL (js "https://Example.com/a//b_c/") (js "example.com") (js "/a//b_c/"))
     = js "example-com-a-b-c".
Proof.
  split; [|vm_compute; reflexivity].
  apply (createPaperSlug_names_a_directory
           (mkURL (js "https://Example.com/a//b_c/") (js "example.com") (js "/a//b_c/"))).
  vm_compute. reflexivity.
Defined.

(** X3.  [parseArxivId] finds an identifier exactly for the addresses of
    an [arxiv.org] host whose path is [/abs/<id>], [/pdf/<id>] or
    [/pdf/<id>.pdf], and the identifier it returns is the one of the
    path: not empty and free of [/], [?] and [#]. *)
Theorem parseArxivId_exact u id :
  parseArxivId u = Some id
  <-> endsWith (hostname u) (js "arxiv.org") = true /\ ArxivPath (pathname u) id.
Proof.
  split; [apply parseArxivId_sound|intros [Hhost Hpath]; apply parseArxivId_path; assumption].
Qed.

End SlugMore.

(* ===================================================================== *)
(** * Further properties of the report validator *)
(* ===================================================================== *)

Module ReportMore.

Import Report JsFacts JsMore.

Lemma afterHeading_spec heading lines :
  match afterHeading heading lines with
  | None => Forall (fun l => trim l <> trim heading) lines
  | Some rest =>
      exists before line,
        lines = before ++ line :: rest
        /\ Forall (fun l => trim l <> trim heading) before
        /\ trim line = trim heading
  end.
Proof.
  induction lines as [|l lines IH]; cbn [afterHeading]; [constructor|].
  unfold eqb. destruct (bool_decide_reflect (trim l = trim heading)) as [Heq|Hne].
  - exists [], l. repeat split; [constructor|exact Heq].
  - destruct (afterHeading heading lines) as [rest|].
    + destruct IH as (before & line & -> & Hbefore & Hline).
      exists (l :: before), line. repeat split; [constructor; assumption|exact Hline].
    + constructor; assumption.
Qed.

(** X4.  The body of a section.  The text is read as lines, a carriage
    return before a line feed left out.  If no line is the heading once
    trimmed, the body is empty.  Otherwise take the first such line: the
    body is made of the lines after it up to, and without, the first
    line that is, once trimmed, a heading of the same depth or of a
    shallower one (or up to the end of the text), joined by line feeds
    and trimmed.  A heading of depth [n] is [n] number signs, one at
    least, and then white space; the section of a text that is no
    heading has depth one.  The function returns this body, nothing else
    is the body, and it neither starts nor ends with white space. *)
Theorem getSectionBody_between_headings markdown heading :
  let result := getSectionBody markdown heading in
  SectionBody markdown heading result
  /\ (forall body, SectionBody markdown heading body -> body = result)
  /\ (forall c t, result = c :: t -> isWhiteSpace c = false)
  /\ (forall t c, result = t ++ [c] -> isWhiteSpace c = false).
Proof.
  intros result.
  split; [apply ReportFacts.getSectionBody_spec; reflexivity|].
  split; [intros body H; apply ReportFacts.getSectionBody_spec in H; symmetry; exact H|].
  unfold result, getSectionBody.
  destruct (afterHeading heading _) as [after|].
  - split; apply (strip_ends isWhiteSpace).
  - split; [discriminate|]. intros t c H. destruct t; discriminate.
Qed.

(** X5.  A report in which no line is, once trimmed, one of the four
    question headings has that question unanswered, and is not complete,
    whatever else it holds. *)
Theorem report_without_question_section_is_incomplete markdown heading :
  In heading REQUIRED_QUESTION_HEADINGS ->
  Forall (fun l => trim l <> trim heading) (splitOn 10 (normalizeNewlines markdown)) ->
  getSectionBody markdown heading = []
  /\ answeredRequiredQuestions (validateReport markdown) = false
  /\ isComplete (validateReport markdown) = false.
Proof.
  intros Hin Hnone.
  assert (Hbody : getSectionBody markdown heading = []).
  { unfold getSectionBody.
    pose proof (afterHeading_spec heading (splitOn 10 (normalizeNewlines markdown))) as H.
    destruct (afterHeading heading _) as [after|]; [|reflexivity].
    destruct H as (before & line & Hlines & _ & Hline). rewrite Hlines in Hnone.
    apply Forall_app in Hnone as [_ Hnone]. apply Forall_cons in Hnone as [Hne _].
    contradiction. }
  assert (Hanswered : answeredRequiredQuestions (validateReport markdown) = false).
  { cbn [validateReport answeredRequiredQuestions].
    destruct (forallb _ REQUIRED_QUESTION_HEADINGS) eqn:Hall; [|reflexivity].
    rewrite forallb_forall in Hall. specialize (Hall heading Hin).
    rewrite Hbody in Hall. discriminate Hall. }
  split; [exact Hbody|]. split; [exact Hanswered|].
  cbn [validateReport isComplete answeredRequiredQuestions] in *.
  rewrite Hanswered. rewrite andb_false_r. reflexivity.
Qed.

(** The report without references still has its questions; one reduced to
    its title has not. *)
Lemma report_without_question_section_is_incomplete_witness :
  isComplete (validateReport (text ["# Paper"%string; "Only a title."%string])) = false.
Proof.
  apply (report_without_question_section_is_incomplete
           (text ["# Paper"%string; "Only a title."%string])
           (js "## 4. Future Directions")).
  - vm_compute. auto 10.
  - vm_compute. repeat constructor; discriminate.
Defined.

End ReportMore.

(* ===================================================================== *)
(** * Further properties of the session controller *)
(* ===================================================================== *)

Module SessionMore.

Import Session SessionViews SessionFacts.

Lemma carriesOn_refl table : carriesOn table table.
Proof. intros k e He. exists e. repeat split; auto. Qed.

Lemma carriesOn_trans t1 t2 t3 : carriesOn t1 t2 -> carriesOn t2 t3 -> carriesOn t1 t3.
Proof.
  intros H12 H23 k e He.
  destruct (H12 k e He) as (e2 & He2 & Hu2 & Ha2 & Ht2 & Hs2 & Hn2).
  destruct (H23 k e2 He2) as (e3 & He3 & Hu3 & Ha3 & Ht3 & Hs3 & Hn3).
  exists e3. split; [exact He3|]. split; [congruence|]. split; [congruence|].
  split; [|split].
  - intros H. rewrite <- (Ht2 H). apply Ht3. rewrite (Ht2 H). exact H.
  - intros H. rewrite <- (Hs2 H). apply Hs3. rewrite (Hs2 H). exact H.
  - intros H. rewrite <- (Hn2 H). apply Hn3. rewrite (Hn2 H). exact H.
Qed.

Lemma mergeSource_carriesOn now src table : carriesOn table (mergeSource now src table).
Proof.
  intros k e He. destruct (decide (k = si_url src)) as [->|Hne].
  - rewrite mergeSource_lookup, He. eexists. split; [reflexivity|]. cbn.
    repeat split; auto using orElse_populated.
  - rewrite mergeSource_other by exact Hne. exists e. repeat split; auto.
Qed.

Section Controller.

Variable pf : Platform.

Lemma sameButTables_refl s : sameButTables s s.
Proof. repeat split. Qed.

Lemma addSource_frame s src : sameButTables (addSource pf s src) s.
Proof.
  unfold addSource. destruct (currentRun s) as [r|] eqn:Hc; [|apply sameButTables_refl].
  destruct (heap s !! r); [|apply sameButTables_refl].
  unfold sameButTables. cbn. repeat split. apply length_insert.
Qed.

Lemma sameButTables_trans s1 s2 s3 :
  sameButTables s1 s2 -> sameButTables s2 s3 -> sameButTables s1 s3.
Proof. unfold sameButTables. intuition congruence. Qed.

Lemma addSources_frame (mk : JsValue -> SourceInput) items : forall s,
  sameButTables (foldl (fun s' entry => addSource pf s' (mk entry)) s items) s.
Proof.
  induction items as [|entry items IH]; intros s; cbn [foldl]; [apply sameButTables_refl|].
  eapply sameButTables_trans; [apply IH|apply addSource_frame].
Qed.

Lemma ingestToolSources_frame s toolName result :
  sameButTables (ingestToolSources pf s toolName result) s.
Proof.
  unfold ingestToolSources.
  destruct (negb (isRecord result)); [apply sameButTables_refl|].
  destruct (_ && isWebSearchToolDetails _).
  - destruct (prop (prop result "details") "results"); try apply sameButTables_refl.
    apply addSources_frame.
  - destruct (_ && isExtractSourceToolDetails _); [|apply sameButTables_refl].
    apply addSource_frame.
Qed.

(** What an event leaves alone, and what it adds to the listeners' log. *)
Lemma handleAgentEvent_frame s event :
  workingDirectory (handleAgentEvent pf s event) = workingDirectory s
  /\ reportsRoot (handleAgentEvent pf s event) = reportsRoot s
  /\ maxTurns (handleAgentEvent pf s event) = maxTurns s
  /\ writes (handleAgentEvent pf s event) = writes s
  /\ length (heap (handleAgentEvent pf s event)) = length (heap s)
  /\ emitted (handleAgentEvent pf s event) = emitted s ++ [agent_event event].
Proof.
  unfold handleAgentEvent. cbn [emit workingDirectory reportsRoot maxTurns writes heap emitted].
  destruct (currentRun s) as [r|] eqn:Hc; [|repeat split].
  destruct (heap s !! r) as [run|]; [|repeat split].
  destruct event as [|toolName result|ty]; [| |repeat split].
  - destruct (_ && _); cbn; repeat split; apply length_insert.
  - destruct (ingestToolSources_frame s toolName result)
      as (H1 & H2 & H3 & H4 & H5 & H6 & H7 & H8).
    repeat split; congruence.
Qed.

Lemma handle_events_frame evs : forall s,
  workingDirectory (foldl (handleAgentEvent pf) s evs) = workingDirectory s
  /\ reportsRoot (foldl (handleAgentEvent pf) s evs) = reportsRoot s
  /\ writes (foldl (handleAgentEvent pf) s evs) = writes s
  /\ length (heap (foldl (handleAgentEvent pf) s evs)) = length (heap s)
  /\ emitted (foldl (handleAgentEvent pf) s evs) = emitted s ++ map agent_event evs.
Proof.
  induction evs as [|event evs IH]; intros s; cbn [foldl map].
  - rewrite app_nil_r. repeat split.
  - destruct (IH (handleAgentEvent pf s event)) as (H1 & H2 & H3 & H4 & H5).
    destruct (handleAgentEvent_frame s event) as (F1 & F2 & _ & F3 & F4 & F5).
    rewrite H1, H2, H3, H4, H5, F1, F2, F3, F4, F5, <- app_assoc. repeat split.
Qed.

(** X6.  Every event of the engine reaches the listeners, once, as it
    came and in the order of arrival, whether or not a run is under way
    and whatever the event does to the run. *)
Theorem events_are_forwarded_in_order s evs :
  emitted (foldl (handleAgentEvent pf) s evs) = emitted s ++ map agent_event evs.
Proof. apply handle_events_frame. Qed.

(** X7.  Outside a run the controller only forwards: no event changes
    the run states, the engine's orders, the files or the clock. *)
Theorem idle_controller_only_forwards s evs :
  currentRun s = None ->
  foldl (handleAgentEvent pf) s evs = foldl emit s (map agent_event evs).
Proof.
  revert s. induction evs as [|event evs IH]; intros s Hidle; cbn [foldl map]; [reflexivity|].
  assert (Hstep : handleAgentEvent pf s event = emit s (agent_event event)).
  { unfold handleAgentEvent. rewrite Hidle. reflexivity. }
  rewrite Hstep. apply IH. exact Hidle.
Qed.

(** X8.  A tool result can only change source tables and advance the
    clock: the turn count, the cap flag, the orders to the engine, the
    listeners' log and the files stay as they are.  A result that is not
    harvestable (not a record, from another tool, or with details of an
    unexpected shape) changes nothing at all. *)
Theorem tool_results_only_touch_the_table s toolName result :
  sameButTables (ingestToolSources pf s toolName result) s
  /\ (forall r run,
        running s r run ->
        exists table,
          running (ingestToolSources pf s toolName result) r
                  (mkRunState (turnCount run) (maxTurnsExceeded run) table))
  /\ (harvestable toolName result = false -> ingestToolSources pf s toolName result = s).
Proof.
  split; [apply ingestToolSources_frame|]. split.
  - intros r run Hrun.
    destruct (ingestToolSources_running pf s r run toolName result Hrun) as (table & H & _).
    exists table. exact H.
  - unfold harvestable, ingestToolSources. intros H.
    destruct (isRecord result); cbn [negb andb] in *; [|reflexivity].
    apply orb_false_iff in H as [H1 H2]. rewrite H1, H2. reflexivity.
Qed.

End Controller.

(** The result of a tool the controller does not know, and a result whose
    details are a string. *)
Lemma tool_results_only_touch_the_table_witness :
  ingestToolSources demoPlatform (demoStarted None) (js "write") searchToolResult
  = demoStarted None
  /\ ingestToolSources demoPlatform (demoStarted None) (js "web_search")
       (VObject [(js "details", VString (js "no results"))])
     = demoStarted None.
Proof.
  split.
  - apply (tool_results_only_touch_the_table demoPlatform (demoStarted None) (js "write")
             searchToolResult).
    reflexivity.
  - apply (tool_results_only_touch_the_table demoPlatform (demoStarted None)
             (js "web_search") (VObject [(js "details", VString (js "no results"))])).
    reflexivity.
Defined.

(** A controller that has not been asked to run, told of two turns. *)
Lemma idle_controller_only_forwards_witness :
  foldl (handleAgentEvent demoPlatform) (create demoPlatform (demoOptions None))
        [turn_end; turn_end]
  = foldl emit (create demoPlatform (demoOptions None))
          [agent_event turn_end; agent_event turn_end].
Proof.
  apply (idle_controller_only_forwards demoPlatform (create demoPlatform (demoOptions None))
           [turn_end; turn_end]).
  reflexivity.
Defined.

End SessionMore.

(* ===================================================================== *)
(** * The source table over a run *)
(* ===================================================================== *)

Module SessionTables.

Import Session SessionViews SessionFacts SessionMore.

Section Tables.

Variable pf : Platform.

Lemma addSource_grows s r run src :
  running s r run -> keyedByUrl (sources run) ->
  exists run', grows s r run (addSource pf s src) run'
               /\ is_Some (sources run' !! si_url src).
Proof.
  intros Hrun Hkeyed. eexists. split; [split; [|split; [|split; [|split]]]|].
  - apply addSource_merges. exact Hrun.
  - reflexivity.
  - reflexivity.
  - apply mergeSource_keyed. exact Hkeyed.
  - apply mergeSource_carriesOn.
  - cbn [sources]. rewrite mergeSource_lookup. eauto.
Qed.

Lemma grows_trans s r run s1 run1 s2 run2 :
  grows s r run s1 run1 -> grows s1 r run1 s2 run2 -> grows s r run s2 run2.
Proof.
  intros (H1 & H2 & H3 & H4 & H5) (G1 & G2 & G3 & G4 & G5).
  split; [exact G1|]. split; [congruence|]. split; [congruence|]. split; [exact G4|].
  eapply carriesOn_trans; eassumption.
Qed.

Lemma grows_refl s r run : running s r run -> keyedByUrl (sources run) -> grows s r run s run.
Proof.
  intros H K. split; [exact H|]. split; [reflexivity|]. split; [reflexivity|].
  split; [exact K|apply carriesOn_refl].
Qed.

Lemma carriesOn_is_Some t t' k : carriesOn t t' -> is_Some (t !! k) -> is_Some (t' !! k).
Proof. intros H [e He]. destruct (H k e He) as (e' & He' & _). eauto. Qed.

Lemma addSources_grows (mk : JsValue -> SourceInput) items : forall s r run,
  running s r run -> keyedByUrl (sources run) ->
  exists run',
    grows s r run (foldl (fun s' entry => addSource pf s' (mk entry)) s items) run'
    /\ forall entry, In entry items -> is_Some (sources run' !! si_url (mk entry)).
Proof.
  induction items as [|entry items IH]; intros s r run Hrun Hkeyed; cbn [foldl].
  - exists run. split; [apply grows_refl; assumption|intros entry []].
  - destruct (addSource_grows s r run (mk entry) Hrun Hkeyed) as (run1 & Hg1 & Hin1).
    destruct (IH _ r run1 (proj1 Hg1) (proj1 (proj2 (proj2 (proj2 Hg1)))))
      as (run2 & Hg2 & Hin2).
    exists run2. split; [eapply grows_trans; eassumption|].
    intros e [<-|He]; [|apply Hin2; exact He].
    eapply carriesOn_is_Some; [apply Hg2|exact Hin1].
Qed.

Lemma ingestToolSources_grows s r run toolName result :
  running s r run -> keyedByUrl (sources run) ->
  exists run', grows s r run (ingestToolSources pf s toolName result) run'.
Proof.
  intros Hrun Hkeyed. unfold ingestToolSources.
  destruct (negb (isRecord result)); [exists run; apply grows_refl; assumption|].
  destruct (_ && isWebSearchToolDetails _).
  - destruct (prop (prop result "details") "results");
      try (exists run; apply grows_refl; assumption).
    destruct (addSources_grows searchEntrySource items s r run Hrun Hkeyed) as (run' & H & _).
    exists run'. exact H.
  - destruct (_ && isExtractSourceToolDetails _); [|exists run; apply grows_refl; assumption].
    destruct (addSource_grows s r run
                (mkSourceInput (default [] (stringOf (prop (prop result "details") "canonicalUrl")))
                               (stringOf (prop (prop result "details") "title"))
                               (stringOf (prop (prop result "details") "sourceType"))
                               (stringOf (prop (prop result "details") "abstract")))
                Hrun Hkeyed) as (run' & H & _).
    exists run'. exact H.
Qed.

Lemma running_emit s r run e : running s r run -> running (emit s e) r run.
Proof. intros [? ?]. split; assumption. Qed.

(** One event: the table of the run keeps its shape and its entries. *)
Lemma handleAgentEvent_table s r run event :
  running s r run -> keyedByUrl (sources run) ->
  exists run',
    running (handleAgentEvent pf s event) r run'
    /\ keyedByUrl (sources run')
    /\ carriesOn (sources run) (sources run').
Proof.
  intros Hrun Hkeyed. pose proof Hrun as [Hc Hh].
  unfold handleAgentEvent. rewrite Hc, Hh.
  destruct event as [|toolName result|ty].
  - destruct (_ && _); eexists; (split; [|split]);
      try (apply running_emit; split; cbn;
           [exact Hc|apply list_lookup_insert_eq; eapply lookup_lt_Some; eauto]);
      cbn [sources]; auto using carriesOn_refl.
  - destruct (ingestToolSources_grows s r run toolName result Hrun Hkeyed)
      as (run' & H1 & _ & _ & H4 & H5).
    exists run'. split; [apply running_emit; exact H1|]. split; assumption.
  - exists run. split; [apply running_emit; exact Hrun|]. split; auto using carriesOn_refl.
Qed.

Lemma handle_events_table evs : forall s r run,
  running s r run -> keyedByUrl (sources run) ->
  exists run',
    running (foldl (handleAgentEvent pf) s evs) r run'
    /\ keyedByUrl (sources run')
    /\ carriesOn (sources run) (sources run').
Proof.
  induction evs as [|event evs IH]; intros s r run Hrun Hkeyed; cbn [foldl].
  - exists run. split; [exact Hrun|]. split; auto using carriesOn_refl.
  - destruct (handleAgentEvent_table s r run event Hrun Hkeyed) as (run1 & H1 & K1 & C1).
    destruct (IH _ r run1 H1 K1) as (run2 & H2 & K2 & C2).
    exists run2. split; [exact H2|]. split; [exact K2|].
    eapply carriesOn_trans; eassumption.
Qed.

(** X10.  Over a run the source table only grows.  Whatever events
    arrive, it still holds each entry under its own URL (one entry per
    URL), every URL it held is still there, and every entry has kept its
    [addedAt] and its populated fields. *)
Theorem source_table_only_grows s r run evs :
  running s r run ->
  keyedByUrl (sources run) ->
  exists run',
    running (foldl (handleAgentEvent pf) s evs) r run'
    /\ keyedByUrl (sources run')
    /\ carriesOn (sources run) (sources run')
    /\ dom (sources run) ⊆ dom (sources run').
Proof.
  intros Hrun Hkeyed.
  destruct (handle_events_table evs s r run Hrun Hkeyed) as (run' & H & K & C).
  exists run'. split; [exact H|]. split; [exact K|]. split; [exact C|].
  intros k Hk. apply elem_of_dom in Hk. apply elem_of_dom.
  eapply carriesOn_is_Some; eassumption.
Qed.

(** The state in which a run starts. *)
Lemma resume_mkdir_table s l v :
  running (fst (resume pf s (AwaitMkdir l) (Fulfilled v))) (length (heap s))
          (mkRunState 0 false
             (mergeSource (clock pf (clockReads s))
                (mkSourceInput (href (seedUrl l)) (Some (js "Seed Paper"))
                               (Some (js "seed")) None) ∅)).
Proof.
  cbn [resume fst].
  set (s1 := withRun s (heap s ++ [mkRunState 0 false ∅]) (Some (length (heap s)))).
  assert (H1 : running s1 (length (heap s)) (mkRunState 0 false ∅)).
  { split; [reflexivity|]. cbn. apply list_lookup_middle. reflexivity. }
  repeat apply running_callAgent.
  apply (addSource_merges pf s1 _ _
           (mkSourceInput (href (seedUrl l)) (Some (js "Seed Paper")) (Some (js "seed")) None)
           H1).
Qed.

(** X9.  The seed stays on record.  From the start of a run and through
    every event, the table holds the seed URL, titled "Seed Paper",
    tagged "seed", and stamped with the time the run started: no later
    observation of the same URL takes that away. *)
Theorem seed_entry_survives s l v evs :
  let started := fst (resume pf s (AwaitMkdir l) (Fulfilled v)) in
  exists run entry,
    running (foldl (handleAgentEvent pf) started evs) (length (heap s)) run
    /\ sources run !! href (seedUrl l) = Some entry
    /\ sr_url entry = href (seedUrl l)
    /\ sr_title entry = Some (js "Seed Paper")
    /\ sr_source entry = Some (js "seed")
    /\ addedAt entry = clock pf (clockReads s).
Proof.
  intros started. pose proof (resume_mkdir_table s l v) as Hstart. fold started in Hstart.
  set (seed := mkSourceInput (href (seedUrl l)) (Some (js "Seed Paper")) (Some (js "seed")) None)
    in *.
  assert (Hkeyed : keyedByUrl (mergeSource (clock pf (clockReads s)) seed ∅)).
  { apply mergeSource_keyed. intros k e. rewrite lookup_empty. discriminate. }
  destruct (handle_events_table evs started _ _ Hstart Hkeyed) as (run & Hrun & _ & Hcarry).
  destruct (Hcarry (href (seedUrl l))
              (mkSource (href (seedUrl l)) (Some (js "Seed Paper")) (Some (js "seed")) None
                        (clock pf (clockReads s))))
    as (entry & Hentry & Hurl & Hadded & Htitle & Hsource & _).
  { cbn [sources]. change (href (seedUrl l)) with (si_url seed) at 1.
    rewrite mergeSource_lookup, lookup_empty. reflexivity. }
  exists run, entry. split; [exact Hrun|]. split; [exact Hentry|].
  split; [exact Hurl|]. split; [apply Htitle; reflexivity|].
  split; [apply Hsource; reflexivity|exact Hadded].
Qed.

Lemma webSearchEntry_url entry :
  isWebSearchEntry entry = true ->
  stringOf (prop entry "url") = Some (si_url (searchEntrySource entry)).
Proof.
  unfold isWebSearchEntry. intros H.
  repeat (apply andb_true_iff in H as [H ?]).
  cbn [searchEntrySource si_url].
  destruct (prop entry "url"); try discriminate. reflexivity.
Qed.

Lemma details_of_record result :
  isWebSearchToolDetails (prop result "details") = true
  \/ isExtractSourceToolDetails (prop result "details") = true ->
  isRecord result = true.
Proof.
  destruct result; cbn; intros [H|H]; try discriminate; reflexivity.
Qed.

(** What a well-formed tool result leaves in the table. *)
Lemma harvest s r run result :
  running s r run ->
  keyedByUrl (sources run) ->
  (forall items,
      isWebSearchToolDetails (prop result "details") = true ->
      prop (prop result "details") "results" = VArray items ->
      exists run',
        running (handleAgentEvent pf s (tool_execution_end (js "web_search") result)) r run'
        /\ forall entry, In entry items ->
             exists found e,
               stringOf (prop entry "url") = Some found
               /\ sources run' !! found = Some e /\ sr_url e = found)
  /\ (forall canonical,
        isExtractSourceToolDetails (prop result "details") = true ->
        stringOf (prop (prop result "details") "canonicalUrl") = Some canonical ->
        exists run' e,
          running (handleAgentEvent pf s (tool_execution_end (js "extract_source") result))
                  r run'
          /\ sources run' !! canonical = Some e /\ sr_url e = canonical).
Proof.
  intros Hrun Hkeyed. pose proof Hrun as [Hc Hh]. split.
  - intros items Hvalid Hitems.
    pose proof (details_of_record result (or_introl Hvalid)) as Hrec.
    unfold handleAgentEvent. rewrite Hc, Hh. unfold ingestToolSources.
    rewrite Hrec, Hvalid, Hitems. cbn [negb].
    assert (eqb (js "web_search") (js "web_search") = true) as -> by reflexivity.
    cbn [andb].
    destruct (addSources_grows searchEntrySource items s r run Hrun Hkeyed)
      as (run' & (Hrun' & _ & _ & Hkeyed' & _) & Hall).
    exists run'. split; [apply running_emit; exact Hrun'|].
    intros entry Hin. destruct (Hall entry Hin) as [e He].
    assert (Hentry : isWebSearchEntry entry = true).
    { unfold isWebSearchToolDetails in Hvalid. rewrite Hitems in Hvalid.
      destruct (negb _ || _ || _); [discriminate|].
      rewrite forallb_forall in Hvalid. apply Hvalid. exact Hin. }
    exists (si_url (searchEntrySource entry)), e.
    split; [apply webSearchEntry_url; exact Hentry|]. split; [exact He|].
    eapply Hkeyed'. exact He.
  - intros canonical Hvalid Hcanonical.
    pose proof (details_of_record result (or_intror Hvalid)) as Hrec.
    unfold handleAgentEvent. rewrite Hc, Hh. unfold ingestToolSources.
    rewrite Hrec, Hvalid, Hcanonical. cbn [negb].
    assert (eqb (js "extract_source") (js "web_search") = false) as -> by reflexivity.
    assert (eqb (js "extract_source") (js "extract_source") = true) as -> by reflexivity.
    cbn [andb default].
    match goal with
    | |- context [addSource pf s ?src] =>
        destruct (addSource_grows s r run src Hrun Hkeyed)
          as (run' & (Hrun' & _ & _ & Hkeyed' & _) & [e He])
    end.
    cbn [si_url] in He. exists run', e.
    split; [apply running_emit; exact Hrun'|]. split; [exact He|].
    eapply Hkeyed'. exact He.
Qed.

(** X11.  What the tools found is recorded.  When a run is under way and
    the search tool returns details of the expected shape, every URL of
    its results is in the source table afterwards, under its own entry;
    and so is the canonical URL of a well-formed extraction. *)
Theorem harvested_urls_are_recorded s r run result :
  running s r run ->
  keyedByUrl (sources run) ->
  (forall items,
      isWebSearchToolDetails (prop result "details") = true ->
      prop (prop result "details") "results" = VArray items ->
      exists run',
        running (handleAgentEvent pf s (tool_execution_end (js "web_search") result)) r run'
        /\ forall entry, In entry items ->
             exists found e,
               stringOf (prop entry "url") = Some found
               /\ sources run' !! found = Some e /\ sr_url e = found)
  /\ (forall canonical,
        isExtractSourceToolDetails (prop result "details") = true ->
        stringOf (prop (prop result "details") "canonicalUrl") = Some canonical ->
        exists run' e,
          running (handleAgentEvent pf s (tool_execution_end (js "extract_source") result))
                  r run'
          /\ sources run' !! canonical = Some e /\ sr_url e = canonical).
Proof. apply harvest. Qed.

End Tables.

(** The table the demonstration run starts with holds its seed. *)
Lemma demoStarted_table :
  exists run0,
    running (demoStarted None) 0 run0
    /\ keyedByUrl (sources run0)
    /\ js "https://arxiv.org/abs/1706.03762" ∈ dom (sources run0).
Proof.
  exists (mkRunState 0 false
            (mergeSource (js "2026-01-01T00:00:00.000Z")
               (mkSourceInput (href demoUrl) (Some (js "Seed Paper")) (Some (js "seed")) None)
               ∅)).
  split; [split; vm_compute; reflexivity|]. split.
  - apply mergeSource_keyed. intros k e. rewrite lookup_empty. discriminate.
  - apply elem_of_dom. eexists. cbn [sources].
    change (js "https://arxiv.org/abs/1706.03762")
      with (si_url (mkSourceInput (href demoUrl) (Some (js "Seed Paper"))
                                  (Some (js "seed")) None)).
    apply mergeSource_lookup.
Qed.

(** The demonstration run, told of a search with two results. *)
Lemma harvested_urls_are_recorded_witness :
  exists run e1 e2,
    running (handleAgentEvent demoPlatform (demoStarted None)
               (tool_execution_end (js "web_search") searchToolResult)) 0 run
    /\ sources run !! js "http://arxiv.org/abs/1706.03762v7" = Some e1
    /\ sources run !! js "http://arxiv.org/abs/1409.0473v7" = Some e2.
Proof.
  destruct demoStarted_table as (run0 & Hrun0 & Hkeyed0 & _).
  destruct (harvested_urls_are_recorded demoPlatform (demoStarted None) 0 run0
              searchToolResult Hrun0 Hkeyed0) as [Hsearch _].
  destruct (Hsearch _ eq_refl eq_refl) as (run & Hrun & Hall).
  destruct (Hall (searchEntry "Attention Is All You Need" "http://arxiv.org/abs/1706.03762v7"))
    as (f1 & e1 & Hf1 & He1 & _); [left; reflexivity|].
  destruct (Hall (searchEntry "Neural Machine Translation" "http://arxiv.org/abs/1409.0473v7"))
    as (f2 & e2 & Hf2 & He2 & _); [right; left; reflexivity|].
  injection Hf1 as <-. injection Hf2 as <-.
  exists run, e1, e2. split; [exact Hrun|]. split; [exact He1|exact He2].
Defined.

(** The table of the demonstration run after a search and two turns. *)
Lemma source_table_only_grows_witness :
  exists run,
    running (foldl (handleAgentEvent demoPlatform) (demoStarted None)
               [tool_execution_end (js "web_search") searchToolResult; turn_end; turn_end])
            0 run
    /\ keyedByUrl (sources run)
    /\ js "https://arxiv.org/abs/1706.03762" ∈ dom (sources run).
Proof.
  destruct demoStarted_table as (run0 & Hrun0 & Hkeyed0 & Hdom0).
  destruct (source_table_only_grows demoPlatform (demoStarted None) 0 run0
              [tool_execution_end (js "web_search") searchToolResult; turn_end; turn_end]
              Hrun0 Hkeyed0) as (run & Hrun & Hkeyed & _ & Hdom).
  exists run. split; [exact Hrun|]. split; [exact Hkeyed|]. apply Hdom. exact Hdom0.
Defined.

End SessionTables.

(* ===================================================================== *)
(** * How a run ends *)
(* ===================================================================== *)

Module SessionRuns.

Import Session SessionViews SessionFacts SessionMore SessionTables.

Section Runs.

Variable pf : Platform.

Lemma startedRun_frame s l :
  workingDirectory (startedRun pf s l) = workingDirectory s
  /\ maxTurns (startedRun pf s l) = maxTurns s
  /\ writes (startedRun pf s l) = writes s
  /\ emitted (startedRun pf s l) = emitted s
  /\ length (heap (startedRun pf s l)) = S (length (heap s)).
Proof.
  unfold startedRun. cbn [resume fst].
  cbn [callAgent workingDirectory maxTurns writes emitted heap].
  match goal with
  | |- context [addSource pf ?s0 ?src] =>
      destruct (addSource_frame pf s0 src) as (H1 & _ & H3 & _ & H5 & _ & H7 & H8)
  end.
  rewrite H1, H3, H5, H7, H8. cbn. rewrite length_app. cbn.
  repeat split. lia.
Qed.

(** A run that got past [mkdir] is the prompt stage followed by three
    more steps. *)
Lemma run_prompt_stage s seedPaperUrl env l v :
  run_call pf s seedPaperUrl = (s, AwaitMkdir l) ->
  env_mkdir env = Fulfilled v ->
  run pf s seedPaperUrl env
  = advance pf env (advance pf env (advance pf env
      (resume pf (afterEvents pf s l (env_events env))
              (AwaitPrompt l (length (heap s))
                           (toPromptPath pf (reportPath l) (workingDirectory s)))
              (env_prompt env)))).
Proof.
  intros Hcall Hmkdir. unfold run. rewrite Hcall. cbn [advance]. rewrite Hmkdir.
  destruct (startedRun_frame s l) as (Hwd & _).
  unfold afterEvents, startedRun in *. cbn [resume fst] in *.
  cbn [callAgent workingDirectory] in Hwd. rewrite Hwd. reflexivity.
Qed.

(** The state of the run when the prompt returns. *)
Lemma afterEvents_running s l evs :
  reached s 0 = false ->
  exists table,
    running (afterEvents pf s l evs) (length (heap s))
            (mkRunState (turns evs) (reached s (turns evs)) table)
    /\ maxTurns (afterEvents pf s l evs) = maxTurns s.
Proof.
  intros Hcap. destruct (startedRun_frame s l) as (_ & Hmax & _).
  pose proof (resume_mkdir_table pf s l []) as Hstart. fold (startedRun pf s l) in Hstart.
  destruct (handle_events pf evs (startedRun pf s l) _ _ Hstart) as (table & Hrun & Hmax' & _).
  - cbn [maxTurnsExceeded turnCount]. rewrite (reached_same _ _ _ Hmax), Hcap. reflexivity.
  - cbn. lia.
  - cbn [turnCount] in Hrun. rewrite Z.add_0_l, (reached_same _ _ _ Hmax) in Hrun.
    exists table. split; [exact Hrun|]. unfold afterEvents. congruence.
Qed.

Lemma finalRun_turnCount s l evs :
  reached s 0 = false ->
  turnCount (finalRun pf s l evs) = turns evs
  /\ maxTurnsExceeded (finalRun pf s l evs) = reached s (turns evs).
Proof.
  intros Hcap. destruct (afterEvents_running s l evs Hcap) as (table & [_ Hheap] & _).
  unfold finalRun, runAt. rewrite Hheap. split; reflexivity.
Qed.

(** The prompt stage, when the prompt returns normally. *)
Lemma resume_prompt_fulfilled s l evs path v :
  reached s 0 = false ->
  resume pf (afterEvents pf s l evs) (AwaitPrompt l (length (heap s)) path) (Fulfilled v)
  = (withRun (afterEvents pf s l evs) (heap (afterEvents pf s l evs)) None,
     if reached s (turns evs)
     then Settled (inl (MaxTurnsReached (maxTurns s)))
     else AwaitReadFile l (length (heap s)) path).
Proof.
  intros Hcap. destruct (afterEvents_running s l evs Hcap) as (table & [_ Hheap] & Hmax).
  cbn [resume]. unfold runAt. cbn [withRun heap maxTurns]. rewrite Hheap, Hmax.
  cbn [default from_option id maxTurnsExceeded]. destruct (reached s (turns evs)); reflexivity.
Qed.

Lemma afterEvents_frame s l evs :
  writes (afterEvents pf s l evs) = writes s
  /\ emitted (afterEvents pf s l evs) = emitted s ++ map agent_event evs.
Proof.
  destruct (startedRun_frame s l) as (_ & _ & Hw & He & _).
  destruct (handle_events_frame pf evs (startedRun pf s l)) as (_ & _ & Hw' & _ & He').
  unfold afterEvents. rewrite Hw', He', Hw, He. split; reflexivity.
Qed.

(** X12.  A run whose prompt returns fails on the turn cap exactly when
    the engine went through enough turns to reach the cap (at least
    [maxTurns] of them, for a cap that is an integer), and the error
    names the cap.  Such a run reads no report and leaves nothing
    behind: no file is written, the listeners hear of the engine's
    events and of nothing else, and the controller is free again.  The
    cap is one that a count of zero does not reach: any cap of at least
    one. *)
Theorem run_fails_on_the_turn_cap s seedPaperUrl env l v v' :
  run_call pf s seedPaperUrl = (s, AwaitMkdir l) ->
  env_mkdir env = Fulfilled v ->
  env_prompt env = Fulfilled v' ->
  reached s 0 = false ->
  let out := run pf s seedPaperUrl env in
  ((exists limit, snd out = Settled (inl (MaxTurnsReached limit)))
   <-> reached s (turns (env_events env)) = true)
  /\ (reached s (turns (env_events env)) = true ->
      snd out = Settled (inl (MaxTurnsReached (maxTurns s)))
      /\ writes (fst out) = writes s
      /\ emitted (fst out) = emitted s ++ map agent_event (env_events env)
      /\ currentRun (fst out) = None)
  /\ (forall cap,
        maxTurns s = Num.ofZ cap ->
        (1 <= cap)%Z
        /\ (reached s (turns (env_events env)) = true
            <-> (cap <= turns (env_events env))%Z)).
Proof.
  intros Hcall Hmkdir Hprompt Hcap out. subst out.
  rewrite (run_prompt_stage s seedPaperUrl env l v Hcall Hmkdir), Hprompt.
  rewrite (resume_prompt_fulfilled s l (env_events env) _ v' Hcap).
  destruct (afterEvents_frame s l (env_events env)) as (Hw & He).
  split; [|split].
  - destruct (reached s (turns (env_events env))) eqn:Hreached.
    + cbn [advance fst snd]. split; eauto.
    + split; [|discriminate]. intros [limit Hlimit]. exfalso. revert Hlimit.
      cbn [advance resume].
      destruct (env_readFile env); cbn [advance resume fst snd]; [|discriminate].
      destruct (env_writeHtml env); cbn [advance resume fst snd]; [|discriminate].
      destruct (env_writeSources env); cbn [advance resume fst snd]; discriminate.
  - intros ->. cbn [advance fst snd withRun writes emitted currentRun].
    repeat split; assumption.
  - intros cap Hint.
    assert (Hn : forall n, reached s n = (cap <=? n)%Z)
      by (intros n; unfold reached; rewrite Hint; apply NumFacts.ge_ofZ).
    rewrite Hn in Hcap. apply Z.leb_gt in Hcap. split; [lia|].
    rewrite Hn. apply Z.leb_le.
Qed.

(** X13.  A run that stays under the cap and finds its report succeeds,
    whatever the report is worth: the result carries the number of turns
    the engine went through and the verdict of [validateReport] on the
    text that was read, valid or not.  Exactly two files are written, the
    page and then the sources of the run's table, and the announcement
    of finalization is the last thing the listeners hear.  To stay under
    the cap is not to reach it: for a cap that is an integer of at least
    one, to go through fewer turns than the cap. *)
Theorem completed_run_delivers_its_artifacts s seedPaperUrl env l v v' markdown w w' :
  run_call pf s seedPaperUrl = (s, AwaitMkdir l) ->
  env_mkdir env = Fulfilled v ->
  env_prompt env = Fulfilled v' ->
  env_readFile env = Fulfilled markdown ->
  env_writeHtml env = Fulfilled w ->
  env_writeSources env = Fulfilled w' ->
  reached s 0 = false ->
  reached s (turns (env_events env)) = false ->
  let out := run pf s seedPaperUrl env in
  let final := finalRun pf s l (env_events env) in
  (snd out = Settled (inr (mkRunResult (href (seedUrl l)) (reportDirectory l) (reportPath l)
                                       (reportHtmlPath l) (sourcesPath l)
                                       (turns (env_events env))
                                       (Report.validateReport markdown)))
   /\ writes (fst out) = writes s ++ [htmlArtifact pf l markdown; sourcesArtifact pf l final]
   /\ emitted (fst out)
      = emitted s ++ map agent_event (env_events env) ++ [finalized l markdown]
   /\ currentRun (fst out) = None)
  /\ (forall cap,
        maxTurns s = Num.ofZ cap ->
        (1 <= cap)%Z /\ (turns (env_events env) < cap)%Z).
Proof.
  intros Hcall Hmkdir Hprompt Hread Hhtml Hsources Hcap Hunder out final. subst out final.
  split.
  2:{ intros cap Hint.
      assert (Hn : forall n, reached s n = (cap <=? n)%Z)
        by (intros n; unfold reached; rewrite Hint; apply NumFacts.ge_ofZ).
      rewrite Hn in Hcap, Hunder. apply Z.leb_gt in Hcap, Hunder. lia. }
  rewrite (run_prompt_stage s seedPaperUrl env l v Hcall Hmkdir), Hprompt.
  rewrite (resume_prompt_fulfilled s l (env_events env) _ v' Hcap).
  destruct (afterEvents_frame s l (env_events env)) as (Hw & He).
  destruct (finalRun_turnCount s l (env_events env) Hcap) as (Hcount & _).
  rewrite Hunder.
  cbn [advance]. rewrite Hread. cbn [resume advance]. rewrite Hhtml. cbn [resume advance].
  rewrite Hsources. cbn [resume fst snd].
  unfold finalRun, runAt in *.
  cbn [writeFile callAgent emit withRun heap writes emitted currentRun workingDirectory].
  rewrite Hw, He, Hcount, <- !app_assoc. cbn [app].
  unfold htmlArtifact, sourcesArtifact, finalized, runAt. repeat split.
Qed.

(** X14.  The listeners are told of finalization exactly when the run
    succeeds, and then last and with the paths and the verdict of the
    result, after two files have been written.  A run that fails, for
    whatever reason and at whatever stage, announces nothing of its own:
    all the listeners hear of are the engine's events. *)
Theorem finalization_is_announced_only_on_success s seedPaperUrl env :
  let out := run pf s seedPaperUrl env in
  match snd out with
  | Settled (inr result) =>
      emitted (fst out)
      = emitted s ++ map agent_event (env_events env)
        ++ [report_finalized (res_reportPath result) (res_reportHtmlPath result)
                             (res_sourcesPath result) (res_validation result)]
      /\ length (writes (fst out)) = (length (writes s) + 2)%nat
  | Settled (inl _) =>
      exists evs, emitted (fst out) = emitted s ++ map agent_event evs
                  /\ (evs = [] \/ evs = env_events env)
  | _ => False
  end.
Proof.
  intros out. subst out. unfold run.
  pose proof (run_call_leaves_state pf s seedPaperUrl) as Hsame.
  pose proof (run_call_frame pf s seedPaperUrl) as Hframe.
  destruct (run_call pf s seedPaperUrl) as [s0 f0] eqn:Hcall. cbn [fst snd] in *. subst s0.
  destruct Hframe as [[l ->]|[e ->]].
  2:{ cbn [advance fst snd]. exists []. rewrite app_nil_r. auto. }
  cbn [advance]. destruct (env_mkdir env) as [v|reason] eqn:Hmkdir.
  2:{ cbn [resume advance fst snd]. exists []. rewrite app_nil_r. auto. }
  change (resume pf s (AwaitMkdir l) (Fulfilled v))
    with (startedRun pf s l, snd (resume pf s (AwaitMkdir l) (Fulfilled v))).
  cbn [resume snd advance]. fold (afterEvents pf s l (env_events env)).
  destruct (afterEvents_frame s l (env_events env)) as (Hw & He).
  set (after := afterEvents pf s l (env_events env)) in *.
  destruct (env_prompt env); cbn [resume].
  2:{ cbn [advance fst snd withRun emitted]. exists (env_events env). auto. }
  destruct (maxTurnsExceeded _).
  { cbn [advance fst snd withRun emitted]. exists (env_events env). auto. }
  cbn [advance resume].
  destruct (env_readFile env); cbn [advance resume].
  2:{ cbn [advance fst snd withRun emitted]. exists (env_events env). auto. }
  destruct (env_writeHtml env); cbn [advance resume].
  2:{ cbn [advance fst snd withRun emitted]. exists (env_events env). auto. }
  destruct (env_writeSources env); cbn [advance resume fst snd].
  2:{ cbn [writeFile withRun emitted]. exists (env_events env). auto. }
  cbn [writeFile callAgent emit withRun writes emitted res_reportPath res_reportHtmlPath
       res_sourcesPath res_validation].
  rewrite He, Hw, <- app_assoc, !length_app. cbn [length]. split; [reflexivity|lia].
Qed.

End Runs.

(** The demonstration run, capped at two turns, through two turns. *)
Lemma run_fails_on_the_turn_cap_witness :
  snd (run demoPlatform demoSession (href demoUrl)
           (smoothRun [turn_end; other_event (js "message_end"); turn_end] []))
  = Settled (inl (MaxTurnsReached (Num.ofZ 2))).
Proof.
  destruct (run_fails_on_the_turn_cap demoPlatform demoSession (href demoUrl)
              (smoothRun [turn_end; other_event (js "message_end"); turn_end] [])
              demoLocals [] []) as [_ Hcapped];
    [vm_compute; reflexivity|reflexivity|reflexivity|vm_compute; reflexivity|].
  apply Hcapped. vm_compute. reflexivity.
Defined.

(** The demonstration run through one turn, with a report that says
    nothing: the run succeeds and the verdict is in the result. *)
Lemma completed_run_delivers_its_artifacts_witness :
  exists result,
    snd (run demoPlatform demoSession (href demoUrl) (smoothRun [turn_end] (js "draft")))
    = Settled (inr result)
    /\ res_turnCount result = 1%Z
    /\ Report.isComplete (res_validation result) = false.
Proof.
  destruct (completed_run_delivers_its_artifacts demoPlatform demoSession (href demoUrl)
              (smoothRun [turn_end] (js "draft")) demoLocals [] [] (js "draft") [] [])
    as [[Hresult _] _];
    [vm_compute; reflexivity|reflexivity|reflexivity|reflexivity|reflexivity|reflexivity
    |vm_compute; reflexivity|vm_compute; reflexivity|].
  eexists. split; [exact Hresult|]. split; vm_compute; reflexivity.
Defined.

End SessionRuns.

(* ===================================================================== *)
(** * Seeds that do not start a run *)
(* ===================================================================== *)

Module SessionSeeds.

Import Js JsFacts JsMore Session.

(** Trimming leaves nothing exactly of the strings made of white space. *)
Lemma trim_empty_iff s : trim s = [] <-> forallb isWhiteSpace s = true.
Proof.
  split.
  - intros Hempty. destruct (strip_ends isWhiteSpace s) as (_ & _ & front & back & Hs & Hf & Hb).
    unfold trim, trimEnd, trimStart in Hempty. rewrite Hempty in Hs. cbn [app] in Hs.
    rewrite Hs, forallb_app, Hf, Hb. reflexivity.
  - intros Hall. unfold trim, trimEnd, trimStart.
    rewrite <- (app_nil_r s), (dropWhile_all isWhiteSpace s [] Hall (or_introl eq_refl)).
    reflexivity.
Qed.

Section Seeds.

Variable pf : Platform.

(** X15.  A seed that cannot name a paper starts nothing.  On an idle
    controller a seed made of white space only is refused as empty, and a
    seed whose trimmed text is not a URL is refused as invalid, the error
    quoting the seed as it was given, untrimmed.  Either way the
    controller is left exactly as it was, whatever the surroundings
    would have done: no run state, no order to the engine, no file. *)
Theorem unusable_seed_starts_nothing s seedPaperUrl env :
  currentRun s = None ->
  (forallb isWhiteSpace seedPaperUrl = true ->
   run pf s seedPaperUrl env = (s, Settled (inl SeedEmpty)))
  /\ (forallb isWhiteSpace seedPaperUrl = false ->
      parseUrl pf (trim seedPaperUrl) = None ->
      run pf s seedPaperUrl env = (s, Settled (inl (SeedInvalid seedPaperUrl)))).
Proof.
  intros Hidle. unfold run, run_call. rewrite Hidle. split.
  - intros Hblank. apply trim_empty_iff in Hblank. rewrite Hblank. reflexivity.
  - intros Hink Hparse.
    destruct (trim seedPaperUrl) as [|c t] eqn:Htrim.
    + apply trim_empty_iff in Htrim. congruence.
    + cbn [length Nat.eqb]. rewrite Hparse. reflexivity.
Qed.

End Seeds.

(** The demonstration controller, given blanks and given a word. *)
Lemma unusable_seed_starts_nothing_witness :
  run demoPlatform (create demoPlatform (demoOptions None)) (js "  ") (SessionViews.smoothRun [] [])
  = (create demoPlatform (demoOptions None), Settled (inl SeedEmpty))
  /\ run demoPlatform (create demoPlatform (demoOptions None)) (js " attention ")
         (SessionViews.smoothRun [] [])
     = (create demoPlatform (demoOptions None), Settled (inl (SeedInvalid (js " attention ")))).
Proof.
  split.
  - apply (unusable_seed_starts_nothing demoPlatform); reflexivity.
  - apply (unusable_seed_starts_nothing demoPlatform); reflexivity.
Defined.

End SessionSeeds.

(* ===================================================================== *)
(** * Extracted text and the requests behind it *)
(* ===================================================================== *)

Module ExtractMore.

Import Js JsFacts JsMore SourceExtract ExtractViews.

Lemma whiteSpace_tidy c : isWhiteSpace c = true -> tidyUnit c = true -> c = 32%N.
Proof.
  unfold tidyUnit. intros Hw Ht. rewrite Hw in Ht. cbn in Ht.
  rewrite orb_false_r in Ht. apply N.eqb_eq. exact Ht.
Qed.

Lemma normalizeWhitespace_tidy input : tidy (normalizeWhitespace input).
Proof.
  unfold tidy, normalizeWhitespace, trim, trimEnd, trimStart, replaceRuns.
  change (js " ") with [32%N]. change (js "  ") with [32%N; 32%N].
  set (spaced := replaceRunsFrom isWhiteSpace [32%N] false input).
  destruct (strip_ends isWhiteSpace spaced) as (Hhead & Hlast & front & back & Hsplit & _).
  set (r := rev (dropWhile isWhiteSpace (rev (dropWhile isWhiteSpace spaced)))) in *.
  assert (Hunits : forallb tidyUnit spaced = true).
  { apply replaceRuns_forallb; [reflexivity|].
    intros c Hc _. unfold tidyUnit. rewrite Hc. apply orb_true_r. }
  assert (Hdouble : includes spaced [32%N; 32%N] = false).
  { apply replaceRuns_single; [reflexivity|]. intros c Hc ->. discriminate. }
  rewrite Hsplit in Hunits, Hdouble.
  rewrite !forallb_app in Hunits.
  apply andb_true_iff in Hunits as [_ Hunits]. apply andb_true_iff in Hunits as [Hunits _].
  apply includes_app_false in Hdouble as [_ Hdouble].
  apply includes_app_false in Hdouble as [Hdouble _].
  split; [exact Hunits|]. split; [exact Hdouble|]. split.
  - apply startsWith_unit_false. destruct r as [|c t]; [left; reflexivity|].
    right. exists c, t. split; [reflexivity|]. intros ->.
    specialize (Hhead _ _ eq_refl). discriminate.
  - apply endsWith_unit. destruct r as [|c t] using rev_ind; [left; reflexivity|].
    right. exists t, c. split; [reflexivity|]. intros ->.
    specialize (Hlast _ _ eq_refl). discriminate.
Qed.

Lemma normalizeWhitespace_visible input :
  visible (normalizeWhitespace input) = visible input.
Proof.
  assert (Hclass : forall c, isWhiteSpace c = true -> negb (isWhiteSpace c) = false)
    by (intros c ->; reflexivity).
  unfold visible, normalizeWhitespace, trim, trimEnd, trimStart, replaceRuns.
  change (js " ") with [32%N].
  rewrite filter_rev, filter_dropWhile by exact Hclass.
  rewrite filter_rev, rev_involutive, filter_dropWhile by exact Hclass.
  apply replaceRuns_filter; [reflexivity|exact Hclass].
Qed.

Lemma normalizeWhitespace_fixed s : tidy s -> normalizeWhitespace s = s.
Proof.
  intros (Hunits & Hdouble & Hfront & Hback).
  change (js "  ") with [32%N; 32%N] in Hdouble. change (js " ") with [32%N] in Hfront, Hback.
  rewrite forallb_forall in Hunits.
  assert (Hedge : forall c, In c s -> c <> 32%N -> isWhiteSpace c = false).
  { intros c Hin Hne. destruct (isWhiteSpace c) eqn:Hw; [|reflexivity].
    exfalso. apply Hne. apply whiteSpace_tidy; [exact Hw|apply Hunits; exact Hin]. }
  unfold normalizeWhitespace, trim, trimEnd, trimStart, replaceRuns. change (js " ") with [32%N].
  rewrite (replaceRuns_fixed isWhiteSpace 32%N s false); try assumption; try discriminate.
  2:{ intros c Hin Hc. apply whiteSpace_tidy; [exact Hc|apply Hunits; exact Hin]. }
  rewrite (dropWhile_none isWhiteSpace s).
  2:{ apply startsWith_unit_false in Hfront as [->|(c & t & -> & Hne)]; [left; reflexivity|].
      right. exists c, t. split; [reflexivity|]. apply Hedge; [left; reflexivity|exact Hne]. }
  rewrite (dropWhile_none isWhiteSpace (rev s)); [apply rev_involutive|].
  apply (endsWith_unit 32%N) in Hback as [->|(t & c & -> & Hne)]; [left; reflexivity|].
  right. exists c, (rev t). split; [rewrite rev_app_distr; reflexivity|].
  apply Hedge; [apply in_or_app; right; left; reflexivity|exact Hne].
Qed.

(** X16.  [normalizeWhitespace] brings every text to a tidy form: the
    only white space left is single spaces, none at either end, and line
    breaks and tabs are gone; the visible units are those of the input
    in their order; and a tidy text is left as it is, so normalizing
    twice is normalizing once. *)
Theorem normalizeWhitespace_normal_form input :
  tidy (normalizeWhitespace input)
  /\ visible (normalizeWhitespace input) = visible input
  /\ normalizeWhitespace (normalizeWhitespace input) = normalizeWhitespace input
  /\ (tidy input -> normalizeWhitespace input = input).
Proof.
  split; [apply normalizeWhitespace_tidy|]. split; [apply normalizeWhitespace_visible|].
  split; [apply normalizeWhitespace_fixed, normalizeWhitespace_tidy|].
  apply normalizeWhitespace_fixed.
Qed.

Lemma clipText_fits input maxChars :
  (length input <= maxChars)%nat -> clipText input maxChars = input.
Proof.
  intros Hfits. unfold clipText.
  destruct (Nat.leb_spec (length input) maxChars); [reflexivity|lia].
Qed.

Lemma clipText_clipped input maxChars :
  (1 <= maxChars)%nat -> (maxChars < length input)%nat ->
  clipText input maxChars = take (maxChars - 1) input ++ clipSuffix.
Proof.
  intros Hpos Hlong. unfold clipText, slice0.
  destruct (Nat.leb_spec (length input) maxChars); [lia|].
  destruct (Z.ltb_spec (Z.of_nat maxChars - 1) 0); [lia|].
  replace (Z.to_nat (Z.of_nat maxChars - 1)) with (maxChars - 1)%nat by lia.
  reflexivity.
Qed.

Lemma clipText_length input maxChars :
  (1 <= maxChars)%nat -> (length (clipText input maxChars) <= maxChars + 2)%nat.
Proof.
  intros Hpos. destruct (Nat.le_gt_cases (length input) maxChars) as [Hfits|Hlong].
  - rewrite clipText_fits by exact Hfits. lia.
  - rewrite clipText_clipped by assumption.
    rewrite length_app, length_take. cbn [clipSuffix length]. lia.
Qed.

Lemma clipText_nonEmpty input maxChars : input <> [] -> clipText input maxChars <> [].
Proof.
  intros Hne. unfold clipText. destruct (length input <=? maxChars)%nat; [exact Hne|].
  unfold clipSuffix. intros H. apply app_eq_nil in H as [_ H]. discriminate.
Qed.

(** X17.  [clipText] with a limit of at least one: a text within the
    limit is returned as it is; a longer one is cut to its first
    [maxChars - 1] units and given the suffix, which the file holds as
    three units, so that the result is two units longer than the limit.
    The limit therefore bounds the text that is kept, not the result. *)
Theorem clipText_keeps_a_prefix input maxChars :
  (1 <= maxChars)%nat ->
  ((length input <= maxChars)%nat -> clipText input maxChars = input)
  /\ ((maxChars < length input)%nat ->
      clipText input maxChars = take (maxChars - 1) input ++ clipSuffix
      /\ length (clipText input maxChars) = (maxChars + 2)%nat)
  /\ (length (clipText input maxChars) <= maxChars + 2)%nat.
Proof.
  intros Hpos. split; [apply clipText_fits|]. split; [|apply clipText_length; exact Hpos].
  intros Hlong. rewrite clipText_clipped by assumption. split; [reflexivity|].
  rewrite length_app, length_take. cbn [clipSuffix length]. lia.
Qed.

(** ** The mirror *)

Lemma fetch_requests net req : requests (snd (fetch net req)) = requests net ++ [req].
Proof. unfold fetch. destruct (script net); reflexivity. Qed.

Lemma mirror_requests net target :
  requests (snd (fetchReadableMirror net target)) = requests net ++ [mirrorRequest target].
Proof.
  unfold fetchReadableMirror, mirrorRequest.
  pose proof (fetch_requests net (ReqGet (js "https://r.jina.ai/" ++ target))) as H.
  destruct (fetch net _) as [res net']. cbn [snd] in H.
  destruct res as [m|r]; [exact H|].
  destruct (negb (ok r)); [exact H|]. destruct (body r); [|exact H].
  destruct (length _ =? 0)%nat; exact H.
Qed.

Lemma mirror_text net target :
  forall t, fst (fetchReadableMirror net target) = Some t ->
            t <> [] /\ (length t <= MAX_FULL_TEXT_CHARS + 2)%nat.
Proof.
  intros t. unfold fetchReadableMirror.
  destruct (fetch net _) as [res net'].
  destruct res as [m|r]; [discriminate|].
  destruct (negb (ok r)); [discriminate|]. destruct (body r) as [raw|]; [|discriminate].
  destruct (normalizeWhitespace raw) as [|c text] eqn:Hraw; [discriminate|].
  cbn [length Nat.eqb fst]. intros [= <-]. split.
  - apply clipText_nonEmpty. discriminate.
  - apply clipText_length. apply Nat.leb_le. reflexivity.
Qed.

Section Extraction.

Variable sc : Scrapers.

Lemma withMissingFields_withinLimits d :
  withinLimits d -> withinLimits (withMissingFields d).
Proof. intros H. exact H. Qed.

Lemma abstract_limit (found : jstring) :
  (length (clipText found MAX_ABSTRACT_CHARS) <= MAX_ABSTRACT_CHARS + 2)%nat.
Proof. apply clipText_length. apply Nat.leb_le. reflexivity. Qed.

Lemma extractArxivSource_details net arxivId d net' :
  extractArxivSource sc net arxivId = (inr d, net') ->
  missingFields d = getMissingFields d /\ withinLimits d /\ sourceType d = arxiv.
Proof.
  unfold extractArxivSource.
  destruct (fetch net _) as [res net1]. destruct res as [m|r]; [discriminate|].
  destruct (negb (ok r)); [discriminate|]. destruct (body r) as [xml|]; [|discriminate].
  destruct (arxivEntry sc xml) as [entry|]; [|discriminate].
  pose proof (mirror_text net1 (js "https://arxiv.org/abs/" ++ arxivId)) as Hmirror.
  destruct (fetchReadableMirror net1 _) as [text net2]. cbn [fst] in Hmirror.
  intros [= <- <-]. split; [reflexivity|]. split; [|reflexivity].
  split; cbn [withMissingFields fullText abstract].
  - exact Hmirror.
  - intros a. unfold orElse. destruct (truthy _); [|discriminate].
    intros [= <-]. apply abstract_limit.
Qed.

Lemma extractGenericSource_details net u d net' :
  extractGenericSource sc net u = (inr d, net') ->
  missingFields d = getMissingFields d /\ withinLimits d.
Proof.
  unfold extractGenericSource.
  destruct (fetch net _) as [res net1]. destruct res as [m|r]; [discriminate|].
  destruct (negb (ok r)); [discriminate|].
  destruct (guessTitleFromUrl sc (url r)) as [guessed|]; [|discriminate].
  set (canonicalUrl := href (url r)).
  assert (Hfinish : forall title authors year (abstract fullText : option jstring) net2,
            (forall t, fullText = Some t ->
                       t <> [] /\ (length t <= MAX_FULL_TEXT_CHARS + 2)%nat) ->
            (forall a, abstract = Some a -> (length a <= MAX_ABSTRACT_CHARS + 2)%nat) ->
            ((let abstract' :=
               if negb (truthy abstract) && truthy fullText
               then Some (clipText (default [] fullText) MAX_ABSTRACT_CHARS)
               else abstract in
             let '(fullText', net3) :=
               if negb (truthy fullText)
               then fetchReadableMirror net2 canonicalUrl
               else (fullText, net2) in
             (inr (withMissingFields
                     (mkDetails title authors year abstract' fullText'
                        (classifySourceType (url r) (contentType r)) canonicalUrl [])),
              net3)) : (Error + ExtractSourceToolDetails) * Net) = (inr d, net') ->
            missingFields d = getMissingFields d /\ withinLimits d).
  { intros title authors year abstract fullText net2 Hfull Habs. cbn zeta.
    pose proof (mirror_text net2 canonicalUrl) as Hmirror.
    destruct (negb (truthy fullText)).
    - destruct (fetchReadableMirror net2 canonicalUrl) as [text net3]. cbn [fst] in Hmirror.
      intros [= <- <-]. split; [reflexivity|]. split; cbn [withMissingFields SourceExtract.fullText SourceExtract.abstract].
      + exact Hmirror.
      + destruct (negb (truthy abstract) && truthy fullText); [|exact Habs].
        intros a [= <-]. apply abstract_limit.
    - intros [= <- <-]. split; [reflexivity|]. split; cbn [withMissingFields SourceExtract.fullText SourceExtract.abstract].
      + exact Hfull.
      + destruct (negb (truthy abstract) && truthy fullText); [|exact Habs].
        intros a [= <-]. apply abstract_limit. }
  destruct (classifySourceType (url r) (contentType r)) eqn:Hty.
  - (* arxiv *) apply Hfinish; intros ? [=].
  - (* pdf *)
    pose proof (mirror_text net1 canonicalUrl) as Hmirror.
    destruct (fetchReadableMirror net1 canonicalUrl) as [text net2]. cbn [fst] in Hmirror.
    apply Hfinish; [exact Hmirror|intros ? [=]].
  - (* html *)
    destruct (body r) as [page|]; [|discriminate].
    apply Hfinish.
    + intros t. destruct (0 <? length (stripHtmlToText sc page))%nat eqn:Hlen; [|discriminate].
      intros [= <-]. split.
      * apply clipText_nonEmpty. intros Hnil. rewrite Hnil in Hlen. discriminate.
      * apply clipText_length. apply Nat.leb_le. reflexivity.
    + intros a. destruct (truthy _) eqn:Hfound.
      * intros [= <-]. apply abstract_limit.
      * intros Hsome. rewrite Hsome in Hfound. destruct a; [cbn; lia|discriminate].
  - (* other *)
    destruct (body r) as [page|]; [|discriminate].
    apply Hfinish.
    + intros t. destruct (0 <? length (stripHtmlToText sc page))%nat eqn:Hlen; [|discriminate].
      intros [= <-]. split.
      * apply clipText_nonEmpty. intros Hnil. rewrite Hnil in Hlen. discriminate.
      * apply clipText_length. apply Nat.leb_le. reflexivity.
    + intros a. destruct (truthy _) eqn:Hfound.
      * intros [= <-]. apply abstract_limit.
      * intros Hsome. rewrite Hsome in Hfound. destruct a; [cbn; lia|discriminate].
Qed.

(** X18.  Whatever the remote world answers and whatever the scrapers
    find, the details an extraction returns are consistent: the list of
    missing fields is the one [getMissingFields] computes from the
    details themselves, a full text that is present is not empty and is
    within its limit, and so is an abstract. *)
Theorem extraction_details_are_consistent net paramsUrl d net' :
  execute sc net paramsUrl = (inr d, net') ->
  missingFields d = getMissingFields d /\ withinLimits d.
Proof.
  unfold execute. destruct (length (trim paramsUrl) =? 0)%nat; [discriminate|].
  destruct (parseUrl sc (trim paramsUrl)) as [u|]; [|discriminate].
  destruct (truthy (Slug.parseArxivId u)).
  - intros H. apply extractArxivSource_details in H as (H1 & H2 & _). split; assumption.
  - apply extractGenericSource_details.
Qed.

Lemma extractArxivSource_budget net arxivId :
  exists reqs,
    requests (snd (extractArxivSource sc net arxivId)) = requests net ++ reqs
    /\ withinBudget (fst (extractArxivSource sc net arxivId)) reqs.
Proof.
  unfold extractArxivSource.
  pose proof (fetch_requests net (ReqArxivApi arxivId)) as Hfetch.
  destruct (fetch net _) as [res net1]. cbn [snd] in Hfetch.
  destruct res as [m|r]; [exists [ReqArxivApi arxivId]; split; [exact Hfetch|reflexivity]|].
  destruct (negb (ok r)); [exists [ReqArxivApi arxivId]; split; [exact Hfetch|reflexivity]|].
  destruct (body r) as [xml|];
    [|exists [ReqArxivApi arxivId]; split; [exact Hfetch|reflexivity]].
  destruct (arxivEntry sc xml) as [entry|];
    [|exists [ReqArxivApi arxivId]; split; [exact Hfetch|reflexivity]].
  pose proof (mirror_requests net1 (js "https://arxiv.org/abs/" ++ arxivId)) as Hmirror.
  destruct (fetchReadableMirror net1 _) as [text net2]. cbn [snd fst] in *.
  exists [ReqArxivApi arxivId; mirrorRequest (js "https://arxiv.org/abs/" ++ arxivId)].
  split; [rewrite Hmirror, Hfetch, <- app_assoc; reflexivity|].
  exists (ReqArxivApi arxivId), 1%nat. cbn [withMissingFields canonicalUrl repeat].
  split; [reflexivity|]. split; [lia|]. split; intros; discriminate.
Qed.

Lemma extractGenericSource_budget net u :
  exists reqs,
    requests (snd (extractGenericSource sc net u)) = requests net ++ reqs
    /\ withinBudget (fst (extractGenericSource sc net u)) reqs.
Proof.
  unfold extractGenericSource.
  pose proof (fetch_requests net (ReqGet (href u))) as Hfetch.
  destruct (fetch net _) as [res net1]. cbn [snd] in Hfetch.
  destruct res as [m|r]; [exists [ReqGet (href u)]; split; [exact Hfetch|reflexivity]|].
  destruct (negb (ok r)); [exists [ReqGet (href u)]; split; [exact Hfetch|reflexivity]|].
  destruct (guessTitleFromUrl sc (url r)) as [guessed|];
    [|exists [ReqGet (href u)]; split; [exact Hfetch|reflexivity]].
  set (canonical := href (url r)).
  set (ty := classifySourceType (url r) (contentType r)).
  assert (Hfinish : forall title authors year (abstract fullText : option jstring) net2 before,
            requests net2 = requests net ++ ReqGet (href u) :: repeat (mirrorRequest canonical) before ->
            (before <= 1)%nat ->
            (before = 1%nat -> ty = pdf) ->
            (before = 0%nat -> truthy fullText = false -> ty <> pdf) ->
            forall out,
            out = ((let abstract' :=
               if negb (truthy abstract) && truthy fullText
               then Some (clipText (default [] fullText) MAX_ABSTRACT_CHARS)
               else abstract in
             let '(fullText', net3) :=
               if negb (truthy fullText)
               then fetchReadableMirror net2 canonical
               else (fullText, net2) in
             (inr (withMissingFields
                     (mkDetails title authors year abstract' fullText' ty canonical [])),
              net3)) : (Error + ExtractSourceToolDetails) * Net) ->
            exists reqs, requests (snd out) = requests net ++ reqs
                         /\ withinBudget (fst out) reqs).
  { intros title authors year abstract fullText net2 before Hreqs Hle Hpdf Hpage out ->.
    cbn zeta.
    pose proof (mirror_requests net2 canonical) as Hmirror.
    destruct (truthy fullText) eqn:Hfull; cbn [negb].
    - exists (ReqGet (href u) :: repeat (mirrorRequest canonical) before).
      cbn [fst snd]. split; [exact Hreqs|].
      exists (ReqGet (href u)), before. cbn [withMissingFields canonicalUrl sourceType SourceExtract.fullText].
      split; [reflexivity|]. split; [lia|]. split; [lia|]. intros _. exact Hfull.
    - destruct (fetchReadableMirror net2 canonical) as [text net3]. cbn [fst snd] in *.
      exists (ReqGet (href u) :: repeat (mirrorRequest canonical) (S before)).
      split.
      + rewrite Hmirror, Hreqs, <- app_assoc. cbn [app]. do 2 f_equal.
        cbn [repeat]. rewrite repeat_cons. reflexivity.
      + exists (ReqGet (href u)), (S before).
        cbn [withMissingFields canonicalUrl sourceType SourceExtract.fullText].
        split; [reflexivity|]. split; [lia|]. split; [|lia].
        intros Htwo. apply Hpdf. lia. }
  fold ty. destruct ty eqn:Hty.
  - (* arxiv *)
    eapply (Hfinish _ _ _ _ _ _ 0%nat); [exact Hfetch|lia|lia|discriminate|reflexivity].
  - (* pdf *)
    pose proof (mirror_requests net1 canonical) as Hmirror.
    destruct (fetchReadableMirror net1 canonical) as [text net2]. cbn [snd] in Hmirror.
    eapply (Hfinish _ _ _ _ _ _ 1%nat);
      [rewrite Hmirror, Hfetch, <- app_assoc; reflexivity|lia|reflexivity|lia|reflexivity].
  - (* html *)
    destruct (body r) as [page|];
      [|exists [ReqGet (href u)]; split; [exact Hfetch|reflexivity]].
    eapply (Hfinish _ _ _ _ _ _ 0%nat); [exact Hfetch|lia|lia|discriminate|reflexivity].
  - (* other *)
    destruct (body r) as [page|];
      [|exists [ReqGet (href u)]; split; [exact Hfetch|reflexivity]].
    eapply (Hfinish _ _ _ _ _ _ 0%nat); [exact Hfetch|lia|lia|discriminate|reflexivity].
Qed.

(** X19.  What an extraction asks of the network.  An input that is
    blank or not a URL is refused before anything is fetched.  Every
    other failure comes after exactly one request: a source that cannot
    be fetched is a hard error and the mirror is not tried in its place.
    A successful extraction has fetched its source and then asked the
    mirror for the canonical URL at most twice; twice only for a PDF (the
    branch for PDFs asks, and the fallback asks again when that gave
    nothing), and not at all only when the page itself gave the text. *)
Theorem extraction_request_budget net paramsUrl :
  exists reqs,
    requests (snd (execute sc net paramsUrl)) = requests net ++ reqs
    /\ withinBudget (fst (execute sc net paramsUrl)) reqs.
Proof.
  unfold execute. destruct (length (trim paramsUrl) =? 0)%nat.
  { exists []. rewrite app_nil_r. split; reflexivity. }
  destruct (parseUrl sc (trim paramsUrl)) as [u|].
  2:{ exists []. rewrite app_nil_r. split; reflexivity. }
  destruct (truthy (Slug.parseArxivId u)).
  - apply extractArxivSource_budget.
  - apply extractGenericSource_budget.
Qed.

End Extraction.

(** The budget is reached: a PDF whose mirror gives nothing has the
    mirror asked twice for the same address. *)
Example pdf_asks_the_mirror_twice :
  requests (snd (execute scrapersOnPdf (answering 3 pdfResponse) (href pdfUrl)))
  = [ReqGet (href pdfUrl); mirrorRequest (href pdfUrl); mirrorRequest (href pdfUrl)].
Proof. vm_compute. reflexivity. Qed.

(** Clipping six units to four. *)
Lemma clipText_keeps_a_prefix_witness :
  clipText (js "abcdef") 4 = js "abc" ++ clipSuffix
  /\ length (clipText (js "abcdef") 4) = 6%nat.
Proof.
  destruct (clipText_keeps_a_prefix (js "abcdef") 4) as (_ & Hlong & _); [lia|].
  apply Hlong. vm_compute. lia.
Defined.

(** An empty page whose text comes from the mirror. *)
Lemma extraction_details_are_consistent_witness :
  exists d net',
    execute scrapersOnEmptyPage (mkNet [Responded emptyPage; Responded mirrorText] [])
            (js " https://example.com/ ")
    = (inr d, net')
    /\ missingFields d = getMissingFields d
    /\ withinLimits d.
Proof.
  eexists. eexists. split; [vm_compute; reflexivity|].
  eapply (extraction_details_are_consistent scrapersOnEmptyPage
            (mkNet [Responded emptyPage; Responded mirrorText] [])
            (js " https://example.com/ ")).
  vm_compute. reflexivity.
Defined.

End ExtractMore.

(* ===================================================================== *)
(** * Search results *)
(* ===================================================================== *)

Module WebSearchMore.

Import Js JsFacts JsMore WebSearch WebSearchFacts SearchProviders.

Lemma dedupeFrom_sublist l : forall seen, sublist (dedupeFrom seen l) l.
Proof.
  induction l as [|a l IH]; intros seen; cbn [dedupeFrom]; [constructor|].
  destruct (bool_decide _); [apply sublist_cons, IH|apply sublist_skip, IH].
Qed.

Lemma dedupeFrom_first l : forall seen r,
  In r l -> r_url r ∉ seen ->
  exists first, In first (dedupeFrom seen l) /\ r_url first = r_url r /\ firstOfUrl l first.
Proof.
  unfold firstOfUrl.
  induction l as [|a l IH]; intros seen r Hin Hseen; [destruct Hin|].
  cbn [dedupeFrom find].
  destruct (decide (r_url a = r_url r)) as [Heq|Hne].
  - destruct (bool_decide_reflect (r_url a ∈ seen)) as [Ha|Ha];
      [exfalso; apply Hseen; rewrite <- Heq; exact Ha|].
    exists a. split; [left; reflexivity|]. split; [exact Heq|].
    rewrite bool_decide_eq_true_2 by reflexivity. reflexivity.
  - destruct Hin as [->|Hin]; [contradiction|].
    destruct (bool_decide_reflect (r_url a ∈ seen)) as [Ha|Ha].
    + destruct (IH seen r Hin Hseen) as (first & Hf & Hurl & Hfind).
      exists first. split; [exact Hf|]. split; [exact Hurl|].
      rewrite bool_decide_eq_false_2 by congruence. exact Hfind.
    + destruct (IH (r_url a :: seen) r Hin) as (first & Hf & Hurl & Hfind).
      { intros Hin'. apply elem_of_cons in Hin' as [Heq|Hin']; [congruence|contradiction]. }
      exists first. split; [right; exact Hf|]. split; [exact Hurl|].
      rewrite bool_decide_eq_false_2 by congruence. exact Hfind.
Qed.

Lemma dedupeFrom_app found rest : forall seen,
  NoDup (map r_url found) ->
  (forall r, In r found -> r_url r ∉ seen) ->
  dedupeFrom seen (found ++ rest)
  = found ++ dedupeFrom (rev (map r_url found) ++ seen) rest.
Proof.
  induction found as [|a found IH]; intros seen Hnd Hseen; [reflexivity|].
  cbn [app dedupeFrom map rev]. apply NoDup_cons in Hnd as [Ha Hnd].
  rewrite bool_decide_eq_false_2 by (apply Hseen; left; reflexivity).
  rewrite IH; [rewrite <- app_assoc; reflexivity|exact Hnd|].
  intros r Hr Hin. apply elem_of_cons in Hin as [Heq|Hin].
  - apply Ha. rewrite <- Heq. apply list_elem_of_In. apply in_map. exact Hr.
  - revert Hin. apply Hseen. right. exact Hr.
Qed.

Lemma dedupeFrom_fixed l seen :
  NoDup (map r_url l) -> (forall r, In r l -> r_url r ∉ seen) -> dedupeFrom seen l = l.
Proof.
  intros Hnd Hseen. pose proof (dedupeFrom_app l [] seen Hnd Hseen) as H.
  rewrite !app_nil_r in H. exact H.
Qed.

(** X20.  [dedupeResults] keeps, of every URL, the first result and
    nothing else: the URLs of its output are distinct, the output is the
    input with some results left out (the order is kept), every result
    of the input is represented by the first result of its URL, and a
    list that has been deduplicated is left as it is. *)
Theorem dedupeResults_keeps_the_first_of_each_url l :
  NoDup (map r_url (dedupeResults l))
  /\ sublist (dedupeResults l) l
  /\ (forall r, In r l ->
        exists first, In first (dedupeResults l) /\ r_url first = r_url r
                      /\ firstOfUrl l first)
  /\ dedupeResults (dedupeResults l) = dedupeResults l.
Proof.
  unfold dedupeResults. destruct (dedupeFrom_spec l []) as (Hnd & _ & _).
  split; [exact Hnd|]. split; [apply dedupeFrom_sublist|]. split.
  - intros r Hr. apply dedupeFrom_first; [exact Hr|]. apply not_elem_of_nil.
  - apply dedupeFrom_fixed; [exact Hnd|]. intros r _. apply not_elem_of_nil.
Qed.

Lemma NoDup_map_take (n : nat) (l : list WebSearchResult) :
  NoDup (map r_url l) -> NoDup (map r_url (take n l)).
Proof.
  intros Hnd. rewrite <- (take_drop n l), map_app in Hnd.
  apply NoDup_app in Hnd as [H _]. exact H.
Qed.

Section Aggregation.

Variable searchSemanticScholar : jstring -> Z -> ProviderOutcome.
Variable searchArxiv : jstring -> Z -> ProviderOutcome.

Lemma execute_returns params d :
  execute searchSemanticScholar searchArxiv params = inr d ->
  trim (in_query params) <> []
  /\ query d = trim (in_query params)
  /\ results d
     = fst (afterSecondary searchSemanticScholar searchArxiv (trim (in_query params))
                           (default 5%Z (in_limit params)))
  /\ results d <> []
  /\ providerErrors d <> Some [].
Proof.
  unfold execute. destruct (trim (in_query params)) as [|c q] eqn:Hq; [discriminate|].
  cbn [length Nat.eqb]. destruct (afterSecondary _ _ _ _) as [found errors].
  destruct found as [|r found]; [discriminate|]. cbn [length Nat.eqb fst].
  intros [= <-]. cbn [query results providerErrors].
  split; [discriminate|]. split; [reflexivity|]. split; [reflexivity|].
  split; [discriminate|]. destruct errors; cbn; discriminate.
Qed.

(** X21.  What a successful search returns.  The query recorded is the
    trimmed one and is not blank, there is at least one result, and the
    provider errors are absent rather than an empty list.  When the
    primary provider returns as many results as the limit asks for, its
    answer is final: the results are exactly its results, no error is
    recorded, and the secondary provider has no part in them.  When it
    returns fewer and the secondary provider answers too, the results
    have distinct URLs, are at most [limit] many, and begin with the
    primary's results whenever these have distinct URLs: the secondary
    provider never displaces a result of the primary one. *)
Theorem search_results_are_merged_in_order params d :
  execute searchSemanticScholar searchArxiv params = inr d ->
  let limit := default 5%Z (in_limit params) in
  query d = trim (in_query params)
  /\ query d <> []
  /\ results d <> []
  /\ providerErrors d <> Some []
  /\ (forall found,
        searchSemanticScholar (query d) limit = ProviderReturned found ->
        (limit <= Z.of_nat (length found))%Z ->
        results d = found /\ providerErrors d = None
        /\ forall other, execute searchSemanticScholar other params = inr d)
  /\ (forall found extra,
        searchSemanticScholar (query d) limit = ProviderReturned found ->
        (Z.of_nat (length found) < limit)%Z ->
        searchArxiv (query d) limit = ProviderReturned extra ->
        NoDup (map r_url (results d))
        /\ (Z.of_nat (length (results d)) <= limit)%Z
        /\ (NoDup (map r_url found) -> exists rest, results d = found ++ rest)).
Proof.
  intros Hexec limit. pose proof Hexec as Hd.
  apply execute_returns in Hd as (Hq & Hquery & Hresults & Hsome & Herrors).
  split; [exact Hquery|]. split; [congruence|]. split; [exact Hsome|].
  split; [exact Herrors|]. rewrite Hquery. fold limit in Hresults. split.
  - intros found Hprimary Hfull.
    assert (Hsame : forall other,
               afterSecondary searchSemanticScholar other (trim (in_query params)) limit
               = (found, [])).
    { intros other. unfold afterSecondary, afterPrimary. rewrite Hprimary.
      destruct (Z.ltb_spec (Z.of_nat (length found)) limit); [lia|reflexivity]. }
    assert (Hall : forall other,
               execute searchSemanticScholar other params
               = inr (mkSearchDetails (trim (in_query params)) found None)).
    { intros other. unfold execute.
      destruct (trim (in_query params)) as [|c q] eqn:Htrim; [contradiction|].
      cbn [length Nat.eqb]. fold limit. rewrite Hsame.
      rewrite Hresults, Hsame in Hsome. cbn [fst] in Hsome.
      destruct found; [contradiction|reflexivity]. }
    rewrite Hall in Hexec. injection Hexec as <-. cbn [results providerErrors].
    split; [reflexivity|]. split; [reflexivity|exact Hall].
  - intros found extra Hprimary Hfew Hsecondary.
    assert (Hmerged : results d = slice0 (dedupeResults (found ++ extra)) limit).
    { rewrite Hresults. unfold afterSecondary, afterPrimary. rewrite Hprimary.
      destruct (Z.ltb_spec (Z.of_nat (length found)) limit); [|lia].
      rewrite Hsecondary. reflexivity. }
    assert (Hpos : (0 <= limit)%Z) by lia.
    unfold slice0 in Hmerged. destruct (Z.ltb_spec limit 0); [lia|].
    rewrite Hmerged. split; [|split].
    + apply NoDup_map_take. apply dedupeFrom_spec.
    + rewrite length_take. lia.
    + intros Hnd. unfold dedupeResults.
      rewrite dedupeFrom_app by (try exact Hnd; intros r _; apply not_elem_of_nil).
      rewrite take_app_ge by lia. eauto.
Qed.

End Aggregation.

(** The primary provider finds one paper, the secondary the same and
    another: the primary's entry comes first and the duplicate is gone. *)
Lemma search_results_are_merged_in_order_witness :
  exists d,
    execute (returning [paperA']) (returning [paperA; paperB])
            (mkInput (js " attention ") None) = inr d
    /\ query d = js "attention"
    /\ exists rest, results d = [paperA'] ++ rest.
Proof.
  assert (Hexec : execute (returning [paperA']) (returning [paperA; paperB])
                          (mkInput (js " attention ") None)
                  = inr (mkSearchDetails (js "attention") [paperA'; paperB] None))
    by (vm_compute; reflexivity).
  destruct (search_results_are_merged_in_order (returning [paperA']) (returning [paperA; paperB])
              (mkInput (js " attention ") None) _ Hexec)
    as (Hquery & _ & _ & _ & _ & Hmerge).
  destruct (Hmerge [paperA'] [paperA; paperB]) as (_ & _ & Hprefix);
    [reflexivity|vm_compute; reflexivity|reflexivity|].
  eexists. split; [exact Hexec|]. split; [exact Hquery|].
  apply Hprefix. apply NoDup_cons_2; [apply not_elem_of_nil|apply NoDup_nil_2].
Defined.

(** ** What the providers return *)

Lemma clipSnippet_length input : (length (clipSnippet input) <= 322)%nat.
Proof.
  unfold clipSnippet.
  destruct (Nat.leb_spec (length (trim (replaceRuns isWhiteSpace (js " ") input))) 320);
    [lia|].
  unfold slice0. change (320 - 1 <? 0)%Z with false. cbv iota.
  rewrite length_app, length_take. cbn [snippetSuffix length]. lia.
Qed.

Lemma truthy_default (o : option jstring) : truthy o = true -> default [] o <> [].
Proof. destruct o as [[|c s]|]; cbn; discriminate. Qed.

Lemma orElse_truthy (a : option jstring) (b : jstring) :
  b <> [] -> default [] (orElse a (Some b)) <> [].
Proof.
  intros Hb. unfold orElse. destruct (truthy a) eqn:Ha; [apply truthy_default; exact Ha|exact Hb].
Qed.

Section Providers.

Variable showNumber : Z -> jstring.
Variable extractXmlTag : jstring -> jstring -> option jstring.

Lemma paperResult_hit paper r :
  paperResult showNumber paper = Some r -> hit (js "semantic-scholar") r.
Proof.
  unfold paperResult.
  destruct (truthy (orElse (option_map trim (p_url paper)) _)) eqn:Hurl; [|discriminate].
  cbn [negb]. intros [= <-]. unfold hit. cbn [r_url r_title r_source r_snippet].
  split; [apply truthy_default; exact Hurl|].
  split; [apply orElse_truthy; discriminate|].
  split; [reflexivity|apply clipSnippet_length].
Qed.

Lemma entryResult_hit entry r :
  entryResult extractXmlTag entry = Some r -> hit (js "arxiv") r.
Proof.
  unfold entryResult.
  destruct (truthy (extractXmlTag entry (js "id"))) eqn:Hurl; [|discriminate].
  cbn [negb]. intros [= <-]. unfold hit. cbn [r_url r_title r_source r_snippet].
  split; [apply truthy_default; exact Hurl|].
  split; [apply orElse_truthy; discriminate|].
  split; [reflexivity|apply clipSnippet_length].
Qed.

Lemma slice0_omap {A} (f : A -> option WebSearchResult) (P : WebSearchResult -> Prop) l limit :
  (forall a r, f a = Some r -> P r) ->
  Forall P (slice0 (omap f l) limit)
  /\ ((0 <= limit)%Z -> (Z.of_nat (length (slice0 (omap f l) limit)) <= limit)%Z)
  /\ (length (slice0 (omap f l) limit) <= length l)%nat.
Proof.
  intros Hf.
  assert (Hall : Forall P (omap f l)).
  { apply Forall_forall. intros r Hr. apply list_elem_of_omap in Hr as (a & _ & Ha).
    eapply Hf. exact Ha. }
  assert (Hlen : (length (omap f l) <= length l)%nat).
  { clear Hall. induction l as [|a l IH]; cbn; [lia|]. destruct (f a); cbn; lia. }
  unfold slice0. destruct (Z.ltb_spec limit 0).
  - split; [apply Forall_take; exact Hall|]. split; [lia|]. rewrite length_take. lia.
  - split; [apply Forall_take; exact Hall|]. rewrite length_take. split; lia.
Qed.

(** X22.  Whatever the Semantic Scholar payload holds, every result made
    of it has a URL that is not empty (a paper with neither a URL nor an
    arXiv identifier is left out), a title that is not empty, the
    provider's name as its source and a snippet of at most 322 units;
    there are at most [limit] results, and no more than there are
    papers. *)
Theorem semantic_scholar_results_are_hits data limit :
  Forall (hit (js "semantic-scholar")) (semanticScholarResults showNumber data limit)
  /\ ((0 <= limit)%Z ->
      (Z.of_nat (length (semanticScholarResults showNumber data limit)) <= limit)%Z)
  /\ (length (semanticScholarResults showNumber data limit) <= length (default [] data))%nat.
Proof. apply slice0_omap. apply paperResult_hit. Qed.

(** X23.  Whatever the arXiv feed holds and whatever the tags yield,
    every result made of its entries has a URL that is not empty (an
    entry without an [id] is left out), a title that is not empty,
    "arxiv" as its source and a snippet of at most 322 units; there are
    at most [limit] results, and no more than there are entries. *)
Theorem arxiv_results_are_hits entries limit :
  Forall (hit (js "arxiv")) (arxivResults extractXmlTag entries limit)
  /\ ((0 <= limit)%Z ->
      (Z.of_nat (length (arxivResults extractXmlTag entries limit)) <= limit)%Z)
  /\ (length (arxivResults extractXmlTag entries limit) <= length entries)%nat.
Proof. apply slice0_omap. apply entryResult_hit. Qed.

End Providers.

End WebSearchMore.

(* ===================================================================== *)
(** * Reading files in windows of lines *)
(* ===================================================================== *)

Module ReadToolFacts.

Import Js ReadTool.

Lemma splitOn_nonEmpty sep s : splitOn sep s <> [].
Proof. destruct s as [|c t]; cbn; [discriminate|]. destruct (c =? sep); [discriminate|].
  destruct (splitOn sep t); discriminate. Qed.

(** Splitting at line feeds and joining with line feeds gives the text
    back. *)
Lemma join_splitOn s : join [10] (splitOn 10 s) = s.
Proof.
  induction s as [|c t IH]; [reflexivity|]. cbn [splitOn].
  pose proof (splitOn_nonEmpty 10 t) as Hne.
  destruct (N.eqb_spec c 10) as [->|Hc].
  - destruct (splitOn 10 t) as [|l ls]; [contradiction|].
    cbn [join app] in *. rewrite IH. reflexivity.
  - destruct (splitOn 10 t) as [|l ls]; [contradiction|].
    destruct ls; cbn [join app] in *; rewrite <- IH; reflexivity.
Qed.

Lemma linesOf_length rawContent : rawContent <> [] -> (1 <= length (linesOf rawContent))%nat.
Proof.
  intros Hne. unfold linesOf. destruct rawContent as [|c t]; [contradiction|].
  cbn [length Nat.ltb Nat.leb]. pose proof (splitOn_nonEmpty 10 (c :: t)) as H.
  destruct (splitOn 10 (c :: t)); [contradiction|cbn; lia].
Qed.

Lemma join_linesOf rawContent : join [10] (linesOf rawContent) = rawContent.
Proof.
  unfold linesOf. destruct rawContent as [|c t]; [reflexivity|].
  cbn [length Nat.ltb Nat.leb]. apply join_splitOn.
Qed.

Lemma jsSlice_between {A} (l : list A) (first last : Z) :
  (1 <= first)%Z -> (first <= last + 1)%Z -> (last <= Z.of_nat (length l))%Z ->
  jsSlice l (first - 1) last
  = take (Z.to_nat (last - first + 1)) (drop (Z.to_nat (first - 1)) l).
Proof.
  intros H1 H2 H3. unfold jsSlice.
  destruct (Z.ltb_spec (first - 1) 0); [lia|]. destruct (Z.ltb_spec last 0); [lia|].
  rewrite !Z.min_l by lia. f_equal. lia.
Qed.

Lemma take_add_drop {A} (l : list A) n m :
  take n l ++ take m (drop n l) = take (n + m) l.
Proof.
  revert l. induction n as [|n IH]; intros l; [reflexivity|].
  destruct l as [|a l]; cbn; [destruct m; reflexivity|]. rewrite IH. reflexivity.
Qed.

(** The window of a read with a usable limit, on a file of [total]
    lines that the offset does not overshoot. *)
Lemma window_bounds params total :
  (1 <= total)%Z ->
  (forall n, in_limit params = Some n -> 1 <= n)%Z ->
  (startLineOf params <= total)%Z ->
  (1 <= startLineOf params <= endLineOf params total)%Z
  /\ (endLineOf params total <= total)%Z
  /\ (forall n, in_limit params = Some n ->
                endLineOf params total = Z.min total (startLineOf params + n - 1))
  /\ (in_limit params = None -> endLineOf params total = total).
Proof.
  intros Htotal Hlimit Hstart. unfold endLineOf.
  assert (H1 : (1 <= startLineOf params)%Z) by (unfold startLineOf; lia).
  destruct (in_limit params) as [n|] eqn:Hn; cbn [SourceExtract.truthyNum default from_option id].
  - specialize (Hlimit n eq_refl). destruct (Z.eqb_spec n 0); [lia|]. cbn [negb].
    split; [lia|]. split; [lia|]. split; [intros ? [= <-]; reflexivity|discriminate].
  - split; [lia|]. split; [lia|]. split; [discriminate|reflexivity].
Qed.

Lemma selectedLines_between params allLines :
  (1 <= Z.of_nat (length allLines))%Z ->
  (forall n, in_limit params = Some n -> 1 <= n)%Z ->
  (startLineOf params <= Z.of_nat (length allLines))%Z ->
  selectedLines params allLines
  = linesBetween allLines (startLineOf params)
                 (endLineOf params (Z.of_nat (length allLines))).
Proof.
  intros Htotal Hlimit Hstart.
  destruct (window_bounds params _ Htotal Hlimit Hstart) as (H1 & H2 & _).
  unfold selectedLines, linesBetween. apply jsSlice_between; lia.
Qed.

Section Reads.

Variable resolvePathWithinRoot : jstring -> option jstring.
Variable readFile : jstring -> option jstring.
Variable byteLength : jstring -> Z.
Variable showNumber : Z -> jstring.

Local Abbreviation read := (execute resolvePathWithinRoot readFile byteLength showNumber).

(** X24.  Reading a whole file gives the file.  With neither offset nor
    limit, a file that fits the output limit is returned as it is, unit
    for unit, with no notice appended and not marked as truncated: the
    lines it is split into and joined from are the text again. *)
Theorem reading_a_whole_file_returns_it path absolutePath rawContent :
  resolvePathWithinRoot path = Some absolutePath ->
  readFile absolutePath = Some rawContent ->
  (length rawContent <= MAX_OUTPUT_CHARS)%nat ->
  exists details,
    read (mkReadInput path None None) = inr (rawContent, details)
    /\ rd_truncated details = false
    /\ rd_endLine details = rd_totalLines details
    /\ rd_totalLines details = Z.of_nat (length (linesOf rawContent)).
Proof.
  intros Hpath Hfile Hfits. unfold execute. cbn [in_path]. rewrite Hpath, Hfile.
  destruct rawContent as [|c t] eqn:Hraw.
  { change (linesOf []) with (@nil jstring). cbn [length Z.of_nat Z.eqb].
    eexists. split; [reflexivity|]. split; [reflexivity|]. split; reflexivity. }
  rewrite <- Hraw in *. assert (Hne : rawContent <> []) by (subst; discriminate).
  pose proof (linesOf_length rawContent Hne) as Hlines.
  destruct (Z.eqb_spec (Z.of_nat (length (linesOf rawContent))) 0); [lia|].
  change (startLineOf (mkReadInput path None None)) with 1%Z.
  change (endLineOf (mkReadInput path None None) (Z.of_nat (length (linesOf rawContent))))
    with (Z.of_nat (length (linesOf rawContent))).
  destruct (Z.ltb_spec (Z.of_nat (length (linesOf rawContent))) 1); [lia|].
  rewrite Z.ltb_irrefl.
  assert (Hall : selectedLines (mkReadInput path None None) (linesOf rawContent)
                 = linesOf rawContent).
  { rewrite selectedLines_between;
      [|lia|discriminate|change (startLineOf (mkReadInput path None None)) with 1%Z; lia].
    unfold linesBetween.
    change (startLineOf (mkReadInput path None None)) with 1%Z.
    change (endLineOf (mkReadInput path None None) (Z.of_nat (length (linesOf rawContent))))
      with (Z.of_nat (length (linesOf rawContent))).
    change (Z.to_nat (1 - 1)) with 0%nat. cbn [drop].
    apply firstn_all2. lia. }
  rewrite Hall, join_linesOf. unfold clipText.
  destruct (Nat.leb_spec (length rawContent) MAX_OUTPUT_CHARS); [|lia].
  cbn [fst snd]. eexists. split; [reflexivity|]. split; [reflexivity|]. split; reflexivity.
Qed.

(** X25.  The window of a read.  On a file that is not empty, with a
    limit of at least one if there is one: an offset past the last line
    is an error that names the offset and the number of lines, and this
    is the only way the read fails; otherwise the details name a window
    with [1 <= startLine <= endLine <= totalLines], that starts at the
    offset (at line 1 for an offset below 1), holds at most [limit]
    lines, and reaches the end of the file when there is no limit.  The
    text returned starts with what fits the output limit of those lines,
    joined by line feeds; it is marked as truncated exactly when they do
    not fit; and a continuation notice follows exactly when lines are
    left after the window. *)
Theorem read_returns_the_window_asked_for params absolutePath rawContent :
  resolvePathWithinRoot (in_path params) = Some absolutePath ->
  readFile absolutePath = Some rawContent ->
  rawContent <> [] ->
  (forall n, in_limit params = Some n -> 1 <= n)%Z ->
  let allLines := linesOf rawContent in
  let total := Z.of_nat (length allLines) in
  let first := Z.max 1 (default 1%Z (in_offset params)) in
  ((total < first)%Z -> read params = inl (OffsetBeyondEnd first total))
  /\ ((first <= total)%Z ->
      exists text details,
        read params = inr (text, details)
        /\ rd_totalLines details = total
        /\ rd_startLine details = first
        /\ (first <= rd_endLine details <= total)%Z
        /\ (forall n, in_limit params = Some n ->
                      rd_endLine details = Z.min total (first + n - 1))
        /\ (in_limit params = None -> rd_endLine details = total)
        /\ let window := join [10] (linesBetween allLines first (rd_endLine details)) in
           let notice :=
             if (rd_endLine details <? total)%Z
             then continuationNotice showNumber (rd_endLine details) else [] in
           (rd_truncated details = negb (length window <=? MAX_OUTPUT_CHARS)%nat)
           /\ text = (if rd_truncated details
                      then take MAX_OUTPUT_CHARS window ++ truncationNotice showNumber
                      else window) ++ notice).
Proof.
  intros Hpath Hfile Hne Hlimit allLines total first.
  pose proof (linesOf_length rawContent Hne) as Hlines. fold allLines in Hlines.
  unfold execute. rewrite Hpath, Hfile. fold allLines total.
  change (startLineOf params) with first.
  destruct (Z.eqb_spec total 0); [lia|]. split.
  - intros Hbeyond. destruct (Z.ltb_spec total first); [reflexivity|lia].
  - intros Hwithin. destruct (Z.ltb_spec total first); [lia|].
    destruct (window_bounds params total ltac:(lia) Hlimit Hwithin) as (H1 & H2 & H3 & H4).
    change (startLineOf params) with first in *.
    rewrite (selectedLines_between params allLines ltac:(lia) Hlimit Hwithin).
    change (startLineOf params) with first. fold total.
    set (last := endLineOf params total) in *.
    set (window := join [10] (linesBetween allLines first last)).
    eexists. eexists. split; [reflexivity|]. cbn [rd_totalLines rd_startLine rd_endLine rd_truncated].
    split; [reflexivity|]. split; [reflexivity|]. split; [lia|]. split; [exact H3|].
    split; [exact H4|]. cbn zeta. fold window. unfold clipText.
    destruct (length window <=? MAX_OUTPUT_CHARS)%nat eqn:Hfit; cbn [fst snd negb].
    + split; [reflexivity|]. destruct (last <? total)%Z; [reflexivity|].
      rewrite app_nil_r. reflexivity.
    + split; [reflexivity|]. unfold slice0.
      destruct (Z.ltb_spec (Z.of_nat MAX_OUTPUT_CHARS) 0); [lia|]. rewrite Nat2Z.id.
      destruct (last <? total)%Z; [reflexivity|]. rewrite app_nil_r. reflexivity.
Qed.

End Reads.

(** X26.  Reading on from where a window ended.  When a window of [n]
    lines stops before the end of the file, the lines of the read that
    continues at [endLine + 1], as the notice advises, follow it without
    gap or overlap: the two windows together are the window of [n + m]
    lines from the first offset. *)
Theorem continued_read_picks_up_where_it_stopped path offset n m (allLines : list jstring) :
  (1 <= n)%Z -> (1 <= m)%Z ->
  let first := mkReadInput path offset (Some n) in
  let total := Z.of_nat (length allLines) in
  (endLineOf first total < total)%Z ->
  (startLineOf first <= total)%Z ->
  let next := mkReadInput path (Some (endLineOf first total + 1)%Z) (Some m) in
  selectedLines first allLines ++ selectedLines next allLines
  = selectedLines (mkReadInput path offset (Some (n + m)%Z)) allLines
  /\ startLineOf next = (endLineOf first total + 1)%Z.
Proof.
  intros Hn Hm first total Hmore Hstart next.
  assert (Htotal : (1 <= total)%Z) by (unfold startLineOf in Hstart; lia).
  assert (Hlimit : forall p k, in_limit (mkReadInput path p (Some k)) = Some k) by reflexivity.
  destruct (window_bounds first total Htotal) as (H1 & H2 & H3 & _);
    [intros k [= <-]; exact Hn|exact Hstart|].
  specialize (H3 n eq_refl).
  assert (Hnext : startLineOf next = (endLineOf first total + 1)%Z).
  { unfold next, startLineOf at 1. cbn [in_offset default from_option id]. lia. }
  destruct (window_bounds next total Htotal) as (N1 & N2 & N3 & _);
    [intros k [= <-]; exact Hm|lia|].
  specialize (N3 m eq_refl).
  set (both := mkReadInput path offset (Some (n + m)%Z)).
  assert (Hsame : startLineOf both = startLineOf first) by reflexivity.
  destruct (window_bounds both total Htotal) as (B1 & B2 & B3 & _);
    [intros k [= <-]; lia|rewrite Hsame; exact Hstart|].
  specialize (B3 (n + m)%Z eq_refl).
  split; [|exact Hnext].
  rewrite !selectedLines_between;
    try (fold total; lia); try (intros k [= <-]; lia).
  fold total. unfold linesBetween. rewrite Hsame in *.
  set (s := startLineOf first) in *. set (e := endLineOf first total) in *.
  rewrite Hnext. replace (Z.to_nat (e + 1 - 1)) with (Z.to_nat (s - 1) + Z.to_nat (e - s + 1))%nat by lia.
  rewrite <- drop_drop, take_add_drop. f_equal. lia.
Qed.

(** The first two lines of the three-line file, then the rest. *)
Lemma continued_read_picks_up_where_it_stopped_witness :
  selectedLines (mkReadInput (js "notes.md") None (Some 2%Z)) (linesOf demoFile)
  ++ selectedLines (mkReadInput (js "notes.md") (Some 3%Z) (Some 1%Z)) (linesOf demoFile)
  = [js "alpha"; js "beta"; js "gamma"].
Proof.
  destruct (continued_read_picks_up_where_it_stopped (js "notes.md") None 2 1 (linesOf demoFile))
    as [Hjoin _]; [lia|lia|vm_compute; reflexivity|vm_compute; discriminate|].
  etransitivity; [exact Hjoin|]. vm_compute. reflexivity.
Defined.

(** The three-line file read whole. *)
Lemma reading_a_whole_file_returns_it_witness :
  exists details,
    demoRead (mkReadInput (js "notes.md") None None) = inr (demoFile, details)
    /\ rd_totalLines details = 3%Z.
Proof.
  destruct (reading_a_whole_file_returns_it
              (fun p => Some p)
              (fun p => if eqb p (js "notes.md") then Some demoFile else None)
              (fun s => Z.of_nat (length s))
              (fun n => if (n =? 3)%Z then js "3" else js "?")
              (js "notes.md") (js "notes.md") demoFile)
    as (details & Hread & _ & _ & Htotal);
    [reflexivity|reflexivity|apply Nat.leb_le; vm_compute; reflexivity|].
  exists details. split; [exact Hread|]. rewrite Htotal. vm_compute. reflexivity.
Defined.

(** The second line of the three-line file, and an offset past its end. *)
Lemma read_returns_the_window_asked_for_witness :
  demoRead (mkReadInput (js "notes.md") (Some 4%Z) None) = inl (OffsetBeyondEnd 4 3)
  /\ exists text details,
       demoRead (mkReadInput (js "notes.md") (Some 2%Z) (Some 1%Z)) = inr (text, details)
       /\ rd_startLine details = 2%Z /\ rd_endLine details = 2%Z.
Proof.
  split.
  - destruct (read_returns_the_window_asked_for
                (fun p => Some p)
                (fun p => if eqb p (js "notes.md") then Some demoFile else None)
                (fun s => Z.of_nat (length s))
                (fun n => if (n =? 3)%Z then js "3" else js "?")
                (mkReadInput (js "notes.md") (Some 4%Z) None) (js "notes.md") demoFile)
      as [Hbeyond _];
      [reflexivity|reflexivity|vm_compute; discriminate|discriminate|].
    apply Hbeyond. vm_compute. reflexivity.
  - destruct (read_returns_the_window_asked_for
                (fun p => Some p)
                (fun p => if eqb p (js "notes.md") then Some demoFile else None)
                (fun s => Z.of_nat (length s))
                (fun n => if (n =? 3)%Z then js "3" else js "?")
                (mkReadInput (js "notes.md") (Some 2%Z) (Some 1%Z)) (js "notes.md") demoFile)
      as [_ Hwithin];
      [reflexivity|reflexivity|vm_compute; discriminate|intros n [= <-]; lia|].
    destruct Hwithin as (text & details & Hread & _ & Hstart & _ & Hend & _);
      [vm_compute; discriminate|].
    exists text, details. split; [exact Hread|]. split; [exact Hstart|].
    rewrite (Hend 1%Z eq_refl). vm_compute. reflexivity.
Defined.

End ReadToolFacts.

(* ===================================================================== *)
(** * Escaping *)
(* ===================================================================== *)

Module RendererFacts.

Import Js Renderer.

Lemma replaceAllUnit_app c rep a b :
  replaceAllUnit c rep (a ++ b) = replaceAllUnit c rep a ++ replaceAllUnit c rep b.
Proof. apply flat_map_app. Qed.

Lemma escapeHtml_app a b : escapeHtml (a ++ b) = escapeHtml a ++ escapeHtml b.
Proof. unfold escapeHtml. rewrite !replaceAllUnit_app. reflexivity. Qed.

Lemma escapeHtml_unit c : escapeHtml [c] = escapeUnit c.
Proof.
  unfold escapeUnit.
  destruct (N.eqb_spec c 38) as [->|H38]; [vm_compute; reflexivity|].
  destruct (N.eqb_spec c 60) as [->|H60]; [vm_compute; reflexivity|].
  destruct (N.eqb_spec c 62) as [->|H62]; [vm_compute; reflexivity|].
  destruct (N.eqb_spec c 34) as [->|H34]; [vm_compute; reflexivity|].
  destruct (N.eqb_spec c 39) as [->|H39]; [vm_compute; reflexivity|].
  unfold escapeHtml, replaceAllUnit.
  repeat (cbn [flat_map app];
          match goal with
          | |- context [(c =? ?k)%N] =>
              rewrite (proj2 (N.eqb_neq c k)) by assumption
          end).
  reflexivity.
Qed.

Lemma escapeHtml_cons c s : escapeHtml (c :: s) = escapeUnit c ++ escapeHtml s.
Proof. rewrite <- escapeHtml_unit. apply (escapeHtml_app [c] s). Qed.

Lemma escapeUnit_cases c :
  (markupUnit c = false /\ c <> 38%N /\ escapeUnit c = [c])
  \/ (exists d rest, escapeUnit c = 38%N :: d :: rest
                     /\ forallb (fun x => negb (markupUnit x)) (escapeUnit c) = true
                     /\ (d = 97%N /\ c = 38%N \/ d = 108%N /\ c = 60%N \/ d = 103%N /\ c = 62%N
                         \/ d = 113%N /\ c = 34%N \/ d = 35%N /\ c = 39%N)).
Proof.
  unfold escapeUnit, markupUnit.
  destruct (N.eqb_spec c 38) as [->|H38].
  { right. eexists _, _. split; [vm_compute; reflexivity|]. split; [reflexivity|]. auto. }
  destruct (N.eqb_spec c 60) as [->|H60].
  { right. eexists _, _. split; [vm_compute; reflexivity|]. split; [reflexivity|]. auto. }
  destruct (N.eqb_spec c 62) as [->|H62].
  { right. eexists _, _. split; [vm_compute; reflexivity|]. split; [reflexivity|]. auto 6. }
  destruct (N.eqb_spec c 34) as [->|H34].
  { right. eexists _, _. split; [vm_compute; reflexivity|]. split; [reflexivity|]. auto 7. }
  destruct (N.eqb_spec c 39) as [->|H39].
  { right. eexists _, _. split; [vm_compute; reflexivity|]. split; [reflexivity|]. auto 8. }
  left. split; [reflexivity|]. split; [exact H38|reflexivity].
Qed.

Lemma escapeHtml_injective a : forall b, escapeHtml a = escapeHtml b -> a = b.
Proof.
  induction a as [|x a IH]; intros [|y b].
  - reflexivity.
  - rewrite escapeHtml_cons. destruct (escapeUnit_cases y) as [(_ & _ & ->)|(d & r & -> & _)];
      discriminate.
  - rewrite escapeHtml_cons. destruct (escapeUnit_cases x) as [(_ & _ & ->)|(d & r & -> & _)];
      discriminate.
  - rewrite !escapeHtml_cons.
    destruct (escapeUnit_cases x) as [(_ & Hx & Ex)|(d & r & Ex & _ & Hd)];
      destruct (escapeUnit_cases y) as [(_ & Hy & Ey)|(d' & r' & Ey & _ & Hd')].
    + rewrite Ex, Ey. intros [= -> H]. f_equal. apply IH. exact H.
    + rewrite Ex, Ey. intros [= -> _]. contradiction.
    + rewrite Ex, Ey. intros [= <- _]. contradiction.
    + intros H. assert (x = y) as ->.
      { rewrite Ex, Ey in H. injection H as Hsame _.
        destruct Hd as [[? ->]|[[? ->]|[[? ->]|[[? ->]|[? ->]]]]];
          destruct Hd' as [[? ->]|[[? ->]|[[? ->]|[[? ->]|[? ->]]]]];
          subst; first [reflexivity|discriminate]. }
      apply app_inv_head in H. f_equal. apply IH. exact H.
Qed.

(** X27.  [escapeHtml] does what escaping all five characters at once
    does: replacing the ampersand first keeps the ampersands of the
    entities written afterwards from being escaped again.  Its result
    holds no angle bracket and no quote, so it cannot open or close
    markup or an attribute value; and it loses nothing: two texts that
    escape to the same text are the same. *)
Theorem escapeHtml_escapes_each_unit_once value :
  escapeHtml value = flat_map escapeUnit value
  /\ forallb (fun c => negb (markupUnit c)) (escapeHtml value) = true
  /\ (forall other, escapeHtml other = escapeHtml value -> other = value).
Proof.
  split; [|split].
  - induction value as [|c s IH]; [reflexivity|].
    rewrite escapeHtml_cons, IH. reflexivity.
  - induction value as [|c s IH]; [reflexivity|].
    rewrite escapeHtml_cons, forallb_app, IH, andb_true_r.
    destruct (escapeUnit_cases c) as [(Hc & _ & ->)|(d & r & _ & Hall & _)]; [|exact Hall].
    cbn [forallb]. rewrite Hc. reflexivity.
  - intros other. apply escapeHtml_injective.
Qed.

Lemma escapeHtml_plain s :
  forallb (fun c => negb (markupUnit c) && negb (c =? 38)%N) s = true -> escapeHtml s = s.
Proof.
  induction s as [|c s IH]; [reflexivity|]. cbn [forallb]. intros H.
  apply andb_true_iff in H as [Hc Hs]. apply andb_true_iff in Hc as [Hm Ha].
  rewrite escapeHtml_cons, (IH Hs).
  destruct (escapeUnit_cases c) as [(_ & _ & ->)|(d & r & _ & _ & Hd)]; [reflexivity|].
  exfalso. apply negb_true_iff in Hm, Ha. apply N.eqb_neq in Ha.
  destruct Hd as [[_ ->]|[[_ ->]|[[_ ->]|[[_ ->]|[_ ->]]]]];
    first [contradiction|discriminate].
Qed.

Lemma slugUnit_plain c :
  Slug.slugUnit c = true -> negb (markupUnit c) && negb (c =? 38)%N = true.
Proof.
  unfold Slug.slugUnit, isLowerAlpha, isDigit, Slug.isHyphen, markupUnit. intros H.
  assert (Hrange : (c = 45 \/ 48 <= c <= 57 \/ 97 <= c <= 122)%N).
  { repeat (apply orb_true_iff in H as [H|H]);
      try (apply andb_true_iff in H as [Ha Hb]; apply N.leb_le in Ha, Hb; lia).
    apply N.eqb_eq in H. lia. }
  destruct (N.eqb_spec c 60); [lia|]. destruct (N.eqb_spec c 62); [lia|].
  destruct (N.eqb_spec c 34); [lia|]. destruct (N.eqb_spec c 39); [lia|].
  destruct (N.eqb_spec c 38); [lia|]. reflexivity.
Qed.

(** The slug among the locals of a run is the slug of its seed. *)
Lemma run_call_slug pf s seedPaperUrl s' l :
  Session.run_call pf s seedPaperUrl = (s', Session.AwaitMkdir l) ->
  Session.paperSlug l = Slug.createPaperSlug (Session.seedUrl l).
Proof.
  unfold Session.run_call.
  repeat match goal with
         | |- context [match ?x with _ => _ end] => destruct x
         | |- context [if ?x then _ else _] => destruct x
         end; intros [= <- <-]; reflexivity.
Qed.

(** X28.  The title of the page needs no escaping.  Whatever the seed
    URL, the title [run] hands to the renderer, "Deep Research Report: "
    followed by the slug of the seed, comes out of [escapeHtml] as it
    went in: a URL cannot put markup into the page through its slug. *)
Theorem page_title_is_written_as_it_is seedUrl :
  escapeHtml (pageTitle seedUrl) = pageTitle seedUrl
  /\ forall pf s seedPaperUrl s' l,
       Session.run_call pf s seedPaperUrl = (s', Session.AwaitMkdir l) ->
       js "Deep Research Report: " ++ Session.paperSlug l = pageTitle (Session.seedUrl l).
Proof.
  split.
  - unfold pageTitle. rewrite escapeHtml_app.
    assert (escapeHtml (js "Deep Research Report: ") = js "Deep Research Report: ") as ->
      by (vm_compute; reflexivity).
    f_equal. apply escapeHtml_plain.
    destruct (SlugMore.createPaperSlug_shape seedUrl) as (_ & Hunits & _).
    rewrite forallb_forall in Hunits. apply forallb_forall.
    intros c Hc. apply slugUnit_plain, Hunits, Hc.
  - intros pf s seedPaperUrl s' l Hcall. unfold pageTitle.
    rewrite (run_call_slug pf s seedPaperUrl s' l Hcall). reflexivity.
Qed.

End RendererFacts.

(* ===================================================================== *)
(** * From the command line to the session *)
(* ===================================================================== *)

Module CliFacts.

Import Js Cli.

Section Parsing.

Variable numberOf : Z -> Num.JsNumber.

Lemma parseArgsFrom_bounded n : forall argv args result,
  (length argv <= n)%nat ->
  usable args -> parseArgsFrom numberOf args argv = inr result -> usable result.
Proof.
  induction n as [|n IH]; intros argv args result Hlen Hargs;
    (destruct argv as [|arg rest]; [intros [= <-]; exact Hargs|]);
    cbn [length] in Hlen; [lia|].
  assert (Hrest : forall a r, usable a -> parseArgsFrom numberOf a rest = inr r -> usable r)
    by (intros a r; apply IH; lia).
  assert (Hrest' : forall v rest' a r,
             rest = v :: rest' -> usable a ->
             parseArgsFrom numberOf a rest' = inr r -> usable r)
    by (intros v rest' a r ->; apply IH; cbn [length] in Hlen; lia).
  destruct Hargs as (Hturns & Hlevel & Hseed).
  cbn [parseArgsFrom].
  destruct (eqb arg (js "--help") || eqb arg (js "-h")).
  { apply Hrest. split; [exact Hturns|]. split; assumption. }
  destruct (eqb arg (js "--provider")).
  { destruct rest as [|v rest'].
    - intros [= <-]. split; [exact Hturns|]. split; assumption.
    - apply (Hrest' v rest'); [reflexivity|]. split; [exact Hturns|]. split; assumption. }
  destruct (eqb arg (js "--model")).
  { destruct rest as [|v rest'].
    - intros [= <-]. split; [exact Hturns|]. split; assumption.
    - apply (Hrest' v rest'); [reflexivity|]. split; [exact Hturns|]. split; assumption. }
  destruct (eqb arg (js "--max-turns")).
  { cbn zeta.
    set (value := parseInt10 numberOf (match rest with [] => [] | v :: _ => v end)).
    destruct (Num.isNaN value) eqn:Hnan; [discriminate|].
    destruct (Num.lt value (Num.ofZ 1)) eqn:Hlow; [discriminate|]. cbn [orb].
    assert (Hvalue : Num.ge value (Num.ofZ 1) = true).
    { unfold Num.ge. rewrite Hnan, Hlow. reflexivity. }
    destruct rest as [|v rest'].
    - intros [= <-]. split; [exact Hvalue|]. split; assumption.
    - apply (Hrest' v rest'); [reflexivity|]. split; [exact Hvalue|]. split; assumption. }
  destruct (eqb arg (js "--thinking")).
  { destruct (bool_decide_reflect
                ((match rest with [] => [] | v :: _ => v end) ∈ THINKING_LEVELS))
      as [Hin|Hout]; [|discriminate].
    cbn [negb]. destruct rest as [|v rest'].
    - intros [= <-]. split; [exact Hturns|]. split; assumption.
    - apply (Hrest' v rest'); [reflexivity|]. split; [exact Hturns|]. split; assumption. }
  destruct (eqb arg (js "--output")).
  { destruct rest as [|v rest'].
    - intros [= <-]. split; [exact Hturns|]. split; assumption.
    - apply (Hrest' v rest'); [reflexivity|]. split; [exact Hturns|]. split; assumption. }
  destruct (eqb arg (js "--verbose")).
  { apply Hrest. split; [exact Hturns|]. split; assumption. }
  destruct (startsWith arg (js "-")) eqn:Hplain; [discriminate|].
  destruct (negb (nonEmpty (c_seedUrl args))); [|discriminate].
  apply Hrest. split; [exact Hturns|]. split; assumption.
Qed.

Lemma parseArgsFrom_usable argv args result :
  usable args -> parseArgsFrom numberOf args argv = inr result -> usable result.
Proof. apply (parseArgsFrom_bounded (length argv)). lia. Qed.

(** [Math.max(1, x)] is [x] for a number of at least one. *)
Lemma max_one_given x : Num.ge x (Num.ofZ 1) = true -> Num.max (Num.ofZ 1) x = x.
Proof.
  unfold Num.ge. intros H. apply andb_true_iff in H as [H Hlow].
  apply andb_true_iff in H as [Hnan _]. apply negb_true_iff in Hnan, Hlow.
  rewrite NumFacts.max_one, Hnan, Hlow. reflexivity.
Qed.

(** X29.  What the command line hands to the session.  Whatever number
    the platform makes of the digits of [--max-turns], arguments that
    [parseArgs] accepts carry a turn cap that is a number of at least
    one (the default of 24 if the option is not given), a thinking
    level from the list, and a seed that does not start with a hyphen;
    so the session [main] constructs from them enforces the very cap
    that [parseArgs] returned: the constructor has nothing to correct. *)
Theorem accepted_arguments_set_the_cap_as_given cwd argv args :
  parseArgs numberOf cwd argv = inr args ->
  usable args
  /\ forall pf, Session.maxTurns (Session.create pf (sessionOptions args)) = c_maxTurns args.
Proof.
  intros Hparse.
  assert (Husable : usable args).
  { eapply parseArgsFrom_usable; [|exact Hparse].
    split; [apply NumFacts.ge_ofZ|]. split; [|reflexivity].
    apply (bool_decide_eq_true_1 (js "medium" ∈ THINKING_LEVELS)). vm_compute. reflexivity. }
  split; [exact Husable|]. intros pf. destruct Husable as (Hturns & _).
  unfold Session.create, sessionOptions.
  cbn [Session.maxTurns Session.opt_maxTurns default from_option id].
  apply max_one_given. exact Hturns.
Qed.

End Parsing.

(** A seed and a cap of three turns, where the platform's numbers are
    exact. *)
Lemma accepted_arguments_set_the_cap_as_given_witness :
  exists args,
    parseArgs Num.ofZ (js "/work")
              [js "https://arxiv.org/abs/1706.03762"; js "--max-turns"; js " 3x"]
    = inr args
    /\ c_maxTurns args = Num.ofZ 3
    /\ Session.maxTurns (Session.create Session.demoPlatform (sessionOptions args))
       = Num.ofZ 3.
Proof.
  eexists. split; [vm_compute; reflexivity|]. split; [reflexivity|].
  destruct (accepted_arguments_set_the_cap_as_given Num.ofZ (js "/work")
              [js "https://arxiv.org/abs/1706.03762"; js "--max-turns"; js " 3x"]
              _ ltac:(vm_compute; reflexivity)) as [_ Hcap].
  rewrite Hcap. reflexivity.
Defined.

End CliFacts.

(* ===================================================================== *)
(** * From the tools to the source table *)
(* ===================================================================== *)

Module ToolResultFacts.

Import Js Session SessionViews SessionFacts SessionTables ToolResults.

Lemma resultValue_entry r : isWebSearchEntry (resultValue r) = true.
Proof. reflexivity. Qed.

Lemma searchDetailsValue_valid d : isWebSearchToolDetails (searchDetailsValue d) = true.
Proof.
  unfold isWebSearchToolDetails, searchDetailsValue.
  change (prop (VObject ?f) "query") with (lookupField (js "query") f).
  change (prop (VObject ?f) "results") with (lookupField (js "results") f).
  cbn [lookupField isRecord isString negb orb].
  assert (eqb (js "query") (js "query") = true) as -> by reflexivity.
  assert (eqb (js "query") (js "results") = false) as -> by reflexivity.
  assert (eqb (js "results") (js "results") = true) as -> by reflexivity.
  cbn [isString negb orb]. apply forallb_forall. intros entry Hin.
  apply in_map_iff in Hin as (r & <- & _). apply resultValue_entry.
Qed.

Lemma extractDetailsValue_valid d : isExtractSourceToolDetails (extractDetailsValue d) = true.
Proof. destruct d as [? ? ? ? ? [] ? ?]; reflexivity. Qed.

Section Harvest.

Variable pf : Platform.

(** X30.  What the tools return is what the controller harvests.  The
    details of every search result, as the search tool builds them, pass
    the controller's check of their shape, and so do the details of
    every extraction; during a run, the URL of each result of a search
    and the canonical URL of an extraction are therefore in the source
    table once the tool's result has been handled. *)
Theorem tool_details_are_harvested s r run text :
  running s r run ->
  keyedByUrl (sources run) ->
  (forall d,
      isWebSearchToolDetails (searchDetailsValue d) = true
      /\ exists run',
           running (handleAgentEvent pf s
                      (tool_execution_end (js "web_search")
                                          (toolResult text (searchDetailsValue d)))) r run'
           /\ forall found, In found (WebSearch.results d) ->
                exists e, sources run' !! WebSearch.r_url found = Some e
                          /\ sr_url e = WebSearch.r_url found)
  /\ (forall d,
        isExtractSourceToolDetails (extractDetailsValue d) = true
        /\ exists run' e,
             running (handleAgentEvent pf s
                        (tool_execution_end (js "extract_source")
                                            (toolResult text (extractDetailsValue d)))) r run'
             /\ sources run' !! SourceExtract.canonicalUrl d = Some e
             /\ sr_url e = SourceExtract.canonicalUrl d).
Proof.
  intros Hrun Hkeyed. split.
  - intros d. split; [apply searchDetailsValue_valid|].
    destruct (harvest pf s r run (toolResult text (searchDetailsValue d)) Hrun Hkeyed)
      as [Hsearch _].
    destruct (Hsearch (map resultValue (WebSearch.results d)))
      as (run' & Hrun' & Hall); [apply searchDetailsValue_valid|reflexivity|].
    exists run'. split; [exact Hrun'|]. intros found Hfound.
    destruct (Hall (resultValue found)) as (url & e & Hurl & He & Hkey);
      [apply in_map; exact Hfound|].
    injection Hurl as <-. exists e. split; assumption.
  - intros d. split; [apply extractDetailsValue_valid|].
    destruct (harvest pf s r run (toolResult text (extractDetailsValue d)) Hrun Hkeyed)
      as [_ Hextract].
    apply (Hextract (SourceExtract.canonicalUrl d)); [apply extractDetailsValue_valid|].
    destruct d as [? ? ? ? ? [] ? ?]; reflexivity.
Qed.

End Harvest.

(** The demonstration run is told what a search for two papers found. *)
Lemma tool_details_are_harvested_witness :
  exists run e,
    running (handleAgentEvent demoPlatform (demoStarted None)
               (tool_execution_end (js "web_search")
                  (toolResult [] (searchDetailsValue
                     (WebSearch.mkSearchDetails (js "attention")
                        [WebSearch.paperA; WebSearch.paperB] None))))) 0 run
    /\ sources run !! WebSearch.r_url WebSearch.paperB = Some e.
Proof.
  destruct demoStarted_table as (run0 & Hrun0 & Hkeyed0 & _).
  destruct (tool_details_are_harvested demoPlatform (demoStarted None) 0 run0 []
              Hrun0 Hkeyed0) as [Hsearch _].
  destruct (Hsearch (WebSearch.mkSearchDetails (js "attention")
                       [WebSearch.paperA; WebSearch.paperB] None))
    as (_ & run & Hrun & Hall).
  destruct (Hall WebSearch.paperB) as (e & He & _); [right; left; reflexivity|].
  exists run, e. split; [exact Hrun|exact He].
Defined.

End ToolResultFacts.
